(** * agentic: tool registry, guard, sandbox, context manager and logger

    A shallow embedding of [src/tools.ts] (ToolRegistry), [src/tool-guard.ts]
    (ToolGuard), [src/tool-sandbox.ts] (ToolSandbox, createSecureTool),
    [src/context-manager.ts] (ContextManager) and [src/logger.ts]
    (wrapLogger), followed by the properties of the execution path and of
    the life cycle of the registry, the guard's lists, the sandbox's runs,
    the context manager and the logger wrapper.

    Conventions of the embedding.
    - A JavaScript value is a tree ([Js.value]); numbers are integral, strings
      are sequences of 8-bit code units.
    - A thrown value is an [Error] object ([Js.error]); awaiting a promise
      yields an [Js.outcome].
    - The calls that the classes make on their own logger are not modelled.
      Event callbacks ([ToolGuardEvents], [ToolSandboxEvents]) append to a
      log and return normally.
    - Arrays and configuration objects that the code shares by reference
      live in a store ([ToolGuard.Heap]).
    - An [async] method is cut at its [await]s.  [ToolSandbox.step] runs
      one stretch of one invocation of [execute], or one call of another
      method, so that invocations interleave as tasks do;
      [ToolRegistry.execute] and [ToolSandbox.execute] run one call from
      its first line to its last.
    - A [Map] or [Set] is a list in insertion order; [Array.prototype.sort]
      is the stable sort that the language prescribes.
    - The quotients of [getUsageStats] are exact rationals.  The digest of
      [ContextManager.hashContent], the clock and the random digits of
      [generateId] are inputs of the model. *)

From Stdlib Require Import String Ascii List ZArith Lia Bool Arith PeanoNat.
From Stdlib Require Import DecimalString DecimalNat Decimal.
From Stdlib Require Import QArith Sorted Permutation.
From Stdlib Require OrderedTypeEx.
Import ListNotations.
Open Scope string_scope.
Open Scope Z_scope.

(* ================================================================== *)
(** * JavaScript data *)
(* ================================================================== *)

Module Js.

(** Values returned by tools, passed as parameters and produced by
    [JSON.parse].  [VObject] keeps the own enumerable properties in
    insertion order. *)
#[warnings="-register-all"]
Inductive value : Type :=
| VUndefined
| VNull
| VBool (b : bool)
| VNumber (n : Z)
| VString (s : string)
| VBuffer (bytes : list ascii)
| VArray (items : list value)
| VObject (props : list (string * value)).

(** [new Error(message)], with the [name] of its class. *)
Record error : Type := mkError { err_name : string; err_message : string }.

Definition Error (message : string) : error := mkError "Error" message.
Definition TypeError (message : string) : error := mkError "TypeError" message.

(** The settled state of a promise, equally the result of a call that may
    throw. *)
Inductive outcome (A : Type) : Type :=
| Resolved (v : A)
| Rejected (e : error).
Arguments Resolved {A} v.
Arguments Rejected {A} e.

Definition is_rejected {A} (o : outcome A) : bool :=
  match o with Resolved _ => false | Rejected _ => true end.

(** [String(error)]: [Error.prototype.toString]. *)
Definition String_ (e : error) : string :=
  if (err_name e =? EmptyString)%string then err_message e
  else if (err_message e =? EmptyString)%string then err_name e
  else err_name e ++ ": " ++ err_message e.

(** [typeof v === 'object'] *)
Definition typeof_object (v : value) : bool :=
  match v with
  | VNull | VBuffer _ | VArray _ | VObject _ => true
  | _ => false
  end.

(** Decimal numerals, as [String(n)] prints an integer. *)
Definition dec_nat (n : nat) : string := NilEmpty.string_of_uint (Nat.to_uint n).
Definition dec (z : Z) : string := NilZero.string_of_int (Z.to_int z).

Fixpoint join (sep : string) (l : list string) : string :=
  match l with
  | [] => EmptyString
  | [s] => s
  | s :: rest => s ++ sep ++ join sep rest
  end.

(** [a[i] = x] within the bounds of [a]. *)
Fixpoint list_update {A : Type} (l : list A) (i : nat) (x : A) : list A :=
  match l, i with
  | [], _ => []
  | _ :: rest, O => x :: rest
  | y :: rest, S i' => y :: list_update rest i' x
  end.

(** ** Property maps: [obj[k] = v] keeps the position of an existing key *)

Fixpoint prop_set {V : Type} (k : string) (v : V) (m : list (string * V))
  : list (string * V) :=
  match m with
  | [] => [(k, v)]
  | (k', v') :: rest =>
      if (k' =? k)%string then (k, v) :: rest else (k', v') :: prop_set k v rest
  end.

Fixpoint prop_get {V : Type} (k : string) (m : list (string * V)) : option V :=
  match m with
  | [] => None
  | (k', v') :: rest => if (k' =? k)%string then Some v' else prop_get k rest
  end.

(** [Map.prototype.delete] on a map kept as a list of entries. *)
Fixpoint map_delete {V : Type} (k : string) (m : list (string * V))
  : list (string * V) :=
  match m with
  | [] => []
  | (k', v) :: rest =>
      if (k' =? k)%string then map_delete k rest else (k', v) :: map_delete k rest
  end.

(** ** JSON.stringify *)

Definition dquote : ascii := ascii_of_nat 34.

Definition hex_digit (n : nat) : ascii :=
  match n with
  | 0 => "0" | 1 => "1" | 2 => "2" | 3 => "3" | 4 => "4" | 5 => "5"
  | 6 => "6" | 7 => "7" | 8 => "8" | 9 => "9" | 10 => "a" | 11 => "b"
  | 12 => "c" | 13 => "d" | 14 => "e" | _ => "f"
  end%char%nat.

(** One code unit of a quoted JSON string. *)
Definition quote_char (c : ascii) : string :=
  let n := nat_of_ascii c in
  if (n =? 34)%nat then String "\" (String dquote EmptyString)
  else if (n =? 92)%nat then "\\"
  else if (n =? 8)%nat then "\b"
  else if (n =? 12)%nat then "\f"
  else if (n =? 10)%nat then "\n"
  else if (n =? 13)%nat then "\r"
  else if (n =? 9)%nat then "\t"
  else if (n <? 32)%nat then
    "\u00" ++ String (hex_digit (n / 16)) (String (hex_digit (n mod 16)) EmptyString)
  else String c EmptyString.

Fixpoint quote_chars (s : string) : string :=
  match s with
  | EmptyString => EmptyString
  | String c rest => quote_char c ++ quote_chars rest
  end.

Definition quote (s : string) : string :=
  String dquote (quote_chars s ++ String dquote EmptyString).

(** [`"${s}"`]: the text between double quotes, as it is. *)
Definition in_quotes (s : string) : string :=
  String dquote (s ++ String dquote EmptyString).

(** A property of an object or an element of an array: [None] stands for a
    value that [JSON.stringify] leaves out ([undefined]). *)
Fixpoint stringify_value (v : value) : option string :=
  match v with
  | VUndefined => None
  | VNull => Some "null"
  | VBool true => Some "true"
  | VBool false => Some "false"
  | VNumber n => Some (dec n)
  | VString s => Some (quote s)
  | VBuffer bytes =>
      Some ("{" ++ quote "type" ++ ":" ++ quote "Buffer" ++ "," ++ quote "data"
            ++ ":[" ++ join "," (map (fun c => dec_nat (nat_of_ascii c)) bytes)
            ++ "]}")
  | VArray items =>
      Some ("[" ++ join ","
              (map (fun x => match stringify_value x with
                             | Some s => s
                             | None => "null"
                             end) items) ++ "]")
  | VObject props =>
      Some ("{" ++ join ","
              ((fix members (l : list (string * value)) : list string :=
                  match l with
                  | [] => []
                  | (k, x) :: rest =>
                      match stringify_value x with
                      | Some s => (quote k ++ ":" ++ s) :: members rest
                      | None => members rest
                      end
                  end) props) ++ "}")
  end.

(** [JSON.stringify(v)]; [None] when the call yields no string. *)
Definition JSON_stringify (v : value) : option string := stringify_value v.

(** ** JSON.parse

    The parser accepts JSON texts whose numbers are integer literals and
    whose strings stay within 8-bit code units; a literal with a fraction or
    an exponent, or an escape above [\u00ff], is outside the values of this
    development and is refused like malformed text.  The message of the
    engine's [SyntaxError] is not modelled. *)

Definition SyntaxError : error := mkError "SyntaxError" "Unexpected token".

Definition is_ws (c : ascii) : bool :=
  let n := nat_of_ascii c in
  ((n =? 32) || (n =? 9) || (n =? 10) || (n =? 13))%nat.

Fixpoint skip_ws (s : string) : string :=
  match s with
  | String c rest => if is_ws c then skip_ws rest else s
  | EmptyString => s
  end.

Definition digit_of (c : ascii) : option Z :=
  let n := nat_of_ascii c in
  if ((48 <=? n) && (n <=? 57))%nat then Some (Z.of_nat (n - 48)) else None.

Definition hex_of (c : ascii) : option nat :=
  let n := nat_of_ascii c in
  if ((48 <=? n) && (n <=? 57))%nat then Some (n - 48)%nat
  else if ((97 <=? n) && (n <=? 102))%nat then Some (n - 87)%nat
  else if ((65 <=? n) && (n <=? 70))%nat then Some (n - 55)%nat
  else None.

(** Digits after the first one of an integer literal. *)
Fixpoint parse_digits (acc : Z) (s : string) : Z * string :=
  match s with
  | String c rest =>
      match digit_of c with
      | Some d => parse_digits (10 * acc + d) rest
      | None => (acc, s)
      end
  | EmptyString => (acc, s)
  end.

Definition starts_fraction (s : string) : bool :=
  match s with
  | String c _ => (Ascii.eqb c "." || Ascii.eqb c "e" || Ascii.eqb c "E")%char
  | EmptyString => false
  end.

(** An unsigned integer literal: [0] or a digit [1-9] followed by digits. *)
Definition parse_uint (s : string) : option (Z * string) :=
  match s with
  | String c rest =>
      match digit_of c with
      | Some 0 => if starts_fraction rest then None else Some (0, rest)
      | Some d =>
          let (n, rest') := parse_digits d rest in
          if starts_fraction rest' then None else Some (n, rest')
      | None => None
      end
  | EmptyString => None
  end.

(** The characters of a string literal after its opening quote. *)
Fixpoint parse_string_body (s : string) : option (string * string) :=
  match s with
  | EmptyString => None
  | String c rest =>
      if Ascii.eqb c dquote then Some (EmptyString, rest)
      else if Ascii.eqb c "\"%char then
        match rest with
        | String e rest' =>
            let continue (c' : ascii) (tail : string) :=
              match parse_string_body tail with
              | Some (body, after) => Some (String c' body, after)
              | None => None
              end in
            if Ascii.eqb e dquote then continue dquote rest'
            else if Ascii.eqb e "\"%char then continue "\"%char rest'
            else if Ascii.eqb e "/"%char then continue "/"%char rest'
            else if Ascii.eqb e "b"%char then continue (ascii_of_nat 8) rest'
            else if Ascii.eqb e "f"%char then continue (ascii_of_nat 12) rest'
            else if Ascii.eqb e "n"%char then continue (ascii_of_nat 10) rest'
            else if Ascii.eqb e "r"%char then continue (ascii_of_nat 13) rest'
            else if Ascii.eqb e "t"%char then continue (ascii_of_nat 9) rest'
            else if Ascii.eqb e "u"%char then
              match rest' with
              | String h1 (String h2 (String h3 (String h4 tail))) =>
                  match hex_of h1, hex_of h2, hex_of h3, hex_of h4 with
                  | Some 0%nat, Some 0%nat, Some a, Some b =>
                      continue (ascii_of_nat (16 * a + b)) tail
                  | _, _, _, _ => None
                  end
              | _ => None
              end
            else None
        | EmptyString => None
        end
      else if (nat_of_ascii c <? 32)%nat then None
      else
        match parse_string_body rest with
        | Some (body, after) => Some (String c body, after)
        | None => None
        end
  end.

Definition expect (c : ascii) (s : string) : option string :=
  match skip_ws s with
  | String c' rest => if Ascii.eqb c c' then Some rest else None
  | EmptyString => None
  end.

Definition strip_prefix (p s : string) : option string :=
  if String.prefix p s then Some (substring (String.length p) (String.length s - String.length p) s)
  else None.

(** The members of an object after the first key's opening position, and the
    elements of an array; [pv] parses one value. *)
Fixpoint parse_members (pv : string -> option (value * string)) (fuel : nat)
    (acc : list (string * value)) (s : string)
  : option (list (string * value) * string) :=
  match fuel with
  | O => None
  | S fuel' =>
      match expect dquote s with
      | None => None
      | Some s1 =>
          match parse_string_body s1 with
          | None => None
          | Some (k, s2) =>
              match expect ":" s2 with
              | None => None
              | Some s3 =>
                  match pv s3 with
                  | None => None
                  | Some (v, s4) =>
                      match skip_ws s4 with
                      | String c s5 =>
                          if Ascii.eqb c "," then
                            parse_members pv fuel' (prop_set k v acc) s5
                          else if Ascii.eqb c "}" then
                            Some (prop_set k v acc, s5)
                          else None
                      | EmptyString => None
                      end
                  end
              end
          end
      end
  end.

Fixpoint parse_elements (pv : string -> option (value * string)) (fuel : nat)
    (acc : list value) (s : string) : option (list value * string) :=
  match fuel with
  | O => None
  | S fuel' =>
      match pv s with
      | None => None
      | Some (v, s1) =>
          match skip_ws s1 with
          | String c s2 =>
              if Ascii.eqb c "," then parse_elements pv fuel' (acc ++ [v])%list s2
              else if Ascii.eqb c "]" then Some ((acc ++ [v])%list, s2)
              else None
          | EmptyString => None
          end
      end
  end.

Fixpoint parse_value (fuel : nat) (s : string) : option (value * string) :=
  match fuel with
  | O => None
  | S fuel' =>
      match skip_ws s with
      | EmptyString => None
      | String c rest as s0 =>
          if Ascii.eqb c "{" then
            match expect "}" rest with
            | Some after => Some (VObject [], after)
            | None =>
                match parse_members (parse_value fuel') fuel' [] rest with
                | Some (props, after) => Some (VObject props, after)
                | None => None
                end
            end
          else if Ascii.eqb c "[" then
            match expect "]" rest with
            | Some after => Some (VArray [], after)
            | None =>
                match parse_elements (parse_value fuel') fuel' [] rest with
                | Some (items, after) => Some (VArray items, after)
                | None => None
                end
            end
          else if Ascii.eqb c dquote then
            match parse_string_body rest with
            | Some (str, after) => Some (VString str, after)
            | None => None
            end
          else if Ascii.eqb c "-" then
            match parse_uint rest with
            | Some (n, after) => Some (VNumber (- n), after)
            | None => None
            end
          else
            match strip_prefix "true" s0, strip_prefix "false" s0,
                  strip_prefix "null" s0 with
            | Some after, _, _ => Some (VBool true, after)
            | _, Some after, _ => Some (VBool false, after)
            | _, _, Some after => Some (VNull, after)
            | None, None, None =>
                match parse_uint s0 with
                | Some (n, after) => Some (VNumber n, after)
                | None => None
                end
            end
      end
  end.

(** [JSON.parse(text)] *)
Definition JSON_parse (text : string) : outcome value :=
  match parse_value (S (String.length text)) text with
  | Some (v, rest) =>
      match skip_ws rest with
      | EmptyString => Resolved v
      | String _ _ => Rejected SyntaxError
      end
  | None => Rejected SyntaxError
  end.

(** JSON text written with ['] for the double quote. *)
Fixpoint json (s : string) : string :=
  match s with
  | EmptyString => EmptyString
  | String c rest => String (if Ascii.eqb c "'" then dquote else c) (json rest)
  end.

(** ** Arrays and sets of the runtime *)

(** [Array.prototype.sort(compare)].  The sort is stable, so for a
    comparator that orders by a key the result is determined: the elements
    in ascending order, those that compare equal in the order they had.
    Each element is put before the first one that it sorts strictly
    before. *)
Fixpoint sort_insert {A : Type} (cmp : A -> A -> Z) (x : A) (l : list A) : list A :=
  match l with
  | [] => [x]
  | y :: rest =>
      if cmp x y <? 0 then x :: y :: rest else y :: sort_insert cmp x rest
  end.

Definition Array_sort {A : Type} (cmp : A -> A -> Z) (l : list A) : list A :=
  fold_left (fun sorted x => sort_insert cmp x sorted) l [].

(** The order of [sort()] without a comparator, on strings: by code units. *)
Definition compare_strings (a b : string) : Z :=
  match String.compare a b with Lt => -1 | Eq => 0 | Gt => 1 end.

(** [Array.prototype.slice(0, end)]: a negative [end] counts from the end
    of the array. *)
Definition slice0 {A : Type} (l : list A) (end_ : Z) : list A :=
  firstn (Z.to_nat (if end_ <? 0 then Z.of_nat (List.length l) + end_ else end_)) l.

(** [Array.prototype.filter(x => x !== undefined)] on the results of
    lookups. *)
Fixpoint defined {A : Type} (l : list (option A)) : list A :=
  match l with
  | [] => []
  | Some x :: rest => x :: defined rest
  | None :: rest => defined rest
  end.

(** A [Set] of strings, kept as the list of its elements in insertion
    order: [has], [add] and [delete]. *)
Definition set_has (s : list string) (x : string) : bool :=
  existsb (fun y => (y =? x)%string) s.

Definition set_add (s : list string) (x : string) : list string :=
  if set_has s x then s else (s ++ [x])%list.

Definition set_delete (s : list string) (x : string) : list string :=
  filter (fun y => negb (y =? x)%string) s.

(** [{ ...base, ...update }] on property maps. *)
Definition spread_props {V : Type} (base update : list (string * V))
  : list (string * V) :=
  fold_left (fun acc kv => prop_set (fst kv) (snd kv) acc) update base.

End Js.

(* ================================================================== *)
(** * tool-guard.ts *)
(* ================================================================== *)

Module Security.

(** A reference to an array of tool names. *)
Definition aref := nat.

(** [ToolSecurityConfig]; the two lists are arrays held by reference. *)
Record ToolSecurityConfig : Type := {
  enabled : bool;
  validateParams : bool;
  sandboxExecution : bool;
  maxExecutionTime : Z;
  maxConcurrentCalls : Z;
  deniedTools : aref;
  allowedTools : option aref
}.

(** [Partial<ToolSecurityConfig>]: the properties an object literal gives. *)
Record PartialConfig : Type := {
  p_enabled : option bool;
  p_validateParams : option bool;
  p_sandboxExecution : option bool;
  p_maxExecutionTime : option Z;
  p_maxConcurrentCalls : option Z;
  p_deniedTools : option aref;
  p_allowedTools : option aref
}.

(** [{}] *)
Definition empty : PartialConfig :=
  {| p_enabled := None; p_validateParams := None; p_sandboxExecution := None;
     p_maxExecutionTime := None; p_maxConcurrentCalls := None;
     p_deniedTools := None; p_allowedTools := None |}.

(** [{ ...base, ...config }] *)
Definition spread (base : ToolSecurityConfig) (p : PartialConfig)
  : ToolSecurityConfig :=
  {| enabled := match p_enabled p with Some b => b | None => enabled base end;
     validateParams :=
       match p_validateParams p with Some b => b | None => validateParams base end;
     sandboxExecution :=
       match p_sandboxExecution p with Some b => b | None => sandboxExecution base end;
     maxExecutionTime :=
       match p_maxExecutionTime p with Some n => n | None => maxExecutionTime base end;
     maxConcurrentCalls :=
       match p_maxConcurrentCalls p with Some n => n | None => maxConcurrentCalls base end;
     deniedTools :=
       match p_deniedTools p with Some a => a | None => deniedTools base end;
     allowedTools :=
       match p_allowedTools p with Some a => Some a | None => allowedTools base end |}.

End Security.

Module ToolGuard.
Import Js.
Import Security.

(** A reference to a configuration object. *)
Definition oref := nat.

(** The store: configuration objects and string arrays, by reference. *)
Record Heap : Type := {
  objects : list ToolSecurityConfig;
  arrays : list (list string)
}.

(** The array literal of [DEFAULT_CONFIG.deniedTools] is allocated once, when
    the module is loaded. *)
Definition DEFAULT_deniedTools : aref := 0%nat.

Definition DEFAULT_CONFIG : ToolSecurityConfig :=
  {| enabled := true;
     validateParams := true;
     sandboxExecution := false;
     maxExecutionTime := 30000;
     maxConcurrentCalls := 10;
     deniedTools := DEFAULT_deniedTools;
     allowedTools := None |}.

Definition initial_heap : Heap := {| objects := []; arrays := [[]] |}.

Definition array_get (h : Heap) (a : aref) : list string := nth a (arrays h) [].
Definition object_get (h : Heap) (o : oref) : ToolSecurityConfig :=
  nth o (objects h) DEFAULT_CONFIG.

Definition array_set (h : Heap) (a : aref) (l : list string) : Heap :=
  {| objects := objects h; arrays := list_update (arrays h) a l |}.
Definition object_set (h : Heap) (o : oref) (c : ToolSecurityConfig) : Heap :=
  {| objects := list_update (objects h) o c; arrays := arrays h |}.

(** An array literal and an object literal evaluate to fresh references. *)
Definition array_new (h : Heap) (l : list string) : aref * Heap :=
  (List.length (arrays h), {| objects := objects h; arrays := (arrays h ++ [l])%list |}).
Definition object_new (h : Heap) (c : ToolSecurityConfig) : oref * Heap :=
  (List.length (objects h), {| objects := (objects h ++ [c])%list; arrays := arrays h |}).

(** [Array.prototype.includes], [push], [indexOf] and [splice(i, 1)]. *)
Definition includes (l : list string) (x : string) : bool :=
  existsb (fun y => (y =? x)%string) l.
Definition array_push (h : Heap) (a : aref) (x : string) : Heap :=
  array_set h a (array_get h a ++ [x])%list.
Fixpoint indexOf (l : list string) (x : string) : option nat :=
  match l with
  | [] => None
  | y :: rest =>
      if (y =? x)%string then Some O
      else match indexOf rest x with Some i => Some (S i) | None => None end
  end.
Fixpoint remove_at {A : Type} (l : list A) (i : nat) : list A :=
  match l, i with
  | [], _ => []
  | _ :: rest, O => rest
  | y :: rest, S i' => y :: remove_at rest i'
  end.
Definition array_splice1 (h : Heap) (a : aref) (i : nat) : Heap :=
  array_set h a (remove_at (array_get h a) i).

(** [ToolValidationResult<T>] *)
Record ToolValidationResult : Type := {
  success : bool;
  data : option value;
  error : option string;
  violations : option (list string)
}.

(** Calls of the [ToolGuardEvents] handlers. *)
Inductive guard_event : Type :=
| onValidationFailed (toolName message : string)
| onExecutionBlocked (toolName reason : string)
| onPrototypePollution (toolName : string).

(** A Zod schema: [schema.parse(params)] returns the parsed data, throws a
    [ZodError] carrying issues, or throws something else. *)
Record ZodIssue : Type := { path : list string; message : string }.
Inductive parse_result : Type :=
| ParseOk (parsed : value)
| ParseZodError (issues : list ZodIssue)
| ParseThrows (e : Js.error).
Definition ZodSchema := value -> parse_result.

(** The guard object: [this.config] refers to a configuration object. *)
Record t : Type := { config : oref }.

(** [new ToolGuard(config)] *)
Definition new (h : Heap) (p : PartialConfig) : t * Heap :=
  let (o, h') := object_new h (spread DEFAULT_CONFIG p) in
  ({| config := o |}, h').

Definition cfg (h : Heap) (g : t) : ToolSecurityConfig := object_get h (config g).

Definition validateParams (h : Heap) (g : t) (toolName : string) (params : value)
    (schema : ZodSchema) : outcome ToolValidationResult * list guard_event :=
  if negb (enabled (cfg h g)) || negb (Security.validateParams (cfg h g)) then
    (Resolved {| success := true; data := Some params; error := None;
                 violations := None |}, [])
  else
    match schema params with
    | ParseOk d =>
        (Resolved {| success := true; data := Some d; error := None;
                     violations := None |}, [])
    | ParseZodError issues =>
        let violations :=
          map (fun e => join "." (path e) ++ ": " ++ message e) issues in
        let message := "Schema validation failed: " ++ join "; " violations in
        (Resolved {| success := false; data := None;
                     error := Some "Parameter validation failed";
                     violations := Some violations |},
         [onValidationFailed toolName message])
    | ParseThrows e => (Rejected e, [])
    end.

Definition dangerousKeys : list string := ["__proto__"; "constructor"; "prototype"].

(** [hasPrototypePollution(obj, depth)].  The keys of an array and of a
    buffer are their indices. *)
Fixpoint hasPrototypePollution (obj : value) (depth : nat) {struct obj} : bool :=
  if (10 <? depth)%nat then false
  else
    match obj with
    | VObject props =>
        (fix scan (l : list (string * value)) : bool :=
           match l with
           | [] => false
           | (key, v) :: rest =>
               if includes dangerousKeys key then true
               else if typeof_object v && hasPrototypePollution v (S depth)
                    then true
                    else scan rest
           end) props
    | VArray items =>
        (fix scan (l : list value) : bool :=
           match l with
           | [] => false
           | v :: rest =>
               if typeof_object v && hasPrototypePollution v (S depth) then true
               else scan rest
           end) items
    | _ => false
    end.

(** [typeof parsed !== 'object' || parsed === null || Array.isArray(parsed)] *)
Definition not_a_plain_object (parsed : value) : bool :=
  negb (typeof_object parsed)
  || match parsed with VNull | VArray _ => true | _ => false end.

Definition parseToolArguments (h : Heap) (g : t) (toolName jsonString : string)
  : outcome ToolValidationResult * list guard_event :=
  if negb (enabled (cfg h g)) then
    match JSON_parse jsonString with
    | Resolved parsed =>
        (Resolved {| success := true; data := Some parsed; error := None;
                     violations := None |}, [])
    | Rejected e => (Rejected e, [])
    end
  else
    match JSON_parse jsonString with
    | Resolved parsed =>
        if hasPrototypePollution parsed 0 then
          (Resolved {| success := false; data := None;
                       error := Some "Invalid tool arguments: potentially malicious content detected";
                       violations := None |},
           [onPrototypePollution toolName])
        else if not_a_plain_object parsed then
          (Resolved {| success := false; data := None;
                       error := Some "Tool arguments must be a JSON object";
                       violations := None |}, [])
        else
          (Resolved {| success := true; data := Some parsed; error := None;
                       violations := None |}, [])
    | Rejected e =>
        (Resolved {| success := false; data := None;
                     error := Some "Invalid JSON in tool arguments";
                     violations := None |},
         [onValidationFailed toolName ("JSON parsing failed: " ++ err_message e)])
    end.

Definition isToolAllowed (h : Heap) (g : t) (toolName : string)
  : bool * list guard_event :=
  if negb (enabled (cfg h g)) then (true, [])
  else if includes (array_get h (deniedTools (cfg h g))) toolName then
    (false, [onExecutionBlocked toolName "Tool is in deny list"])
  else
    match allowedTools (cfg h g) with
    | Some a =>
        if negb (includes (array_get h a) toolName) then
          (false, [onExecutionBlocked toolName "Tool is not in allow list"])
        else (true, [])
    | None => (true, [])
    end.

(** [getConfig()]: [{ ...this.config }] is a new object with the same
    property values. *)
Definition getConfig (h : Heap) (g : t) : oref * Heap := object_new h (cfg h g).

(** [updateConfig(config)]: [this.config] is replaced by a new object. *)
Definition updateConfig (h : Heap) (g : t) (p : PartialConfig) : t * Heap :=
  let (o, h') := object_new h (spread (cfg h g) p) in
  ({| config := o |}, h').

Definition denyTool (h : Heap) (g : t) (toolName : string) : Heap :=
  if negb (includes (array_get h (deniedTools (cfg h g))) toolName)
  then array_push h (deniedTools (cfg h g)) toolName
  else h.

Definition allowTool (h : Heap) (g : t) (toolName : string) : Heap :=
  match indexOf (array_get h (deniedTools (cfg h g))) toolName with
  | Some index => array_splice1 h (deniedTools (cfg h g)) index
  | None => h
  end.

Definition isEnabled (h : Heap) (g : t) : bool := enabled (cfg h g).

Definition setEnabled (h : Heap) (g : t) (b : bool) : Heap :=
  object_set h (config g)
    {| enabled := b;
       Security.validateParams := Security.validateParams (cfg h g);
       sandboxExecution := sandboxExecution (cfg h g);
       maxExecutionTime := maxExecutionTime (cfg h g);
       maxConcurrentCalls := maxConcurrentCalls (cfg h g);
       deniedTools := deniedTools (cfg h g);
       allowedTools := allowedTools (cfg h g) |}.

(** What a holder of a configuration object can do to it: assign a property,
    or change one of its arrays in place. *)
Inductive mutation : Type :=
| Assign (p : PartialConfig)
| PushDenied (toolName : string)
| SpliceDenied (start : nat).

Definition mutate (h : Heap) (o : oref) (m : mutation) : Heap :=
  match m with
  | Assign p => object_set h o (spread (object_get h o) p)
  | PushDenied x => array_push h (deniedTools (object_get h o)) x
  | SpliceDenied i => array_splice1 h (deniedTools (object_get h o)) i
  end.

End ToolGuard.

(* ================================================================== *)
(** * tools.ts *)
(* ================================================================== *)

Module Tools.
Import Js.

(** The [sandbox] entry that [SandboxedContext] adds to a context. *)
Record SandboxInfo : Type := {
  allowedOperations : list string;
  maxOutputSize : Z;
  executionId : string
}.

(** [ToolContext]: a bag of named values; the [sandbox] entry is kept apart
    because it is not a plain value. *)
Record ToolContext : Type := {
  bag : list (string * value);
  sandbox : option SandboxInfo
}.

(** [{}] *)
Definition empty_context : ToolContext := {| bag := []; sandbox := None |}.

Inductive ToolCost : Type := cheap | moderate | expensive.

(** [Tool], over the state [W] that tools act on.  [execute] stands for
    calling the function and awaiting the promise it returns: it yields the
    settled outcome and the state the tool leaves.  [schema] is the
    optional Zod schema read by [createSecureTool]. *)
Record Tool (W : Type) : Type := {
  name : string;
  description : string;
  parameters : value;
  execute : value -> option ToolContext -> W -> outcome value * W;
  category : option string;
  cost : option ToolCost;
  schema : option ToolGuard.ZodSchema
}.
Arguments name {W} _.
Arguments description {W} _.
Arguments parameters {W} _.
Arguments execute {W} _ _ _ _.
Arguments category {W} _.
Arguments cost {W} _.
Arguments schema {W} _.

(** The usage counters that the registry keeps for one tool. *)
Record UsageEntry : Type := {
  calls : Z;
  failures : Z;
  totalDuration : Z
}.

(** [ToolUsageStats], as [getUsageStats] reports them.  The two quotients
    are kept exact. *)
Record ToolUsageStats : Type := {
  u_calls : Z;
  u_failures : Z;
  successRate : Q;
  averageDuration : option Q
}.

End Tools.

Module ToolRegistry.
Import Js.
Import Tools.

Section World.

(** The state that tools act on, and its clock ([Date.now()]). *)
Context {W : Type}.
Variable Date_now : W -> Z.

(** The registry object. *)
Record t : Type := {
  tools : list (string * Tool W);
  context : ToolContext;
  usageStats : list (string * UsageEntry)
}.

(** [ToolRegistry.create(context)] *)
Definition create (context : ToolContext) : t :=
  {| tools := []; context := context; usageStats := [] |}.

(** [register(tool)].  [ToolSchema.parse] refuses an empty name or
    description; the Zod text that ends the message is not modelled. *)
Definition register (r : t) (tool : Tool W) : outcome t :=
  if ((name tool =? EmptyString) || (description tool =? EmptyString))%string then
    Rejected (Error ("Invalid tool definition for " ++ in_quotes (name tool) ++ ": ZodError"))
  else
    Resolved {| tools := prop_set (name tool) tool (tools r);
                context := context r;
                usageStats :=
                  prop_set (name tool)
                    {| calls := 0; failures := 0; totalDuration := 0 |}
                    (usageStats r) |}.

Definition get (r : t) (name : string) : option (Tool W) :=
  prop_get name (tools r).

Definition has (r : t) (name : string) : bool :=
  match prop_get name (tools r) with Some _ => true | None => false end.

Definition count (r : t) : nat := List.length (tools r).

(** The registry after the counters of [name] have been changed. *)
Definition with_stats (r : t) (name : string) (e : UsageEntry) : t :=
  {| tools := tools r; context := context r;
     usageStats := prop_set name e (usageStats r) |}.

(** [execute(name, params)] *)
Definition execute (r : t) (name : string) (params : value) (w : W)
  : outcome value * t * W :=
  match prop_get name (tools r) with
  | None => (Rejected (Error ("Tool " ++ in_quotes name ++ " not found")), r, w)
  | Some tool =>
      let startTime := Date_now w in
      match prop_get name (usageStats r) with
      | None =>
          (Rejected (TypeError "Cannot read properties of undefined (reading 'calls')"),
           r, w)
      | Some stats =>
          (* stats.calls++ *)
          let stats1 := {| calls := calls stats + 1; failures := failures stats;
                           totalDuration := totalDuration stats |} in
          match Tools.execute tool params (Some (context r)) w with
          | (Resolved result, w') =>
              let duration := Date_now w' - startTime in
              (* stats.totalDuration += duration *)
              let stats2 := {| calls := calls stats1; failures := failures stats1;
                               totalDuration := totalDuration stats1 + duration |} in
              (Resolved result, with_stats r name stats2, w')
          | (Rejected error, w') =>
              (* stats.failures++ *)
              let stats2 := {| calls := calls stats1;
                               failures := failures stats1 + 1;
                               totalDuration := totalDuration stats1 |} in
              (Rejected error, with_stats r name stats2, w')
          end
      end
  end.

(** The value pushed for one call of the batch: the result, or
    [{ error: String(error) }]. *)
Definition batch_slot (o : outcome value) : value :=
  match o with
  | Resolved result => result
  | Rejected error => VObject [("error", VString (String_ error))]
  end.

(** The [for] loop of [executeBatch], with the array [results] built so far. *)
Fixpoint executeBatch_loop (r : t) (calls : list (string * value))
    (results : list value) (w : W) : list value * t * W :=
  match calls with
  | [] => (results, r, w)
  | call :: rest =>
      let '(o, r', w') := execute r (fst call) (snd call) w in
      executeBatch_loop r' rest (results ++ [batch_slot o])%list w'
  end.

(** [executeBatch(calls)] *)
Definition executeBatch (r : t) (calls : list (string * value)) (w : W)
  : list value * t * W :=
  executeBatch_loop r calls [] w.

(** [clear()], [unregister(name)], [resetStats()] *)
Definition clear (r : t) : t :=
  {| tools := []; context := context r; usageStats := [] |}.

Definition unregister (r : t) (name : string) : bool * t :=
  if has r name then
    (true, {| tools := map_delete name (tools r); context := context r;
              usageStats := map_delete name (usageStats r) |})
  else (false, r).

Definition resetStats (r : t) : t :=
  {| tools := tools r; context := context r;
     usageStats :=
       map (fun kv => (fst kv, {| calls := 0; failures := 0; totalDuration := 0 |}))
         (usageStats r) |}.

(** [registerAll(tools)]: [forEach] runs [register] on each tool in turn; a
    tool that [register] refuses ends the loop with its error, and what was
    registered before it stays registered. *)
Fixpoint registerAll (r : t) (l : list (Tool W)) : option error * t :=
  match l with
  | [] => (None, r)
  | tool :: rest =>
      match register r tool with
      | Resolved r' => registerAll r' rest
      | Rejected e => (Some e, r)
      end
  end.

(** [getAll()], [getByCategory(category)] *)
Definition getAll (r : t) : list (Tool W) := map snd (tools r).

Definition getByCategory (r : t) (c : string) : list (Tool W) :=
  filter (fun tool =>
            match category tool with
            | Some c' => (c' =? c)%string
            | None => false
            end)
    (getAll r).

(** [getCategories()]: the categories that are truthy, collected in a
    [Set], then sorted. *)
Definition getCategories (r : t) : list string :=
  let categories :=
    fold_left (fun acc tool =>
                 match category tool with
                 | Some c => if (c =? EmptyString)%string then acc else set_add acc c
                 | None => acc
                 end)
      (getAll r) [] in
  Array_sort compare_strings categories.

(** [getUsageStats()] *)
Definition usage (rawStats : UsageEntry) : ToolUsageStats :=
  {| u_calls := calls rawStats;
     u_failures := failures rawStats;
     successRate :=
       if calls rawStats >? 0
       then (inject_Z (calls rawStats - failures rawStats)
             / inject_Z (calls rawStats))%Q
       else 0%Q;
     averageDuration :=
       if calls rawStats >? 0
       then Some (inject_Z (totalDuration rawStats) / inject_Z (calls rawStats))%Q
       else None |}.

Definition getUsageStats (r : t) : list (string * ToolUsageStats) :=
  fold_left (fun stats kv => prop_set (fst kv) (usage (snd kv)) stats)
    (usageStats r) [].

(** [getMostUsed(limit = 5)] *)
Definition getMostUsed (r : t) (limit : option Z) : list (Tool W) :=
  let limit := match limit with Some n => n | None => 5 end in
  let sorted :=
    slice0 (Array_sort (fun a b => calls (snd b) - calls (snd a)) (usageStats r))
      limit in
  defined (map (fun entry => prop_get (fst entry) (tools r)) sorted).

(** [updateContext(context)], [getContext()] *)
Definition spread_context (base update : ToolContext) : ToolContext :=
  {| bag := spread_props (bag base) (bag update);
     sandbox := match sandbox update with
                | Some info => Some info
                | None => sandbox base
                end |}.

Definition updateContext (r : t) (c : ToolContext) : t :=
  {| tools := tools r; context := spread_context (context r) c;
     usageStats := usageStats r |}.

Definition getContext (r : t) : ToolContext := context r.

(** ** The registry in use

    A caller's sequence of method calls, each run to its end before the
    next; an exception of [register] or [execute] is caught by the
    caller. *)
Inductive operation : Type :=
| Register (tool : Tool W)
| RegisterAll (l : list (Tool W))
| Execute (name : string) (params : value)
| ExecuteBatch (calls : list (string * value))
| Unregister (name : string)
| Clear
| ResetStats
| UpdateContext (c : ToolContext).

Definition perform (rw : t * W) (o : operation) : t * W :=
  let (r, w) := rw in
  match o with
  | Register tool =>
      (match register r tool with Resolved r' => r' | Rejected _ => r end, w)
  | RegisterAll l => (snd (registerAll r l), w)
  | Execute name params =>
      let '(_, r', w') := execute r name params w in (r', w')
  | ExecuteBatch calls =>
      let '(_, r', w') := executeBatch r calls w in (r', w')
  | Unregister name => (snd (unregister r name), w)
  | Clear => (clear r, w)
  | ResetStats => (resetStats r, w)
  | UpdateContext c => (updateContext r c, w)
  end.

Definition after (r : t) (w : W) (ops : list operation) : t * W :=
  fold_left perform ops (r, w).

End World.

Arguments t W : clear implicits.

End ToolRegistry.

(* ================================================================== *)
(** * tool-sandbox.ts *)
(* ================================================================== *)

Module ToolSandbox.
Import Js.
Import Tools.

(** [Partial<SandboxOptions>]; a hook is a callback supplied by the caller,
    recorded here by its presence. *)
Record SandboxOptions : Type := {
  o_maxExecutionTime : option Z;
  o_maxOutputSize : option Z;
  o_allowedOperations : option (list string);
  o_onBeforeExecution : bool;
  o_onAfterExecution : bool
}.

Definition no_options : SandboxOptions :=
  {| o_maxExecutionTime := None; o_maxOutputSize := None;
     o_allowedOperations := None; o_onBeforeExecution := false;
     o_onAfterExecution := false |}.

(** Calls of the [ToolSandboxEvents] handlers. *)
Inductive sandbox_event : Type :=
| onConcurrencyExceeded (toolName : string) (activeCount : Z)
| onTimeout (toolName : string) (timeoutMs : Z)
| onOutputSizeExceeded (toolName : string) (size maxSize : Z)
| onCancelled (executionId : string).

(** What the sandbox does to its surroundings, in order. *)
Inductive effect : Type :=
| Event (e : sandbox_event)
| ToolCalled (toolName : string) (params : value) (context : ToolContext)
| BeforeHookCalled (toolName : string) (params : value)
| AfterHookCalled (toolName : string) (result : value) (error : option error).

(** The timer of [executeWithTimeout]. *)
Inductive timer_state : Type := NotSet | Armed | Cleared | Fired.

(** Where the body of [execute] stands for one invocation: at one of its
    [await]s, or finished. *)
Inductive phase : Type :=
| AwaitBefore
| Racing
| AwaitAfter (result : value)
| AwaitAfterError (e : error)
| Done (o : outcome value).

(** One invocation of [execute] that passed the concurrency gate, with its
    [AbortController] and the promise made by [executeWithTimeout]. *)
Record Execution : Type := {
  x_id : string;
  x_toolName : string;
  x_params : value;
  x_context : ToolContext;
  x_maxOutputSize : Z;
  x_timeoutMs : Z;
  x_onBefore : bool;
  x_onAfter : bool;
  x_phase : phase;
  x_aborted : bool;
  x_timer : timer_state;
  x_listener : bool;
  x_toolPending : bool;
  x_promise : option (outcome value)
}.

(** The sandbox object.  [activeExecutions] maps an execution id to the
    invocation that owns the controller; [executions] holds the invocations
    of [execute] that have passed the gate, in the order of their calls,
    and [log] what the sandbox has done so far. *)
Record t : Type := {
  config : Security.ToolSecurityConfig;
  activeExecutions : list (string * nat);
  executionCount : nat;
  executions : list Execution;
  log : list effect
}.

(** The defaults written in the constructor. *)
Definition DEFAULT_CONFIG : Security.ToolSecurityConfig :=
  {| Security.enabled := true;
     Security.validateParams := true;
     Security.sandboxExecution := true;
     Security.maxExecutionTime := 30000;
     Security.maxConcurrentCalls := 10;
     Security.deniedTools := ToolGuard.DEFAULT_deniedTools;
     Security.allowedTools := None |}.

(** [new ToolSandbox(config)] *)
Definition new (p : Security.PartialConfig) : t :=
  {| config := Security.spread DEFAULT_CONFIG p;
     activeExecutions := [];
     executionCount := 0;
     executions := [];
     log := [] |}.

(** ** Field updates *)

Definition set_phase (x : Execution) (p : phase) : Execution :=
  {| x_id := x_id x; x_toolName := x_toolName x; x_params := x_params x;
     x_context := x_context x; x_maxOutputSize := x_maxOutputSize x;
     x_timeoutMs := x_timeoutMs x; x_onBefore := x_onBefore x;
     x_onAfter := x_onAfter x; x_phase := p; x_aborted := x_aborted x;
     x_timer := x_timer x; x_listener := x_listener x;
     x_toolPending := x_toolPending x; x_promise := x_promise x |}.

(** The part of an invocation that the race of [executeWithTimeout] and the
    controller change. *)
Definition set_race (x : Execution) (aborted : bool) (timer : timer_state)
    (listener toolPending : bool) (promise : option (outcome value)) : Execution :=
  {| x_id := x_id x; x_toolName := x_toolName x; x_params := x_params x;
     x_context := x_context x; x_maxOutputSize := x_maxOutputSize x;
     x_timeoutMs := x_timeoutMs x; x_onBefore := x_onBefore x;
     x_onAfter := x_onAfter x; x_phase := x_phase x; x_aborted := aborted;
     x_timer := timer; x_listener := listener;
     x_toolPending := toolPending; x_promise := promise |}.

Definition with_state (s : t) (active : list (string * nat))
    (xs : list Execution) (l : list effect) : t :=
  {| config := config s; activeExecutions := active;
     executionCount := executionCount s; executions := xs; log := l |}.

Definition emit (s : t) (l : list effect) : t :=
  with_state s (activeExecutions s) (executions s) (log s ++ l)%list.

Definition put (s : t) (i : nat) (x : Execution) : t :=
  with_state s (activeExecutions s) (list_update (executions s) i x) (log s).

Definition delete_active (s : t) (id : string) : t :=
  with_state s (map_delete id (activeExecutions s)) (executions s) (log s).

(** ** The pieces of [executeWithTimeout] *)

(** [resolve] and [reject] settle a promise once; later calls do nothing. *)
Definition settle (p : option (outcome value)) (o : outcome value)
  : option (outcome value) :=
  match p with Some first => Some first | None => Some o end.

(** [clearTimeout(timeoutId)] *)
Definition clearTimeout (tm : timer_state) : timer_state :=
  match tm with Armed => Cleared | other => other end.

Definition timeout_error (timeoutMs : Z) : error :=
  Error ("Tool execution timed out after " ++ dec timeoutMs ++ "ms").
Definition cancelled_error : error := Error "Tool execution was cancelled".
Definition concurrency_error : error := Error "Too many concurrent tool executions".
Definition size_error : error := Error "Tool output exceeded maximum size limit".

(** The timer callback. *)
Definition on_timeout (x : Execution) : Execution * list effect :=
  (set_race x (x_aborted x) Fired (x_listener x) (x_toolPending x)
     (settle (x_promise x) (Rejected (timeout_error (x_timeoutMs x)))),
   [Event (onTimeout (x_toolName x) (x_timeoutMs x))]).

(** [abortHandler], registered with [{ once: true }]. *)
Definition abortHandler (x : Execution) : Execution :=
  set_race x (x_aborted x) (clearTimeout (x_timer x)) false (x_toolPending x)
    (settle (x_promise x) (Rejected cancelled_error)).

(** [controller.abort()]: the first call marks the signal and dispatches
    [abort] to the listener, if one is registered. *)
Definition abort (x : Execution) : Execution :=
  if x_aborted x then x
  else
    let x' := set_race x true (x_timer x) (x_listener x) (x_toolPending x)
                (x_promise x) in
    if x_listener x then abortHandler x' else x'.

(** The [then] and [catch] callbacks on the promise of the tool. *)
Definition on_settle (x : Execution) (o : outcome value) : Execution :=
  set_race x (x_aborted x) (clearTimeout (x_timer x)) false false
    (settle (x_promise x) o).

(** The executor of [executeWithTimeout]: arm the timer, listen for
    [abort], call the tool. *)
Definition executeWithTimeout_start (x : Execution) : Execution * list effect :=
  (set_phase (set_race x (x_aborted x) Armed true true None) Racing,
   [ToolCalled (x_toolName x) (x_params x) (x_context x)]).

(** ** estimateSize *)

Definition estimateSize (v : value) : Z :=
  match v with
  | VNull | VUndefined => 0
  | VString s => Z.of_nat (String.length s) * 2
  | VNumber _ => 8
  | VBool _ => 4
  | VBuffer bytes => Z.of_nat (List.length bytes)
  | _ =>
      match JSON_stringify v with
      | Some text => Z.of_nat (String.length text) * 2
      | None => 0
      end
  end.

(** [a || b] on numbers. *)
Definition or_else (a : option Z) (b : Z) : Z :=
  match a with
  | Some n => if n =? 0 then b else n
  | None => b
  end.

(** ** execute, one piece per stretch between two [await]s *)

(** [`exec-${++this.executionCount}-${Date.now()}`] *)
Definition make_id (count : nat) (now : Z) : string :=
  "exec-" ++ dec_nat count ++ "-" ++ dec now.

Inductive entry : Type :=
| Bypassed
| Refused (e : error)
| Started (i : nat).

(** The [catch] block up to its [await]. *)
Definition enter_catch (x : Execution) (e : error) : Execution * list effect :=
  (set_phase x (AwaitAfterError e),
   if x_onAfter x then [AfterHookCalled (x_toolName x) VUndefined (Some e)] else []).

(** The [finally] block. *)
Definition finish (s : t) (i : nat) (x : Execution) (o : outcome value) : t :=
  delete_active (put s i (set_phase x (Done o))) (x_id x).

(** The invocation that [execute] sets up once the gate is passed: its
    id, its context and its limits. *)
Definition new_execution (s : t) (toolName : string) (params : value)
    (baseContext : ToolContext) (options : SandboxOptions) (now : Z) : Execution :=
  let executionId := make_id (S (executionCount s)) now in
  let maxOut := or_else (o_maxOutputSize options) (1024 * 1024) in
  let sandboxedContext :=
    {| bag := bag baseContext;
       sandbox := Some {| allowedOperations :=
                            match o_allowedOperations options with
                            | Some ops => nodup string_dec ops
                            | None => []
                            end;
                          maxOutputSize := maxOut;
                          executionId := executionId |} |} in
  {| x_id := executionId; x_toolName := toolName; x_params := params;
     x_context := sandboxedContext; x_maxOutputSize := maxOut;
     x_timeoutMs :=
       or_else (o_maxExecutionTime options) (Security.maxExecutionTime (config s));
     x_onBefore := o_onBeforeExecution options;
     x_onAfter := o_onAfterExecution options;
     x_phase := AwaitBefore; x_aborted := false; x_timer := NotSet;
     x_listener := false; x_toolPending := false; x_promise := None |}.

(** From the call to the first [await]. *)
Definition execute_enter (s : t) (toolName : string) (params : value)
    (baseContext : ToolContext) (options : SandboxOptions) (now : Z) : t * entry :=
  if negb (Security.enabled (config s)) || negb (Security.sandboxExecution (config s))
  then (emit s [ToolCalled toolName params baseContext], Bypassed)
  else if Z.of_nat (List.length (activeExecutions s))
          >=? Security.maxConcurrentCalls (config s)
  then (emit s [Event (onConcurrencyExceeded toolName
                         (Z.of_nat (List.length (activeExecutions s))))],
        Refused concurrency_error)
  else
    let x := new_execution s toolName params baseContext options now in
    let i := List.length (executions s) in
    ({| config := config s;
        activeExecutions := prop_set (x_id x) i (activeExecutions s);
        executionCount := S (executionCount s);
        executions := (executions s ++ [x])%list;
        log := (log s ++ if o_onBeforeExecution options
                         then [BeforeHookCalled toolName params] else [])%list |},
     Started i).

(** After [await options.onBeforeExecution?.(tool, params)]. *)
Definition after_before (s : t) (i : nat) (r : outcome unit) : t :=
  match nth_error (executions s) i with
  | Some x =>
      match x_phase x with
      | AwaitBefore =>
          match (if x_onBefore x then r else Resolved tt) with
          | Resolved _ =>
              let (x', l) := executeWithTimeout_start x in emit (put s i x') l
          | Rejected e => let (x', l) := enter_catch x e in emit (put s i x') l
          end
      | _ => s
      end
  | None => s
  end.

(** The promise of the tool settles. *)
Definition tool_settles (s : t) (i : nat) (o : outcome value) : t :=
  match nth_error (executions s) i with
  | Some x => if x_toolPending x then put s i (on_settle x o) else s
  | None => s
  end.

(** The timer runs out. *)
Definition timer_fires (s : t) (i : nat) : t :=
  match nth_error (executions s) i with
  | Some x =>
      match x_timer x with
      | Armed => let (x', l) := on_timeout x in emit (put s i x') l
      | _ => s
      end
  | None => s
  end.

(** After [await this.executeWithTimeout(...)], up to the next [await]. *)
Definition resumes (s : t) (i : nat) : t :=
  match nth_error (executions s) i with
  | Some x =>
      match x_phase x, x_promise x with
      | Racing, Some (Resolved result) =>
          let outputSize := estimateSize result in
          if outputSize >? x_maxOutputSize x then
            let (x', l) := enter_catch x size_error in
            emit (put s i x')
              (Event (onOutputSizeExceeded (x_toolName x) outputSize
                        (x_maxOutputSize x)) :: l)
          else
            emit (put s i (set_phase x (AwaitAfter result)))
              (if x_onAfter x then [AfterHookCalled (x_toolName x) result None]
               else [])
      | Racing, Some (Rejected e) =>
          let (x', l) := enter_catch x e in emit (put s i x') l
      | _, _ => s
      end
  | None => s
  end.

(** After an [await options.onAfterExecution?.(...)]. *)
Definition after_after (s : t) (i : nat) (r : outcome unit) : t :=
  match nth_error (executions s) i with
  | Some x =>
      let r' := if x_onAfter x then r else Resolved tt in
      match x_phase x, r' with
      | AwaitAfter result, Resolved _ => finish s i x (Resolved result)
      | AwaitAfter result, Rejected e =>
          let (x', l) := enter_catch x e in emit (put s i x') l
      | AwaitAfterError e, Resolved _ => finish s i x (Rejected e)
      | AwaitAfterError _, Rejected e' => finish s i x (Rejected e')
      | _, _ => s
      end
  | None => s
  end.

(** ** cancel, cancelAll and the getters *)

(** [controller.abort()] on the controller of invocation [i]. *)
Definition abort_at (s : t) (i : nat) : t :=
  match nth_error (executions s) i with
  | Some x => put s i (abort x)
  | None => s
  end.

(** [cancel(executionId)] *)
Definition cancel (s : t) (executionId : string) : bool * t :=
  match prop_get executionId (activeExecutions s) with
  | Some controller =>
      (true,
       emit (delete_active (abort_at s controller) executionId)
         [Event (onCancelled executionId)])
  | None => (false, s)
  end.

(** [cancelAll()]: the loop over the entries, then [clear()]. *)
Definition cancelAll (s : t) : t :=
  let s' :=
    fold_left (fun acc entry =>
                 emit (abort_at acc (snd entry)) [Event (onCancelled (fst entry))])
      (activeExecutions s) s in
  with_state s' [] (executions s') (log s').

Definition getActiveCount (s : t) : nat := List.length (activeExecutions s).

Definition getActiveExecutionIds (s : t) : list string :=
  map fst (activeExecutions s).

Definition isEnabled (s : t) : bool :=
  Security.enabled (config s) && Security.sandboxExecution (config s).

Definition updateConfig (s : t) (p : Security.PartialConfig) : t :=
  {| config := Security.spread (config s) p;
     activeExecutions := activeExecutions s;
     executionCount := executionCount s;
     executions := executions s;
     log := log s |}.

(** ** The sandbox among interleaved tasks *)

(** What can happen next: a call of a method, or the continuation of a
    suspended invocation. *)
Inductive step_label : Type :=
| Execute (toolName : string) (params : value) (baseContext : ToolContext)
    (options : SandboxOptions) (now : Z)
| BeforeHookReturns (i : nat) (r : outcome unit)
| ToolSettles (i : nat) (o : outcome value)
| TimerFires (i : nat)
| Resumes (i : nat)
| AfterHookReturns (i : nat) (r : outcome unit)
| CancelCalled (executionId : string)
| CancelAllCalled
| UpdateConfigCalled (p : Security.PartialConfig).

Definition step (s : t) (l : step_label) : t :=
  match l with
  | Execute toolName params baseContext options now =>
      fst (execute_enter s toolName params baseContext options now)
  | BeforeHookReturns i r => after_before s i r
  | ToolSettles i o => tool_settles s i o
  | TimerFires i => timer_fires s i
  | Resumes i => resumes s i
  | AfterHookReturns i r => after_after s i r
  | CancelCalled id => snd (cancel s id)
  | CancelAllCalled => cancelAll s
  | UpdateConfigCalled p => updateConfig s p
  end.

Definition run (s : t) (ls : list step_label) : t := fold_left step ls s.

(** The settled state of the promise returned by [execute] for invocation
    [i], if it has settled. *)
Definition result_of (s : t) (i : nat) : option (outcome value) :=
  match nth_error (executions s) i with
  | Some x => match x_phase x with Done o => Some o | _ => None end
  | None => None
  end.

(** ** One invocation run on its own

    [execute] read from its first line to its last for an invocation during
    which no other task touches the sandbox.  The tool acts on a state of
    its own ([T]); what the surroundings decide is given in advance: what
    each hook does and which of the tool, the timer and a call of [cancel]
    comes first. *)

Inductive first_event : Type := ToolFirst | TimerFirst | CancelFirst.

Record Schedule : Type := {
  before_hook : outcome unit;
  first : first_event;
  after_hook : outcome unit;
  after_hook_in_catch : outcome unit
}.

Definition quiet : Schedule :=
  {| before_hook := Resolved tt; first := ToolFirst;
     after_hook := Resolved tt; after_hook_in_catch := Resolved tt |}.

Section Alone.

Context {T : Type}.
Variable now : T -> Z.

(** Everything the secured execution path reads and writes. *)
Record World : Type := {
  user : T;
  heap : ToolGuard.Heap;
  guard_log : list ToolGuard.guard_event;
  sandbox_ : t
}.

Definition Date_now (w : World) : Z := now (user w).

Definition with_sandbox (w : World) (s : t) : World :=
  {| user := user w; heap := heap w; guard_log := guard_log w; sandbox_ := s |}.
Definition with_user (w : World) (u : T) : World :=
  {| user := u; heap := heap w; guard_log := guard_log w; sandbox_ := sandbox_ w |}.
Definition guard_emit (w : World) (l : list ToolGuard.guard_event) : World :=
  {| user := user w; heap := heap w; guard_log := (guard_log w ++ l)%list;
     sandbox_ := sandbox_ w |}.

(** The race of [executeWithTimeout] for invocation [i], decided by
    [first]; the tool settles with [o] in every case, first or not. *)
Definition race (s : t) (i : nat) (id : string) (f : first_event)
    (o : outcome value) : t :=
  match f with
  | ToolFirst => tool_settles s i o
  | TimerFirst => tool_settles (timer_fires s i) i o
  | CancelFirst => tool_settles (snd (cancel s id)) i o
  end.

(** [sandbox.execute(tool, params, baseContext, options)], awaited. *)
Definition execute (sch : Schedule) (tool : Tool T) (params : value)
    (baseContext : ToolContext) (options : SandboxOptions) (w : World)
  : outcome value * World :=
  match execute_enter (sandbox_ w) (name tool) params baseContext options
          (Date_now w) with
  | (s1, Bypassed) =>
      let (o, u) := Tools.execute tool params (Some baseContext) (user w) in
      (o, with_user (with_sandbox w s1) u)
  | (s1, Refused e) => (Rejected e, with_sandbox w s1)
  | (s1, Started i) =>
      let s2 := after_before s1 i (before_hook sch) in
      let w3 :=
        match nth_error (executions s2) i with
        | Some x =>
            match x_phase x with
            | Racing =>
                let (o, u) :=
                  Tools.execute tool params (Some (x_context x)) (user w) in
                with_user
                  (with_sandbox w (resumes (race s2 i (x_id x) (first sch) o) i)) u
            | _ => with_sandbox w s2
            end
        | None => with_sandbox w s2
        end in
      let s4 := after_after (sandbox_ w3) i (after_hook sch) in
      let s5 := after_after s4 i (after_hook_in_catch sch) in
      (match result_of s5 i with
       | Some o => o
       | None => Rejected cancelled_error
       end,
       with_sandbox w3 s5)
  end.

(** ** createSecureTool

    [sandbox] is given by its [execute] method. *)
Definition createSecureTool (tool : Tool T)
    (sandbox_execute :
       Tool T -> value -> ToolContext -> World -> outcome value * World)
    (guard : ToolGuard.t) : Tool World :=
  {| name := name tool;
     description := description tool;
     parameters := parameters tool;
     category := category tool;
     cost := cost tool;
     schema := schema tool;
     Tools.execute := fun params context w =>
       let (allowed, blocked) := ToolGuard.isToolAllowed (heap w) guard (name tool) in
       let w1 := guard_emit w blocked in
       if negb allowed then
         (Rejected (Error ("Tool " ++ in_quotes (name tool) ++ " is not allowed")), w1)
       else
         let context' := match context with Some c => c | None => empty_context end in
         match schema tool with
         | Some sch =>
             match ToolGuard.validateParams (heap w1) guard (name tool) params sch with
             | (Rejected e, l) => (Rejected e, guard_emit w1 l)
             | (Resolved validation, l) =>
                 if negb (ToolGuard.success validation) then
                   (Rejected
                      (Error ("Validation failed: "
                              ++ match ToolGuard.error validation with
                                 | Some text => text
                                 | None => "undefined"
                                 end)),
                    guard_emit w1 l)
                 else
                   sandbox_execute tool
                     (match ToolGuard.data validation with
                      | Some d => d
                      | None => VUndefined
                      end)
                     context' (guard_emit w1 l)
             end
         | None => sandbox_execute tool params context' w1
         end |}.

End Alone.

Arguments World T : clear implicits.

End ToolSandbox.

(* ================================================================== *)
(** * logger.ts *)
(* ================================================================== *)

Module Logger.
Import Js.

Definition LIBRARY_NAME : string := "agentic".

(** The six methods that [wrapLogger] requires. *)
Inductive level : Type := debug | info | warn | error | verbose | silly.

Definition level_name (l : level) : string :=
  match l with
  | debug => "debug" | info => "info" | warn => "warn"
  | error => "error" | verbose => "verbose" | silly => "silly"
  end.

Definition requiredMethods : list level := [debug; info; warn; error; verbose; silly].

Section Sink.

(** What the methods of a logger act on. *)
Context {W : Type}.

(** A [Logger] as [wrapLogger] receives it: each method is a function, or
    is not there. *)
Record Logger : Type := {
  name : string;
  method : level -> option (string -> list value -> W -> W)
}.

(** The object that [wrapLogger] returns: its methods are closures over
    [toWrap] and [name]. *)
Record Wrapped : Type := {
  toWrap : Logger;
  given_name : option string
}.

(** A string used as a condition: [undefined] and [''] are falsy. *)
Definition truthy (s : option string) : bool :=
  match s with
  | Some text => negb (text =? EmptyString)%string
  | None => false
  end.

Definition text_of (s : option string) : string :=
  match s with Some text => text | None => EmptyString end.

Definition missingMethods (l : Logger) : list level :=
  filter (fun m => match method l m with Some _ => false | None => true end)
    requiredMethods.

(** [wrapLogger(toWrap, name)] *)
Definition wrapLogger (l : Logger) (name : option string) : outcome Wrapped :=
  match missingMethods l with
  | [] => Resolved {| toWrap := l; given_name := name |}
  | missing =>
      Rejected (Error ("Logger is missing required methods: "
                       ++ join ", " (map level_name missing)))
  end.

(** The [name] property of the wrapper: [name || 'wrapped']. *)
Definition wrapped_name (lg : Wrapped) : string :=
  if truthy (given_name lg) then text_of (given_name lg) else "wrapped".

(** The message that [log] hands on:
    [`[${LIBRARY_NAME}] ${name ? `[${name}]` : ''}: ${message}`]. *)
Definition prefixed (name : option string) (message : string) : string :=
  "[" ++ LIBRARY_NAME ++ "] "
  ++ (if truthy name then "[" ++ text_of name ++ "]" else EmptyString)
  ++ ": " ++ message.

(** A call of one of the six methods of the wrapper. *)
Definition log (lg : Wrapped) (l : level) (message : string) (args : list value)
    (w : W) : outcome unit * W :=
  match method (toWrap lg) l with
  | Some f => (Resolved tt, f (prefixed (given_name lg) message) args w)
  | None =>
      (Rejected (TypeError ("toWrap." ++ level_name l ++ " is not a function")), w)
  end.

(** [get(...components)] of the wrapper. *)
Definition get (lg : Wrapped) (components : list string) : outcome Wrapped :=
  wrapLogger (toWrap lg)
    (Some (if truthy (given_name lg)
           then text_of (given_name lg) ++ ":" ++ join ":" components
           else join ":" components)).

(** [lg.get(...c1).get(...c2)] and so on. *)
Fixpoint descend (lg : Wrapped) (path : list (list string)) : outcome Wrapped :=
  match path with
  | [] => Resolved lg
  | components :: rest =>
      match get lg components with
      | Resolved child => descend child rest
      | Rejected e => Rejected e
      end
  end.

End Sink.

Arguments Logger W : clear implicits.
Arguments Wrapped W : clear implicits.

End Logger.

(* ================================================================== *)
(** * context-manager.ts *)
(* ================================================================== *)

Module ContextManager.
Import Js.

Inductive Priority : Type := high | medium | low.

Definition priority_name (p : Priority) : string :=
  match p with high => "high" | medium => "medium" | low => "low" end.

(** [DynamicContentItem]; a [Date] is held as its time value. *)
Record DynamicContentItem : Type := {
  content : string;
  title : option string;
  weight : option Z;
  id : option string;
  category : option string;
  source : option string;
  priority : option Priority;
  timestamp : option Z
}.

(** [TrackedContextItem], as [track] builds it: [{ ...item, id, hash,
    position, injectedAt, timestamp, priority }]. *)
Record TrackedContextItem : Type := {
  item : DynamicContentItem;
  t_id : string;
  hash : string;
  position : Z;
  injectedAt : Z;
  t_timestamp : Z;
  t_priority : Priority
}.

(** What one call of [track] reads from its surroundings, in the order of
    the reads: the clock and the random digits of [generateId], then the
    clock for [injectedAt] and for [timestamp]. *)
Record Readings : Type := {
  now_for_id : Z;
  random_digits : string;
  now_injected : Z;
  now_timestamp : Z
}.

(** [ContextStats] *)
Record ContextStats : Type := {
  totalItems : nat;
  byCategory : list (string * Z);
  byPriority : list (string * Z);
  bySource : list (string * Z);
  oldestTimestamp : option Z;
  newestTimestamp : option Z
}.

Section Hash.

(** [hashContent]: the first 32 hexadecimal digits of the SHA-256 digest;
    only that it is a function of the content is used. *)
Variable hashContent : string -> string.

(** The manager: the [Map] of items and the [Set] of hashes. *)
Record t : Type := {
  items : list (string * TrackedContextItem);
  hashes : list string
}.

Definition new : t := {| items := []; hashes := [] |}.

(** [`ctx-${Date.now()}-${Math.random().toString(36).substring(2, 9)}`] *)
Definition generateId (r : Readings) : string :=
  "ctx-" ++ dec (now_for_id r) ++ "-" ++ random_digits r.

(** [item.id] as a condition: [undefined] and [''] are falsy. *)
Definition given_id (it : DynamicContentItem) : option string :=
  match id it with
  | Some text => if (text =? EmptyString)%string then None else Some text
  | None => None
  end.

(** [track(item, position)] *)
Definition track (m : t) (it : DynamicContentItem) (position : Z) (r : Readings) : t :=
  let hash := hashContent (content it) in
  match given_id it with
  | None =>
      if set_has (hashes m) hash then m
      else
        let id := generateId r in
        {| items :=
             prop_set id
               {| item := it; t_id := id; hash := hash; position := position;
                  injectedAt := now_injected r;
                  t_timestamp := match timestamp it with
                                 | Some d => d
                                 | None => now_timestamp r
                                 end;
                  t_priority := match priority it with
                                | Some p => p
                                | None => medium
                                end |}
               (items m);
           hashes := set_add (hashes m) hash |}
  | Some id =>
      {| items :=
           prop_set id
             {| item := it; t_id := id; hash := hash; position := position;
                injectedAt := now_injected r;
                t_timestamp := match timestamp it with
                               | Some d => d
                               | None => now_timestamp r
                               end;
                t_priority := match priority it with
                              | Some p => p
                              | None => medium
                              end |}
             (items m);
         hashes := set_add (hashes m) hash |}
  end.

Definition hasContext (m : t) (id : string) : bool :=
  match prop_get id (items m) with Some _ => true | None => false end.

Definition hasContentHash (m : t) (content : string) : bool :=
  set_has (hashes m) (hashContent content).

Definition get (m : t) (id : string) : option TrackedContextItem :=
  prop_get id (items m).

Definition getAll (m : t) : list TrackedContextItem := map snd (items m).

Definition getByCategory (m : t) (c : string) : list TrackedContextItem :=
  filter (fun x => match category (item x) with
                   | Some c' => (c' =? c)%string
                   | None => false
                   end)
    (getAll m).

Definition getByPriority (m : t) (p : Priority) : list TrackedContextItem :=
  filter (fun x => (priority_name (t_priority x) =? priority_name p)%string) (getAll m).

Definition getBySource (m : t) (s : string) : list TrackedContextItem :=
  filter (fun x => match source (item x) with
                   | Some s' => (s' =? s)%string
                   | None => false
                   end)
    (getAll m).

(** [map.set(key, (map.get(key) || 0) + 1)] *)
Definition count_up (counts : list (string * Z)) (key : string) : list (string * Z) :=
  prop_set key
    (match prop_get key counts with
     | Some n => (if n =? 0 then 0 else n) + 1
     | None => 1
     end)
    counts.

(** [getStats()] *)
Definition getStats (m : t) : ContextStats :=
  let all := getAll m in
  {| totalItems := List.length (items m);
     byCategory :=
       fold_left (fun counts x =>
                    match category (item x) with
                    | Some c => if (c =? EmptyString)%string then counts
                                else count_up counts c
                    | None => counts
                    end) all [];
     byPriority :=
       fold_left (fun counts x => count_up counts (priority_name (t_priority x))) all [];
     bySource :=
       fold_left (fun counts x =>
                    match source (item x) with
                    | Some s => if (s =? EmptyString)%string then counts
                                else count_up counts s
                    | None => counts
                    end) all [];
     oldestTimestamp :=
       fold_left (fun oldest x =>
                    match oldest with
                    | Some d => if t_timestamp x <? d then Some (t_timestamp x) else Some d
                    | None => Some (t_timestamp x)
                    end) all None;
     newestTimestamp :=
       fold_left (fun newest x =>
                    match newest with
                    | Some d => if t_timestamp x >? d then Some (t_timestamp x) else Some d
                    | None => Some (t_timestamp x)
                    end) all None |}.

(** [remove(id)], [clear()] *)
Definition remove (m : t) (id : string) : bool * t :=
  match prop_get id (items m) with
  | Some x =>
      (true, {| items := map_delete id (items m);
                hashes := set_delete (hashes m) (hash x) |})
  | None => (false, m)
  end.

Definition clear (m : t) : t := {| items := []; hashes := [] |}.

End Hash.

End ContextManager.

(* ================================================================== *)
(** * Specification-side definitions and sample data *)
(* ================================================================== *)

Module Spec.
Import Js.

(** [key_at d k v]: the object found [d] levels below [v] (through
    properties and array elements) has an own property named [k]. *)
Inductive key_at : nat -> string -> value -> Prop :=
| key_here props k v :
    In (k, v) props -> key_at 0 k (VObject props)
| key_in_property props k' v d k :
    In (k', v) props -> key_at d k v -> key_at (S d) k (VObject props)
| key_in_element items v d k :
    In v items -> key_at d k v -> key_at (S d) k (VArray items).

(** [{"a":{"a":{ ... {"__proto__":{}} ... }}}] with [n] levels of ["a"]
    around the innermost object. *)
Fixpoint nested (n : nat) : value :=
  match n with
  | O => VObject [("__proto__", VObject [])]
  | S n' => VObject [("a", nested n')]
  end.

(** How one step may change the invocation at index [i]. *)
Inductive moves (i : nat)
  : ToolSandbox.step_label -> ToolSandbox.Execution -> ToolSandbox.Execution -> Prop :=
| mv_none l x : moves i l x x
| mv_start r x :
    ToolSandbox.x_phase x = ToolSandbox.AwaitBefore ->
    (if ToolSandbox.x_onBefore x then r else Resolved tt) = Resolved tt ->
    moves i (ToolSandbox.BeforeHookReturns i r) x
      (fst (ToolSandbox.executeWithTimeout_start x))
| mv_before_throws r e x :
    ToolSandbox.x_phase x = ToolSandbox.AwaitBefore ->
    (if ToolSandbox.x_onBefore x then r else Resolved tt) = Rejected e ->
    moves i (ToolSandbox.BeforeHookReturns i r) x (fst (ToolSandbox.enter_catch x e))
| mv_settle o x :
    ToolSandbox.x_toolPending x = true ->
    moves i (ToolSandbox.ToolSettles i o) x (ToolSandbox.on_settle x o)
| mv_timeout x :
    ToolSandbox.x_timer x = ToolSandbox.Armed ->
    moves i (ToolSandbox.TimerFires i) x (fst (ToolSandbox.on_timeout x))
| mv_resume_value x result :
    ToolSandbox.x_phase x = ToolSandbox.Racing ->
    ToolSandbox.x_promise x = Some (Resolved result) ->
    (ToolSandbox.estimateSize result >? ToolSandbox.x_maxOutputSize x) = false ->
    moves i (ToolSandbox.Resumes i) x
      (ToolSandbox.set_phase x (ToolSandbox.AwaitAfter result))
| mv_resume_oversize x result :
    ToolSandbox.x_phase x = ToolSandbox.Racing ->
    ToolSandbox.x_promise x = Some (Resolved result) ->
    (ToolSandbox.estimateSize result >? ToolSandbox.x_maxOutputSize x) = true ->
    moves i (ToolSandbox.Resumes i) x
      (fst (ToolSandbox.enter_catch x ToolSandbox.size_error))
| mv_resume_error x e :
    ToolSandbox.x_phase x = ToolSandbox.Racing ->
    ToolSandbox.x_promise x = Some (Rejected e) ->
    moves i (ToolSandbox.Resumes i) x (fst (ToolSandbox.enter_catch x e))
| mv_return x result r :
    ToolSandbox.x_phase x = ToolSandbox.AwaitAfter result ->
    (if ToolSandbox.x_onAfter x then r else Resolved tt) = Resolved tt ->
    moves i (ToolSandbox.AfterHookReturns i r) x
      (ToolSandbox.set_phase x (ToolSandbox.Done (Resolved result)))
| mv_after_throws x result r e :
    ToolSandbox.x_phase x = ToolSandbox.AwaitAfter result ->
    (if ToolSandbox.x_onAfter x then r else Resolved tt) = Rejected e ->
    moves i (ToolSandbox.AfterHookReturns i r) x (fst (ToolSandbox.enter_catch x e))
| mv_rethrow x e r :
    ToolSandbox.x_phase x = ToolSandbox.AwaitAfterError e ->
    (if ToolSandbox.x_onAfter x then r else Resolved tt) = Resolved tt ->
    moves i (ToolSandbox.AfterHookReturns i r) x
      (ToolSandbox.set_phase x (ToolSandbox.Done (Rejected e)))
| mv_catch_throws x e r e' :
    ToolSandbox.x_phase x = ToolSandbox.AwaitAfterError e ->
    (if ToolSandbox.x_onAfter x then r else Resolved tt) = Rejected e' ->
    moves i (ToolSandbox.AfterHookReturns i r) x
      (ToolSandbox.set_phase x (ToolSandbox.Done (Rejected e')))
| mv_cancel id x :
    moves i (ToolSandbox.CancelCalled id) x (ToolSandbox.abort x)
| mv_cancelAll x :
    moves i ToolSandbox.CancelAllCalled x (ToolSandbox.abort x).

(** [execute] can only fail from here on, with [e0] or with an error in
    [thrown]: the race is lost to [e0], or the [catch] block has been
    entered. *)
Definition failing (e0 : error) (thrown : error -> Prop)
    (x : ToolSandbox.Execution) : Prop :=
  match ToolSandbox.x_phase x with
  | ToolSandbox.Racing => ToolSandbox.x_promise x = Some (Rejected e0)
  | ToolSandbox.AwaitAfterError e => e = e0 \/ thrown e
  | ToolSandbox.Done (Rejected e) => e = e0 \/ thrown e
  | _ => False
  end.

(** A string without the separator of execution ids. *)
Fixpoint no_dash (s : string) : Prop :=
  match s with
  | EmptyString => True
  | String c rest => c <> "-"%char /\ no_dash rest
  end.

(** Every recorded invocation carries an id made by [make_id] from a count
    that has been used. *)
Definition ids_ok (s : ToolSandbox.t) : Prop :=
  forall j y, nth_error (ToolSandbox.executions s) j = Some y ->
  exists n now, ToolSandbox.x_id y = ToolSandbox.make_id n now
                /\ (n <= ToolSandbox.executionCount s)%nat.

(** Every entry of the active set leads to the invocation that carries its
    key as id. *)
Definition active_valid (s : ToolSandbox.t) : Prop :=
  forall id i, prop_get id (ToolSandbox.activeExecutions s) = Some i ->
  exists x, nth_error (ToolSandbox.executions s) i = Some x
            /\ ToolSandbox.x_id x = id.

(** The id of a finished invocation is not in the active set. *)
Definition done_removed (s : ToolSandbox.t) : Prop :=
  forall j y o, nth_error (ToolSandbox.executions s) j = Some y ->
  ToolSandbox.x_phase y = ToolSandbox.Done o ->
  ~ In (ToolSandbox.x_id y) (ToolSandbox.getActiveExecutionIds s).

(** The size estimate as the specification words it. *)
Definition estimate_as_specified (v : value) : Z :=
  match v with
  | VString s => Z.of_nat (String.length s) * 2
  | VNumber _ => 8
  | VBool _ => 4
  | VBuffer bytes => Z.of_nat (List.length bytes)
  | _ =>
      match JSON_stringify v with
      | Some text => Z.of_nat (String.length text) * 2
      | None => 0
      end
  end.

(** The scan of one level of [hasPrototypePollution], as a test on the
    entries of an object and on the elements of an array. *)
Definition entry_polluted (depth : nat) (kv : string * value) : bool :=
  ToolGuard.includes ToolGuard.dangerousKeys (fst kv)
  || (typeof_object (snd kv) && ToolGuard.hasPrototypePollution (snd kv) (S depth)).

Definition element_polluted (depth : nat) (v : value) : bool :=
  typeof_object v && ToolGuard.hasPrototypePollution v (S depth).

(** The answer of [parseToolArguments] to a polluted text. *)
Definition malicious : ToolGuard.ToolValidationResult :=
  {| ToolGuard.success := false; ToolGuard.data := None;
     ToolGuard.error :=
       Some "Invalid tool arguments: potentially malicious content detected";
     ToolGuard.violations := None |}.

(** The error of a secured tool that the guard blocks. *)
Definition not_allowed (name : string) : error :=
  Error ("Tool " ++ in_quotes name ++ " is not allowed").

(** Two sandboxes that differ at most in what has been logged so far. *)
Definition same_but_log (s1 s2 : ToolSandbox.t) : Prop :=
  ToolSandbox.config s1 = ToolSandbox.config s2
  /\ ToolSandbox.activeExecutions s1 = ToolSandbox.activeExecutions s2
  /\ ToolSandbox.executionCount s1 = ToolSandbox.executionCount s2
  /\ ToolSandbox.executions s1 = ToolSandbox.executions s2.

(** The race of an invocation is settled with [o]: its promise holds [o]
    and the timer is not armed. *)
Definition settled (o : outcome value) (x : ToolSandbox.Execution) : Prop :=
  ToolSandbox.x_phase x <> ToolSandbox.AwaitBefore
  /\ ToolSandbox.x_promise x = Some o
  /\ ToolSandbox.x_timer x <> ToolSandbox.Armed.

(** ** The registry *)

(** A tool whose name and description pass [ToolSchema]. *)
Definition accepted {W : Type} (tool : Tools.Tool W) : Prop :=
  Tools.name tool <> EmptyString /\ Tools.description tool <> EmptyString.

(** The two maps of a registry go together: they hold the same names in
    the same order, each name once, every tool is held under its own name,
    and no tool has failed more often than it was called. *)
Definition consistent {W : Type} (r : ToolRegistry.t W) : Prop :=
  map fst (ToolRegistry.usageStats r) = map fst (ToolRegistry.tools r)
  /\ NoDup (map fst (ToolRegistry.tools r))
  /\ (forall name tool, In (name, tool) (ToolRegistry.tools r) -> Tools.name tool = name)
  /\ (forall name e, In (name, e) (ToolRegistry.usageStats r) ->
        0 <= Tools.failures e <= Tools.calls e).

(** The number of calls recorded for a name, 0 for a name without
    counters. *)
Definition calls_of {W : Type} (r : ToolRegistry.t W) (name : string) : Z :=
  match prop_get name (ToolRegistry.usageStats r) with
  | Some e => Tools.calls e
  | None => 0
  end.

(** The counters of a tool that has not been called. *)
Definition unused : Tools.UsageEntry :=
  {| Tools.calls := 0; Tools.failures := 0; Tools.totalDuration := 0 |}.

(** ** The sandbox *)

(** A run during which the configuration is not replaced. *)
Definition config_fixed (tr : list ToolSandbox.step_label) : Prop :=
  forall q, ~ In (ToolSandbox.UpdateConfigCalled q) tr.

(** The invocations are numbered in the order of their calls: the one at
    index [j] carries the count [j + 1] in its id, and the counter of the
    sandbox stands at their number. *)
Definition numbered (s : ToolSandbox.t) : Prop :=
  ToolSandbox.executionCount s = List.length (ToolSandbox.executions s)
  /\ forall j y, nth_error (ToolSandbox.executions s) j = Some y ->
     exists now, ToolSandbox.x_id y = ToolSandbox.make_id (S j) now.

(** The executor of [executeWithTimeout] has not run for the invocation,
    and [execute] is in its [catch] block or has left it. *)
Definition never_started (x : ToolSandbox.Execution) : Prop :=
  ToolSandbox.x_timer x = ToolSandbox.NotSet
  /\ ToolSandbox.x_toolPending x = false
  /\ match ToolSandbox.x_phase x with
     | ToolSandbox.AwaitAfterError _ | ToolSandbox.Done (Rejected _) => True
     | _ => False
     end.

(** An invocation is where the code puts it: before the race nothing of
    the race is set up, and while the race is open the timer is armed, the
    listener registered and the tool under way. *)
Definition in_step (x : ToolSandbox.Execution) : Prop :=
  match ToolSandbox.x_phase x with
  | ToolSandbox.AwaitBefore =>
      ToolSandbox.x_timer x = ToolSandbox.NotSet
      /\ ToolSandbox.x_toolPending x = false
      /\ ToolSandbox.x_listener x = false
      /\ ToolSandbox.x_promise x = None
  | ToolSandbox.Racing =>
      ToolSandbox.x_promise x = None ->
      ToolSandbox.x_timer x = ToolSandbox.Armed
      /\ ToolSandbox.x_toolPending x = true
      /\ ToolSandbox.x_listener x = true
  | _ => True
  end.

(** ** The context manager *)

(** One step of the counting loops of [getStats]: the count of the key of
    [x] goes up by one; an item without key is not counted. *)
Definition counted {X : Type} (key : X -> option string)
    (counts : list (string * Z)) (x : X) : list (string * Z) :=
  match key x with
  | Some k => ContextManager.count_up counts k
  | None => counts
  end.

(** The items that are counted under [k]. *)
Definition matching {X : Type} (key : X -> option string) (k : string) (x : X) : bool :=
  match key x with
  | Some k' => (k' =? k)%string
  | None => false
  end.

End Spec.

Module Sample.
Import Js.

(** [new ToolGuard()] in a freshly loaded module. *)
Definition guard : ToolGuard.t := fst (ToolGuard.new ToolGuard.initial_heap Security.empty).
Definition heap : ToolGuard.Heap := snd (ToolGuard.new ToolGuard.initial_heap Security.empty).

(** [new ToolGuard({ deniedTools: ['blocked'] })] *)
Definition blocked_list : Security.aref * ToolGuard.Heap :=
  ToolGuard.array_new ToolGuard.initial_heap ["blocked"].
Definition denying : ToolGuard.t * ToolGuard.Heap :=
  ToolGuard.new (snd blocked_list)
    {| Security.p_enabled := None; Security.p_validateParams := None;
       Security.p_sandboxExecution := None;
       Security.p_maxExecutionTime := None;
       Security.p_maxConcurrentCalls := None;
       Security.p_deniedTools := Some (fst blocked_list);
       Security.p_allowedTools := None |}.
Definition denying_guard : ToolGuard.t := fst denying.
Definition denying_heap : ToolGuard.Heap := snd denying.

(** [new ToolSandbox({ maxConcurrentCalls: 2 })] with two calls of a slow
    tool under way. *)
Definition two_at_most : Security.PartialConfig :=
  {| Security.p_enabled := None; Security.p_validateParams := None;
     Security.p_sandboxExecution := None;
     Security.p_maxExecutionTime := None;
     Security.p_maxConcurrentCalls := Some 2;
     Security.p_deniedTools := None;
     Security.p_allowedTools := None |}.

Definition slow_call (now : Z) : ToolSandbox.step_label :=
  ToolSandbox.Execute "slow_tool" (VObject []) Tools.empty_context
    ToolSandbox.no_options now.

Definition two_running : ToolSandbox.t :=
  ToolSandbox.run (ToolSandbox.new two_at_most)
    [slow_call 1000; slow_call 1001;
     ToolSandbox.BeforeHookReturns 0 (Resolved tt);
     ToolSandbox.BeforeHookReturns 1 (Resolved tt)].

(** A slow tool called with an [onAfterExecution] hook; the timer runs out
    first and the hook, called with the timeout error, throws. *)
Definition with_after_hook : ToolSandbox.SandboxOptions :=
  {| ToolSandbox.o_maxExecutionTime := Some 100;
     ToolSandbox.o_maxOutputSize := Some 4;
     ToolSandbox.o_allowedOperations := None;
     ToolSandbox.o_onBeforeExecution := false;
     ToolSandbox.o_onAfterExecution := true |}.

Definition hook_failed : error := Error "hook failed".

Definition timeout_then_hook_throws : list ToolSandbox.step_label :=
  [ToolSandbox.Execute "slow_tool" (VObject []) Tools.empty_context with_after_hook 1000;
   ToolSandbox.BeforeHookReturns 0 (Resolved tt);
   ToolSandbox.TimerFires 0;
   ToolSandbox.Resumes 0;
   ToolSandbox.AfterHookReturns 0 (Rejected hook_failed);
   ToolSandbox.ToolSettles 0 (Resolved (VString "late"))].

(** A tool that returns [null] under [maxOutputSize: 4]. *)
Definition four_bytes : ToolSandbox.SandboxOptions :=
  {| ToolSandbox.o_maxExecutionTime := None;
     ToolSandbox.o_maxOutputSize := Some 4;
     ToolSandbox.o_allowedOperations := None;
     ToolSandbox.o_onBeforeExecution := false;
     ToolSandbox.o_onAfterExecution := false |}.

Definition returns_null : list ToolSandbox.step_label :=
  [ToolSandbox.Execute "null_tool" (VObject []) Tools.empty_context four_bytes 1000;
   ToolSandbox.BeforeHookReturns 0 (Resolved tt);
   ToolSandbox.ToolSettles 0 (Resolved VNull);
   ToolSandbox.Resumes 0;
   ToolSandbox.AfterHookReturns 0 (Resolved tt)].

(** A tool that returns three characters under [maxOutputSize: 4], with a
    hook that throws when it is told of the failure. *)
Definition oversize_then_hook_throws : list ToolSandbox.step_label :=
  [ToolSandbox.Execute "large_tool" (VObject []) Tools.empty_context with_after_hook 1000;
   ToolSandbox.BeforeHookReturns 0 (Resolved tt);
   ToolSandbox.ToolSettles 0 (Resolved (VString "abc"));
   ToolSandbox.Resumes 0;
   ToolSandbox.AfterHookReturns 0 (Rejected hook_failed)].

(** The same call, stopped when the tool has settled. *)
Definition oversize_settled : ToolSandbox.t :=
  ToolSandbox.run (ToolSandbox.new Security.empty)
    (firstn 3 oversize_then_hook_throws).

(** ** A registry whose state is the clock *)

Definition clock (w : Z) : Z := w.

(** [execute: async ({ n }) => n], taking 5 ms. *)
Definition ok_tool : Tools.Tool Z :=
  {| Tools.name := "ok";
     Tools.description := "OK";
     Tools.parameters := VObject [("type", VString "object"); ("properties", VObject [])];
     Tools.execute := fun params _ w =>
       (Resolved (match params with
                  | VObject props =>
                      match prop_get "n" props with Some v => v | None => VUndefined end
                  | _ => VUndefined
                  end), w + 5);
     Tools.category := None;
     Tools.cost := None;
     Tools.schema := None |}.

(** [execute: async () => { throw new Error('Tool failed') }], taking 50 ms. *)
Definition failing_tool : Tools.Tool Z :=
  {| Tools.name := "failing_tool";
     Tools.description := "Failing tool";
     Tools.parameters := VObject [("type", VString "object"); ("properties", VObject [])];
     Tools.execute := fun _ _ w => (Rejected (Error "Tool failed"), w + 50);
     Tools.category := None;
     Tools.cost := None;
     Tools.schema := None |}.

Definition registered {W : Type} (r : ToolRegistry.t W) (tool : Tools.Tool W)
  : ToolRegistry.t W :=
  match ToolRegistry.register r tool with
  | Resolved r' => r'
  | Rejected _ => r
  end.

Definition registry : ToolRegistry.t Z :=
  registered (registered (ToolRegistry.create Tools.empty_context) ok_tool) failing_tool.

Definition n_is (n : Z) : value := VObject [("n", VNumber n)].

(** ** A registry of secured tools *)

(** A tool named on the deny list of [denying_guard]. *)
Definition blocked_tool : Tools.Tool Z :=
  {| Tools.name := "blocked";
     Tools.description := "Blocked";
     Tools.parameters := VObject [("type", VString "object"); ("properties", VObject [])];
     Tools.execute := fun _ _ w => (Resolved (VObject [("success", VBool true)]), w + 1);
     Tools.category := None;
     Tools.cost := None;
     Tools.schema := None |}.

Definition sandbox_method
  : Tools.Tool Z -> value -> Tools.ToolContext -> ToolSandbox.World Z
    -> outcome value * ToolSandbox.World Z :=
  fun tool params context w =>
    ToolSandbox.execute clock ToolSandbox.quiet tool params context
      ToolSandbox.no_options w.

Definition secure_registry : ToolRegistry.t (ToolSandbox.World Z) :=
  registered (ToolRegistry.create Tools.empty_context)
    (ToolSandbox.createSecureTool blocked_tool sandbox_method denying_guard).

Definition world : ToolSandbox.World Z :=
  {| ToolSandbox.user := 1000;
     ToolSandbox.heap := denying_heap;
     ToolSandbox.guard_log := [];
     ToolSandbox.sandbox_ := ToolSandbox.new Security.empty |}.

(** ** A registry in use *)

(** A tool that [register] refuses: it has no name. *)
Definition nameless_tool : Tools.Tool Z :=
  {| Tools.name := EmptyString;
     Tools.description := "No name";
     Tools.parameters := VObject [("type", VString "object"); ("properties", VObject [])];
     Tools.execute := fun _ _ w => (Resolved VNull, w);
     Tools.category := None;
     Tools.cost := None;
     Tools.schema := None |}.

(** Two tools registered, then three calls of which one fails. *)
Definition busy : list (ToolRegistry.operation (W := Z)) :=
  [ToolRegistry.Register ok_tool;
   ToolRegistry.Register failing_tool;
   ToolRegistry.Execute "ok" (n_is 1);
   ToolRegistry.Execute "failing_tool" (VObject []);
   ToolRegistry.Execute "ok" (n_is 2)].

(** What [getUsageStats] reports for [ok] after [busy]. *)
Definition report : Tools.ToolUsageStats :=
  {| Tools.u_calls := 2; Tools.u_failures := 0;
     Tools.successRate := (inject_Z 2 / inject_Z 2)%Q;
     Tools.averageDuration := Some (inject_Z 10 / inject_Z 2)%Q |}.

(** [{ workingDirectory: '/test' }] *)
Definition working_directory : Tools.ToolContext :=
  {| Tools.bag := [("workingDirectory", VString "/test")]; Tools.sandbox := None |}.

(** ** Calls with hooks *)

(** A call of a slow tool with both hooks. *)
Definition both_hooks : ToolSandbox.SandboxOptions :=
  {| ToolSandbox.o_maxExecutionTime := None;
     ToolSandbox.o_maxOutputSize := None;
     ToolSandbox.o_allowedOperations := None;
     ToolSandbox.o_onBeforeExecution := true;
     ToolSandbox.o_onAfterExecution := true |}.

Definition hooked_call : ToolSandbox.step_label :=
  ToolSandbox.Execute "slow_tool" (VObject []) Tools.empty_context both_hooks 1000.

(** The call has passed its first hook, the tool has returned three
    characters, and the second hook has been called with them. *)
Definition awaiting_after_hook : ToolSandbox.t :=
  ToolSandbox.run (ToolSandbox.new Security.empty)
    [hooked_call;
     ToolSandbox.BeforeHookReturns 0 (Resolved tt);
     ToolSandbox.ToolSettles 0 (Resolved (VString "abc"));
     ToolSandbox.Resumes 0].

(** The same surroundings with [new ToolSandbox({ enabled: false })]. *)
Definition switched_off : Security.PartialConfig :=
  {| Security.p_enabled := Some false; Security.p_validateParams := None;
     Security.p_sandboxExecution := None;
     Security.p_maxExecutionTime := None;
     Security.p_maxConcurrentCalls := None;
     Security.p_deniedTools := None;
     Security.p_allowedTools := None |}.

Definition world_off : ToolSandbox.World Z :=
  {| ToolSandbox.user := 1000;
     ToolSandbox.heap := denying_heap;
     ToolSandbox.guard_log := [];
     ToolSandbox.sandbox_ := ToolSandbox.new switched_off |}.

(** ** Context items *)

(** A stand-in for the digest: the length of the content, in decimal. *)
Definition by_length (content : string) : string :=
  dec_nat (String.length content).

(** [{ id, content }] *)
Definition note (id : option string) (content : string)
  : ContextManager.DynamicContentItem :=
  {| ContextManager.content := content;
     ContextManager.title := None;
     ContextManager.weight := None;
     ContextManager.id := id;
     ContextManager.category := None;
     ContextManager.source := None;
     ContextManager.priority := None;
     ContextManager.timestamp := None |}.

Definition readings : ContextManager.Readings :=
  {| ContextManager.now_for_id := 1700000000000;
     ContextManager.random_digits := "k3j9x2a";
     ContextManager.now_injected := 1700000000000;
     ContextManager.now_timestamp := 1700000000000 |}.

End Sample.

(* ================================================================== *)
(** * Properties of the guard *)
(* ================================================================== *)

Section GuardFacts.
Import Js Security ToolGuard Spec.

#[local] Arguments includes : simpl never.

(** Induction on values that reaches the elements of arrays and the values
    of properties. *)
Lemma value_ind_nested (P : value -> Prop) :
  P VUndefined -> P VNull -> (forall b, P (VBool b)) -> (forall n, P (VNumber n)) ->
  (forall s, P (VString s)) -> (forall bytes, P (VBuffer bytes)) ->
  (forall items, Forall P items -> P (VArray items)) ->
  (forall props, Forall (fun kv => P (snd kv)) props -> P (VObject props)) ->
  forall v, P v.
Proof.
  intros Hu Hn Hb Hz Hs Hbuf Ha Ho.
  fix IH 1. intros [ | | b | n | s | bytes | items | props ].
  - exact Hu.
  - exact Hn.
  - apply Hb.
  - apply Hz.
  - apply Hs.
  - apply Hbuf.
  - apply Ha. induction items as [| v rest IHrest]; constructor; [apply IH | exact IHrest].
  - apply Ho. induction props as [| [k v] rest IHrest]; constructor;
      [apply IH | exact IHrest].
Qed.

Lemma includes_In (l : list string) (x : string) :
  includes l x = true <-> In x l.
Proof.
  unfold includes. rewrite existsb_exists. split.
  - intros (y & Hy & E). apply String.eqb_eq in E. now subst.
  - intros H. exists x. split; [exact H | apply String.eqb_refl].
Qed.

Lemma hasPrototypePollution_object (props : list (string * value)) (depth : nat) :
  hasPrototypePollution (VObject props) depth =
  if (10 <? depth)%nat then false else existsb (entry_polluted depth) props.
Proof.
  simpl. destruct (10 <? depth)%nat; [reflexivity |].
  induction props as [| [k v] rest IH]; [reflexivity |].
  simpl. unfold entry_polluted at 1. simpl fst. simpl snd.
  destruct (includes dangerousKeys k); [reflexivity |].
  destruct (typeof_object v && hasPrototypePollution v (S depth)); [reflexivity |].
  exact IH.
Qed.

Lemma hasPrototypePollution_array (items : list value) (depth : nat) :
  hasPrototypePollution (VArray items) depth =
  if (10 <? depth)%nat then false else existsb (element_polluted depth) items.
Proof.
  simpl. destruct (10 <? depth)%nat; [reflexivity |].
  induction items as [| v rest IH]; [reflexivity |].
  simpl. unfold element_polluted at 1.
  destruct (typeof_object v && hasPrototypePollution v (S depth)); [reflexivity |].
  exact IH.
Qed.

Lemma key_at_typeof (d : nat) (k : string) (v : value) :
  key_at d k v -> typeof_object v = true.
Proof. intros H; destruct H; reflexivity. Qed.

Lemma pollution_found (v : value) :
  forall depth, hasPrototypePollution v depth = true ->
  exists d k, (depth + d <= 10)%nat /\ In k dangerousKeys /\ key_at d k v.
Proof.
  induction v as [ | | b | n | s | bytes | items IH | props IH ] using value_ind_nested;
    intros depth H; try (simpl in H; destruct (10 <? depth)%nat; discriminate).
  - rewrite hasPrototypePollution_array in H.
    destruct (10 <? depth)%nat eqn:E; [discriminate |].
    apply Nat.ltb_ge in E.
    apply existsb_exists in H. destruct H as (v & Hin & Hv).
    unfold element_polluted in Hv. apply andb_true_iff in Hv. destruct Hv as [_ Hv].
    rewrite Forall_forall in IH.
    destruct (IH v Hin (S depth) Hv) as (d & k & Hle & Hk & Hat).
    exists (S d), k. repeat split; [lia | exact Hk |].
    eapply key_in_element; eassumption.
  - rewrite hasPrototypePollution_object in H.
    destruct (10 <? depth)%nat eqn:E; [discriminate |].
    apply Nat.ltb_ge in E.
    apply existsb_exists in H. destruct H as ([k v] & Hin & Hv).
    unfold entry_polluted in Hv. simpl in Hv.
    apply orb_true_iff in Hv. destruct Hv as [Hv | Hv].
    + exists 0%nat, k. repeat split; [lia | now apply includes_In |].
      eapply key_here; eassumption.
    + apply andb_true_iff in Hv. destruct Hv as [_ Hv].
      rewrite Forall_forall in IH.
      destruct (IH (k, v) Hin (S depth) Hv) as (d & k0 & Hle & Hk & Hat).
      exists (S d), k0. repeat split; [lia | exact Hk |].
      eapply key_in_property; eassumption.
Qed.

Lemma pollution_detected (d : nat) (k : string) (v : value) :
  key_at d k v -> In k dangerousKeys ->
  forall depth, (depth + d <= 10)%nat -> hasPrototypePollution v depth = true.
Proof.
  intros Hat Hk. induction Hat as [props k v Hin | props k' v d k Hin Hat IH
                                  | items v d k Hin Hat IH]; intros depth Hle.
  - rewrite hasPrototypePollution_object.
    replace (10 <? depth)%nat with false by (symmetry; apply Nat.ltb_ge; lia).
    apply existsb_exists. exists (k, v). split; [exact Hin |].
    unfold entry_polluted. simpl. apply orb_true_iff. left. now apply includes_In.
  - rewrite hasPrototypePollution_object.
    replace (10 <? depth)%nat with false by (symmetry; apply Nat.ltb_ge; lia).
    apply existsb_exists. exists (k', v). split; [exact Hin |].
    unfold entry_polluted. simpl. apply orb_true_iff. right.
    rewrite (key_at_typeof _ _ _ Hat). simpl. apply IH; [exact Hk | lia].
  - rewrite hasPrototypePollution_array.
    replace (10 <? depth)%nat with false by (symmetry; apply Nat.ltb_ge; lia).
    apply existsb_exists. exists v. split; [exact Hin |].
    unfold element_polluted.
    rewrite (key_at_typeof _ _ _ Hat). simpl. apply IH; [exact Hk | lia].
Qed.

(** The scan answers exactly whether a dangerous key lies within ten levels
    of the root. *)
Lemma hasPrototypePollution_iff (v : value) :
  hasPrototypePollution v 0 = true <->
  exists d k, (d <= 10)%nat /\ In k dangerousKeys /\ key_at d k v.
Proof.
  split.
  - intros H. destruct (pollution_found v 0 H) as (d & k & Hle & Hk & Hat).
    exists d, k. repeat split; [lia | exact Hk | exact Hat].
  - intros (d & k & Hle & Hk & Hat). eapply pollution_detected; eauto.
Qed.

(** C7. With the guard enabled, [parseToolArguments] answers the three
    polluted texts with the malicious-content error (and one
    prototype-pollution notification) and parses [{"a":1}] to [{a:1}].  A
    parsed value is refused exactly when one of [__proto__], [constructor],
    [prototype] is a key of an object at most ten levels below the root;
    eleven levels down the key is not seen. *)
Theorem parseToolArguments_rejects_pollution
    (h : Heap) (g : ToolGuard.t) (toolName : string)
    (Henabled : enabled (cfg h g) = true) :
  (forall text,
      In text [json "{'__proto__':{'x':1}}";
               json "{'constructor':{'prototype':{}}}";
               json "{'a':{'b':{'__proto__':{}}}}"] ->
      parseToolArguments h g toolName text
      = (Resolved malicious, [onPrototypePollution toolName]))
  /\ parseToolArguments h g toolName (json "{'a':1}")
     = (Resolved {| success := true; data := Some (VObject [("a", VNumber 1)]);
                    ToolGuard.error := None; violations := None |}, [])
  /\ (forall text parsed,
         JSON_parse text = Resolved parsed ->
         (fst (parseToolArguments h g toolName text) = Resolved malicious
          <-> exists d k, (d <= 10)%nat /\ In k dangerousKeys /\ key_at d k parsed))
  /\ hasPrototypePollution (nested 10) 0 = true
  /\ hasPrototypePollution (nested 11) 0 = false.
Proof.
  split; [| split; [| split; [| split]]].
  - intros text Hin. unfold parseToolArguments. rewrite Henabled. simpl negb. cbv iota.
    simpl in Hin.
    destruct Hin as [<- | [<- | [<- | []]]]; vm_compute; reflexivity.
  - unfold parseToolArguments. rewrite Henabled. vm_compute. reflexivity.
  - intros text parsed Hparse. unfold parseToolArguments.
    rewrite Henabled, Hparse. simpl negb. cbv iota.
    rewrite <- hasPrototypePollution_iff.
    destruct (hasPrototypePollution parsed 0).
    + simpl. split; reflexivity.
    + split; [| discriminate].
      destruct (not_a_plain_object parsed); simpl; intros E; inversion E.
  - vm_compute. reflexivity.
  - vm_compute. reflexivity.
Qed.

Lemma parseToolArguments_rejects_pollution_witness :
  enabled (cfg Sample.heap Sample.guard) = true
  /\ parseToolArguments Sample.heap Sample.guard "read_file" (json "{'a':1}")
     = (Resolved {| success := true; data := Some (VObject [("a", VNumber 1)]);
                    ToolGuard.error := None; violations := None |}, []).
Proof.
  split; [reflexivity |].
  apply (parseToolArguments_rejects_pollution Sample.heap Sample.guard "read_file").
  reflexivity.
Defined.

(** Assigning a property of the object returned by [getConfig] leaves the
    guard's own configuration object and every array as they were. *)
Lemma nth_list_update_other {A : Type} (l : list A) (i j : nat) (x d : A) :
  i <> j -> nth j (list_update l i x) d = nth j l d.
Proof.
  revert i j. induction l as [| y rest IH]; intros [| i] [| j] H; simpl;
    try reflexivity; try congruence.
  apply IH. congruence.
Qed.

Lemma getConfig_assign_detached (h : Heap) (g : ToolGuard.t) (p : PartialConfig) :
  (config g < List.length (objects h))%nat ->
  let (c, h') := getConfig h g in
  cfg (mutate h' c (Assign p)) g = cfg h g
  /\ arrays (mutate h' c (Assign p)) = arrays h.
Proof.
  intros Hlt. unfold getConfig, object_new, mutate, object_set, cfg, object_get.
  simpl. split; [| reflexivity].
  rewrite nth_list_update_other by lia.
  now rewrite app_nth1.
Qed.

(** C8, as the code behaves.  The object returned by [getConfig] holds the
    guard's own [deniedTools] array: pushing onto it blocks a tool that was
    allowed, and splicing it allows a tool that was denied. *)
Theorem getConfig_shares_deniedTools :
  (let (c, h) := getConfig Sample.heap Sample.guard in
   fst (isToolAllowed h Sample.guard "x") = true
   /\ fst (isToolAllowed (mutate h c (PushDenied "x")) Sample.guard "x") = false
   /\ array_get (mutate h c (PushDenied "x")) (deniedTools (cfg h Sample.guard))
      = ["x"])
  /\
  (let (c, h) := getConfig Sample.denying_heap Sample.denying_guard in
   fst (isToolAllowed h Sample.denying_guard "blocked") = false
   /\ fst (isToolAllowed (mutate h c (SpliceDenied 0)) Sample.denying_guard "blocked")
      = true).
Proof. vm_compute. repeat split. Qed.

End GuardFacts.

(* ================================================================== *)
(** * Properties of the sandbox *)
(* ================================================================== *)

Section SandboxFacts.
Import Js Tools ToolSandbox Spec.

#[local] Arguments estimateSize : simpl never.

(** ** Lists and maps *)

Lemma length_list_update {A : Type} (l : list A) (i : nat) (x : A) :
  List.length (list_update l i x) = List.length l.
Proof.
  revert i. induction l as [| y rest IH]; intros [| i]; simpl; auto.
Qed.

Lemma nth_error_list_update_same {A : Type} (l : list A) (i : nat) (x y : A) :
  nth_error l i = Some y -> nth_error (list_update l i x) i = Some x.
Proof.
  revert i. induction l as [| z rest IH]; intros [| i] H; simpl in *;
    try discriminate; auto.
Qed.

Lemma nth_error_list_update_other {A : Type} (l : list A) (i j : nat) (x : A) :
  i <> j -> nth_error (list_update l i x) j = nth_error l j.
Proof.
  revert i j. induction l as [| z rest IH]; intros [| i] [| j] H; simpl;
    try reflexivity; try congruence.
  apply IH. congruence.
Qed.

Lemma nth_error_list_update_none {A : Type} (l : list A) (i : nat) (x : A) :
  nth_error l i = None -> list_update l i x = l.
Proof.
  revert i. induction l as [| z rest IH]; intros [| i] H; simpl in *;
    try discriminate; auto.
  now rewrite IH.
Qed.

Lemma prop_get_In {V : Type} (k : string) (m : list (string * V)) :
  In k (map fst m) <-> exists v, prop_get k m = Some v.
Proof.
  induction m as [| [k' v'] rest IH]; simpl.
  - split; [tauto | intros (v & H); discriminate].
  - destruct (String.eqb_spec k' k) as [-> | Hne].
    + split; [intros _; now exists v' | intros _; now left].
    + rewrite <- IH. split; [intros [H | H]; [congruence | exact H] | now right].
Qed.

Lemma prop_get_not_In {V : Type} (k : string) (m : list (string * V)) :
  ~ In k (map fst m) -> prop_get k m = None.
Proof.
  intros H. destruct (prop_get k m) as [v |] eqn:E; [| reflexivity].
  exfalso. apply H. apply prop_get_In. now exists v.
Qed.

Lemma map_delete_keys {V : Type} (k k' : string) (m : list (string * V)) :
  In k' (map fst (map_delete k m)) <-> k' <> k /\ In k' (map fst m).
Proof.
  induction m as [| [k0 v0] rest IH]; simpl.
  - tauto.
  - destruct (String.eqb_spec k0 k) as [-> | Hne]; simpl; rewrite IH.
    + split; [intros [H1 H2]; tauto | intros [H1 [H2 | H2]]; [congruence | tauto]].
    + split.
      * intros [<- | [H1 H2]]; split; auto.
      * intros [H1 [H2 | H2]]; auto.
Qed.

Lemma map_delete_absent {V : Type} (k : string) (m : list (string * V)) :
  ~ In k (map fst m) -> map_delete k m = m.
Proof.
  induction m as [| [k0 v0] rest IH]; simpl; intros H; [reflexivity |].
  destruct (String.eqb_spec k0 k) as [-> | Hne]; [tauto |].
  rewrite IH; tauto.
Qed.

Lemma map_delete_length {V : Type} (k : string) (m : list (string * V)) :
  NoDup (map fst m) -> In k (map fst m) ->
  S (List.length (map_delete k m)) = List.length m.
Proof.
  induction m as [| [k0 v0] rest IH]; simpl; intros Hnd Hin; [tauto |].
  inversion Hnd as [| ? ? Hnotin Hnd']; subst.
  destruct (String.eqb_spec k0 k) as [-> | Hne].
  - now rewrite map_delete_absent.
  - simpl. rewrite IH; auto. destruct Hin; [congruence | assumption].
Qed.

Lemma map_delete_NoDup {V : Type} (k : string) (m : list (string * V)) :
  NoDup (map fst m) -> NoDup (map fst (map_delete k m)).
Proof.
  induction m as [| [k0 v0] rest IH]; simpl; intros Hnd; [constructor |].
  inversion Hnd as [| ? ? Hnotin Hnd']; subst.
  destruct (String.eqb_spec k0 k) as [-> | Hne]; [auto |].
  simpl. constructor; [| auto].
  rewrite map_delete_keys. tauto.
Qed.

Lemma prop_set_keys {V : Type} (k k' : string) (v : V) (m : list (string * V)) :
  In k' (map fst (prop_set k v m)) <-> k' = k \/ In k' (map fst m).
Proof.
  induction m as [| [k0 v0] rest IH]; simpl.
  - split; [intros [H | []]; auto | intros [H | []]; auto].
  - destruct (String.eqb_spec k0 k) as [-> | Hne]; simpl.
    + split; [intros [H | H]; auto | intros [H | [H | H]]; auto].
    + rewrite IH. split; [intros [H | [H | H]]; auto | intros [H | [H | H]]; auto].
Qed.

Lemma prop_set_NoDup {V : Type} (k : string) (v : V) (m : list (string * V)) :
  NoDup (map fst m) -> NoDup (map fst (prop_set k v m)).
Proof.
  induction m as [| [k0 v0] rest IH]; simpl; intros Hnd.
  - constructor; [simpl; tauto | constructor].
  - inversion Hnd as [| ? ? Hnotin Hnd']; subst.
    destruct (String.eqb_spec k0 k) as [-> | Hne]; simpl.
    + constructor; assumption.
    + constructor; [| auto]. rewrite prop_set_keys. intros [H | H]; [congruence | tauto].
Qed.

Lemma prop_get_set_same {V : Type} (k : string) (v : V) (m : list (string * V)) :
  prop_get k (prop_set k v m) = Some v.
Proof.
  induction m as [| [k' v'] rest IH]; cbn.
  - now rewrite String.eqb_refl.
  - destruct (String.eqb_spec k' k) as [-> | Hne]; cbn.
    + now rewrite String.eqb_refl.
    + destruct (String.eqb_spec k' k); [congruence | exact IH].
Qed.

Lemma prop_get_set_other {V : Type} (k k' : string) (v : V) (m : list (string * V)) :
  k <> k' -> prop_get k' (prop_set k v m) = prop_get k' m.
Proof.
  intros Hne. induction m as [| [k0 v0] rest IH]; cbn.
  - destruct (String.eqb_spec k k'); [congruence | reflexivity].
  - destruct (String.eqb_spec k0 k) as [-> | Hne0]; cbn.
    + destruct (String.eqb_spec k k'); [congruence | reflexivity].
    + destruct (String.eqb_spec k0 k'); [reflexivity | exact IH].
Qed.

Lemma prop_set_fresh_length {V : Type} (k : string) (v : V) (m : list (string * V)) :
  ~ In k (map fst m) -> List.length (prop_set k v m) = S (List.length m).
Proof.
  induction m as [| [k0 v0] rest IH]; simpl; intros H; [reflexivity |].
  destruct (String.eqb_spec k0 k) as [-> | Hne]; [tauto |].
  simpl. rewrite IH; tauto.
Qed.

(** ** The controller *)

Lemma abort_aborted (x : Execution) : x_aborted (abort x) = true.
Proof.
  unfold abort. destruct (x_aborted x) eqn:E; [exact E |].
  destruct (x_listener x); reflexivity.
Qed.

Lemma abort_id (x : Execution) : x_id (abort x) = x_id x.
Proof.
  unfold abort. destruct (x_aborted x); [reflexivity |].
  destruct (x_listener x); reflexivity.
Qed.

Lemma abort_phase (x : Execution) : x_phase (abort x) = x_phase x.
Proof.
  unfold abort. destruct (x_aborted x); [reflexivity |].
  destruct (x_listener x); reflexivity.
Qed.

Lemma abort_at_active (s : t) (i : nat) :
  activeExecutions (abort_at s i) = activeExecutions s.
Proof. unfold abort_at. destruct (nth_error (executions s) i); reflexivity. Qed.

Lemma abort_at_log (s : t) (i : nat) : log (abort_at s i) = log s.
Proof. unfold abort_at. destruct (nth_error (executions s) i); reflexivity. Qed.

Lemma abort_at_nth (s : t) (i : nat) (x : Execution) :
  nth_error (executions s) i = Some x ->
  nth_error (executions (abort_at s i)) i = Some (abort x).
Proof.
  intros H. unfold abort_at. rewrite H. simpl.
  eapply nth_error_list_update_same; eassumption.
Qed.

(** ** The log is write-only *)

Lemma same_but_log_refl (s : t) : same_but_log s s.
Proof. repeat split. Qed.

Lemma same_emit (s1 s2 : t) (l1 l2 : list effect) :
  same_but_log s1 s2 -> same_but_log (emit s1 l1) (emit s2 l2).
Proof. intros (Hc & Ha & Hn & Hx). repeat split; simpl; assumption. Qed.

Lemma same_put (s1 s2 : t) (i : nat) (x : Execution) :
  same_but_log s1 s2 -> same_but_log (put s1 i x) (put s2 i x).
Proof. intros (Hc & Ha & Hn & Hx). repeat split; simpl; congruence. Qed.

Lemma same_delete_active (s1 s2 : t) (id : string) :
  same_but_log s1 s2 -> same_but_log (delete_active s1 id) (delete_active s2 id).
Proof. intros (Hc & Ha & Hn & Hx). repeat split; simpl; congruence. Qed.

Lemma same_abort_at (s1 s2 : t) (i : nat) :
  same_but_log s1 s2 -> same_but_log (abort_at s1 i) (abort_at s2 i).
Proof.
  intros H. unfold abort_at. destruct H as (Hc & Ha & Hn & Hx). rewrite Hx.
  destruct (nth_error (executions s2) i); [apply same_put |]; repeat split; assumption.
Qed.

Lemma same_finish (s1 s2 : t) (i : nat) (x : Execution) (o : outcome value) :
  same_but_log s1 s2 -> same_but_log (finish s1 i x o) (finish s2 i x o).
Proof. intros H. unfold finish. now apply same_delete_active, same_put. Qed.

Lemma same_cancelAll_loop (entries : list (string * nat)) :
  forall s1 s2, same_but_log s1 s2 ->
  same_but_log
    (fold_left (fun acc entry =>
                  emit (abort_at acc (snd entry)) [Event (onCancelled (fst entry))])
       entries s1)
    (fold_left (fun acc entry =>
                  emit (abort_at acc (snd entry)) [Event (onCancelled (fst entry))])
       entries s2).
Proof.
  induction entries as [| e rest IH]; intros s1 s2 H; simpl; [exact H |].
  apply IH. now apply same_emit, same_abort_at.
Qed.

Ltac same_step :=
  repeat first
    [ assumption
    | apply same_emit
    | apply same_put
    | apply same_finish
    | apply same_delete_active
    | apply same_abort_at ].

Lemma step_same_but_log (s1 s2 : t) (l : step_label) :
  same_but_log s1 s2 -> same_but_log (step s1 l) (step s2 l).
Proof.
  intros H. pose proof H as (Hc & Ha & Hn & Hx).
  destruct l as [toolName params baseContext options now | i r | i o | i | i | i r
                | id | | p]; simpl.
  - unfold execute_enter, new_execution. rewrite Hc, Ha, Hn, Hx.
    destruct (negb (Security.enabled (config s2))
              || negb (Security.sandboxExecution (config s2))); simpl;
      [now apply same_emit |].
    destruct (Z.of_nat (List.length (activeExecutions s2))
              >=? Security.maxConcurrentCalls (config s2)); simpl;
      [now apply same_emit |].
    repeat split; reflexivity.
  - unfold after_before. rewrite Hx.
    destruct (nth_error (executions s2) i) as [x |]; [| exact H].
    destruct (x_phase x); try exact H.
    destruct (if x_onBefore x then r else Resolved tt); simpl; same_step.
  - unfold tool_settles. rewrite Hx.
    destruct (nth_error (executions s2) i) as [x |]; [| exact H].
    destruct (x_toolPending x); same_step.
  - unfold timer_fires. rewrite Hx.
    destruct (nth_error (executions s2) i) as [x |]; [| exact H].
    destruct (x_timer x); simpl; same_step.
  - unfold resumes. rewrite Hx.
    destruct (nth_error (executions s2) i) as [x |]; [| exact H].
    destruct (x_phase x); try exact H.
    destruct (x_promise x) as [[result | e] |]; try exact H.
    + destruct (estimateSize result >? x_maxOutputSize x); simpl; same_step.
    + simpl; same_step.
  - unfold after_after. rewrite Hx.
    destruct (nth_error (executions s2) i) as [x |]; [| exact H].
    destruct (x_phase x); try exact H;
      destruct (if x_onAfter x then r else Resolved tt); simpl; same_step.
  - unfold cancel. rewrite Ha.
    destruct (prop_get id (activeExecutions s2)); simpl; same_step.
  - unfold cancelAll. rewrite Ha.
    pose proof (same_cancelAll_loop (activeExecutions s2) s1 s2 H) as (Hc' & _ & Hn' & Hx').
    repeat split; simpl; assumption.
  - repeat split; simpl; congruence.
Qed.

Lemma run_same_but_log (tr : list step_label) :
  forall s1 s2, same_but_log s1 s2 -> same_but_log (run s1 tr) (run s2 tr).
Proof.
  induction tr as [| l rest IH]; intros s1 s2 H; simpl; [exact H |].
  apply IH. now apply step_same_but_log.
Qed.

(** ** A call that settles in time *)

Lemma nth_put_same (s : t) (i : nat) (x y : Execution) :
  nth_error (executions s) i = Some y ->
  nth_error (executions (put s i x)) i = Some x.
Proof. intros H. simpl. eapply nth_error_list_update_same; eassumption. Qed.

Lemma nth_put_other (s : t) (i j : nat) (x : Execution) :
  i <> j -> nth_error (executions (put s i x)) j = nth_error (executions s) j.
Proof. intros H. simpl. now apply nth_error_list_update_other. Qed.

Lemma tool_settles_eq (s : t) (i : nat) (x : Execution) (o : outcome value) :
  nth_error (executions s) i = Some x -> x_toolPending x = true ->
  tool_settles s i o = put s i (on_settle x o).
Proof. intros Hx Hp. unfold tool_settles. now rewrite Hx, Hp. Qed.

Lemma resumes_value_eq (s : t) (i : nat) (x : Execution) (v : value) :
  nth_error (executions s) i = Some x ->
  x_phase x = Racing -> x_promise x = Some (Resolved v) ->
  estimateSize v <= x_maxOutputSize x ->
  resumes s i =
  emit (put s i (set_phase x (AwaitAfter v)))
    (if x_onAfter x then [AfterHookCalled (x_toolName x) v None] else []).
Proof.
  intros Hx Hphase Hpromise Hsize. unfold resumes.
  rewrite Hx, Hphase, Hpromise.
  assert (Hfits : (estimateSize v >? x_maxOutputSize x) = false)
    by (rewrite Z.gtb_ltb; apply Z.ltb_ge; exact Hsize).
  now rewrite Hfits.
Qed.

Lemma after_after_value_eq (s : t) (i : nat) (x : Execution) (v : value)
    (r : outcome unit) :
  nth_error (executions s) i = Some x ->
  x_phase x = AwaitAfter v -> (if x_onAfter x then r else Resolved tt) = Resolved tt ->
  after_after s i r = finish s i x (Resolved v).
Proof. intros Hx Hphase Hr. unfold after_after. now rewrite Hx, Hphase, Hr. Qed.

Lemma result_of_finish (s : t) (i : nat) (x y : Execution) (o : outcome value) :
  nth_error (executions s) i = Some y -> result_of (finish s i x o) i = Some o.
Proof.
  intros Hy. unfold result_of, finish. simpl.
  now rewrite (nth_error_list_update_same _ _ _ _ Hy).
Qed.

(** An invocation whose tool is still running and whose race is open
    returns the value the tool resolves with, if it passes the size check
    and the hook after it returns. *)
Lemma settles_then_resolves (s : t) (i : nat) (x : Execution) (v : value) :
  nth_error (executions s) i = Some x ->
  x_phase x = Racing -> x_toolPending x = true -> x_promise x = None ->
  estimateSize v <= x_maxOutputSize x ->
  result_of
    (run s [ToolSettles i (Resolved v); Resumes i; AfterHookReturns i (Resolved tt)])
    i = Some (Resolved v).
Proof.
  intros Hx Hphase Hpending Hpromise Hsize.
  unfold run. cbn [fold_left step].
  rewrite (tool_settles_eq s i x _ Hx Hpending).
  pose proof (nth_put_same s i (on_settle x (Resolved v)) x Hx) as H1.
  rewrite (resumes_value_eq _ i _ v H1); cycle 1.
  { exact Hphase. }
  { cbn. now rewrite Hpromise. }
  { exact Hsize. }
  set (x2 := set_phase (on_settle x (Resolved v)) (AwaitAfter v)).
  set (s2 := emit (put (put s i (on_settle x (Resolved v))) i x2) _).
  assert (H2 : nth_error (executions s2) i = Some x2)
    by (subst s2; cbn [executions emit with_state]; eapply nth_put_same; exact H1).
  rewrite (after_after_value_eq s2 i x2 v _ H2);
    [| reflexivity | now destruct (x_onAfter x2)].
  eapply result_of_finish. exact H2.
Qed.

(** ** What a step does to one invocation *)

Lemma abort_idempotent (x : Execution) : abort (abort x) = abort x.
Proof. unfold abort at 1. now rewrite abort_aborted. Qed.

Ltac other_index :=
  repeat match goal with
         | |- context [match ?e with _ => _ end] => destruct e
         end;
  cbn [executions emit put finish delete_active with_state fst snd
       enter_catch executeWithTimeout_start on_timeout];
  try reflexivity;
  try (apply nth_error_list_update_other; assumption).

Lemma after_before_other (s : t) (i j : nat) (r : outcome unit) :
  i <> j -> nth_error (executions (after_before s i r)) j = nth_error (executions s) j.
Proof. intros H. unfold after_before. other_index. Qed.

Lemma tool_settles_other (s : t) (i j : nat) (o : outcome value) :
  i <> j -> nth_error (executions (tool_settles s i o)) j = nth_error (executions s) j.
Proof. intros H. unfold tool_settles. other_index. Qed.

Lemma timer_fires_other (s : t) (i j : nat) :
  i <> j -> nth_error (executions (timer_fires s i)) j = nth_error (executions s) j.
Proof. intros H. unfold timer_fires. other_index. Qed.

Lemma resumes_other (s : t) (i j : nat) :
  i <> j -> nth_error (executions (resumes s i)) j = nth_error (executions s) j.
Proof. intros H. unfold resumes. other_index. Qed.

Lemma after_after_other (s : t) (i j : nat) (r : outcome unit) :
  i <> j -> nth_error (executions (after_after s i r)) j = nth_error (executions s) j.
Proof. intros H. unfold after_after. other_index. Qed.

Lemma abort_at_other (s : t) (i j : nat) :
  i <> j -> nth_error (executions (abort_at s i)) j = nth_error (executions s) j.
Proof. intros H. unfold abort_at. other_index. Qed.

Lemma abort_at_cases (s : t) (i j : nat) (x : Execution) :
  nth_error (executions s) j = Some x ->
  nth_error (executions (abort_at s i)) j = Some x
  \/ nth_error (executions (abort_at s i)) j = Some (abort x).
Proof.
  intros Hx. destruct (Nat.eq_dec i j) as [-> | Hne].
  - right. now apply abort_at_nth.
  - left. now rewrite abort_at_other.
Qed.

Lemma cancelAll_loop_cases (entries : list (string * nat)) (j : nat) (x : Execution) :
  forall s,
  nth_error (executions s) j = Some x \/ nth_error (executions s) j = Some (abort x) ->
  let s' := fold_left (fun acc entry =>
                         emit (abort_at acc (snd entry)) [Event (onCancelled (fst entry))])
              entries s in
  nth_error (executions s') j = Some x \/ nth_error (executions s') j = Some (abort x).
Proof.
  induction entries as [| e rest IH]; intros s H; cbn [fold_left]; [exact H |].
  apply IH. cbn [executions emit with_state].
  destruct H as [H | H].
  - now apply abort_at_cases.
  - right. destruct (abort_at_cases s (snd e) j _ H) as [H' | H'];
      [exact H' | now rewrite abort_idempotent in H'].
Qed.

Lemma step_moves (s : t) (l : step_label) (j : nat) (x : Execution) :
  nth_error (executions s) j = Some x ->
  exists x', nth_error (executions (step s l)) j = Some x' /\ Spec.moves j l x x'.
Proof.
  intros Hx.
  destruct l as [toolName params baseContext options now | i r | i o | i | i | i r
                | id | | p]; cbn [step].
  - exists x. split; [| constructor].
    unfold execute_enter.
    destruct (negb (Security.enabled (config s))
              || negb (Security.sandboxExecution (config s))); [exact Hx |].
    destruct (Z.of_nat (List.length (activeExecutions s))
              >=? Security.maxConcurrentCalls (config s)); [exact Hx |].
    cbn [fst executions]. rewrite nth_error_app1; [exact Hx |].
    apply nth_error_Some. congruence.
  - destruct (Nat.eq_dec i j) as [-> | Hne];
      [| exists x; split; [now rewrite after_before_other | constructor]].
    unfold after_before. rewrite Hx.
    destruct (x_phase x) eqn:Hphase; try (exists x; split; [exact Hx | constructor]).
    destruct (if x_onBefore x then r else Resolved tt) as [[] | e] eqn:Hr.
    + eexists. split; [eapply nth_put_same; exact Hx | now apply Spec.mv_start].
    + eexists. split; [eapply nth_put_same; exact Hx | now apply Spec.mv_before_throws].
  - destruct (Nat.eq_dec i j) as [-> | Hne];
      [| exists x; split; [now rewrite tool_settles_other | constructor]].
    unfold tool_settles. rewrite Hx.
    destruct (x_toolPending x) eqn:Hp; [| exists x; split; [exact Hx | constructor]].
    eexists. split; [eapply nth_put_same; exact Hx | now apply Spec.mv_settle].
  - destruct (Nat.eq_dec i j) as [-> | Hne];
      [| exists x; split; [now rewrite timer_fires_other | constructor]].
    unfold timer_fires. rewrite Hx.
    destruct (x_timer x) eqn:Ht; try (exists x; split; [exact Hx | constructor]).
    eexists. split; [eapply nth_put_same; exact Hx | now apply Spec.mv_timeout].
  - destruct (Nat.eq_dec i j) as [-> | Hne];
      [| exists x; split; [now rewrite resumes_other | constructor]].
    unfold resumes. rewrite Hx.
    destruct (x_phase x) eqn:Hphase; try (exists x; split; [exact Hx | constructor]).
    destruct (x_promise x) as [[result | e] |] eqn:Hpromise;
      [| | exists x; split; [exact Hx | constructor]].
    + destruct (estimateSize result >? x_maxOutputSize x) eqn:Hsize.
      * eexists. split; [eapply nth_put_same; exact Hx |].
        eapply Spec.mv_resume_oversize; eassumption.
      * eexists. split; [eapply nth_put_same; exact Hx |].
        eapply Spec.mv_resume_value; eassumption.
    + eexists. split; [eapply nth_put_same; exact Hx |].
      eapply Spec.mv_resume_error; eassumption.
  - destruct (Nat.eq_dec i j) as [-> | Hne];
      [| exists x; split; [now rewrite after_after_other | constructor]].
    unfold after_after. rewrite Hx.
    destruct (x_phase x) eqn:Hphase; try (exists x; split; [exact Hx | constructor]);
      destruct (if x_onAfter x then r else Resolved tt) as [[] | e'] eqn:Hr.
    + eexists. split; [eapply nth_put_same; exact Hx | eapply Spec.mv_return; eassumption].
    + eexists. split; [eapply nth_put_same; exact Hx | eapply Spec.mv_after_throws; eassumption].
    + eexists. split; [eapply nth_put_same; exact Hx | eapply Spec.mv_rethrow; eassumption].
    + eexists. split; [eapply nth_put_same; exact Hx | eapply Spec.mv_catch_throws; eassumption].
  - unfold cancel. destruct (prop_get id (activeExecutions s)) as [c |];
      [| exists x; split; [exact Hx | constructor]].
    cbn [snd executions emit delete_active with_state].
    destruct (abort_at_cases s c j x Hx) as [H | H];
      eexists; (split; [exact H | constructor]).
  - unfold cancelAll. cbn [executions with_state].
    destruct (cancelAll_loop_cases (activeExecutions s) j x s (or_introl Hx)) as [H | H];
      eexists; (split; [exact H | constructor]).
  - exists x. split; [exact Hx | constructor].
Qed.

Lemma abort_static (x : Execution) :
  x_onAfter (abort x) = x_onAfter x
  /\ x_timeoutMs (abort x) = x_timeoutMs x
  /\ x_maxOutputSize (abort x) = x_maxOutputSize x
  /\ x_toolName (abort x) = x_toolName x.
Proof.
  unfold abort. destruct (x_aborted x); [repeat split |].
  destruct (x_listener x); repeat split.
Qed.

(** No step changes what an invocation was started with. *)
Lemma moves_static (i : nat) (l : step_label) (x x' : Execution) :
  Spec.moves i l x x' ->
  x_id x' = x_id x
  /\ x_onAfter x' = x_onAfter x
  /\ x_timeoutMs x' = x_timeoutMs x
  /\ x_maxOutputSize x' = x_maxOutputSize x
  /\ x_toolName x' = x_toolName x.
Proof.
  intros H. destruct H; cbn; try (repeat split; reflexivity);
    (split; [apply abort_id | apply abort_static]).
Qed.

(** ** The race is settled once *)

Lemma abort_settled (x : Execution) (o : outcome value) :
  x_promise x = Some o -> x_promise (abort x) = Some o.
Proof.
  intros H. unfold abort. destruct (x_aborted x); [exact H |].
  destruct (x_listener x); cbn; rewrite H; reflexivity.
Qed.

Lemma abort_not_armed (x : Execution) :
  x_timer x <> Armed -> x_timer (abort x) <> Armed.
Proof.
  intros H. unfold abort. destruct (x_aborted x); [exact H |].
  destruct (x_listener x); cbn; [| exact H].
  destruct (x_timer x); cbn; congruence.
Qed.

Lemma abort_fired (x : Execution) : x_timer x = Fired -> x_timer (abort x) = Fired.
Proof.
  intros H. unfold abort. destruct (x_aborted x); [exact H |].
  destruct (x_listener x); cbn; rewrite H; reflexivity.
Qed.

Lemma moves_settled (i : nat) (l : step_label) (x x' : Execution) (o : outcome value) :
  Spec.moves i l x x' -> settled o x -> settled o x'.
Proof.
  intros H (Hphase & Hpromise & Htimer).
  destruct H; unfold settled; cbn; try congruence;
    try (repeat split; (congruence || discriminate)).
  - split; [exact Hphase |]. split; [now rewrite Hpromise |].
    destruct (x_timer x); cbn; congruence.
  - split; [now rewrite abort_phase |].
    split; [now apply abort_settled | now apply abort_not_armed].
  - split; [now rewrite abort_phase |].
    split; [now apply abort_settled | now apply abort_not_armed].
Qed.

Lemma run_settled (i : nat) (o : outcome value) (tr : list step_label) :
  forall s x,
  nth_error (executions s) i = Some x -> settled o x ->
  exists x', nth_error (executions (run s tr)) i = Some x' /\ settled o x'.
Proof.
  induction tr as [| l rest IH]; intros s x Hx Hs; cbn [run fold_left].
  - now exists x.
  - destruct (step_moves s l i x Hx) as (x1 & Hx1 & Hmv).
    apply (IH (step s l) x1 Hx1). eapply moves_settled; eassumption.
Qed.

(** ** After the timer has won *)

Lemma failing_weaken (e0 : error) (P Q : error -> Prop) (x : Execution) :
  (forall e, P e -> Q e) -> Spec.failing e0 P x -> Spec.failing e0 Q x.
Proof.
  intros HPQ. unfold Spec.failing.
  destruct (x_phase x) as [ | | result | e | [v | e]]; auto;
    intros []; auto.
Qed.

Lemma hook_rejected (b : bool) (r : outcome unit) (e : error) :
  (if b then r else Resolved tt) = Rejected e -> b = true /\ r = Rejected e.
Proof. destruct b; [auto | discriminate]. Qed.

Lemma moves_failing (i : nat) (l : step_label) (x x' : Execution) (e0 : error)
    (thrown : error -> Prop) :
  Spec.moves i l x x' -> Spec.failing e0 thrown x ->
  Spec.failing e0
    (fun e => thrown e \/ (x_onAfter x = true /\ l = AfterHookReturns i (Rejected e)))
    x'.
Proof.
  intros H Hf.
  assert (Hkeep : forall y, x_phase y = x_phase x ->
                  (forall o, x_promise x = Some o -> x_promise y = Some o) ->
                  Spec.failing e0
                    (fun e => thrown e
                              \/ (x_onAfter x = true /\ l = AfterHookReturns i (Rejected e)))
                    y).
  { intros y Hphase Hpromise. unfold Spec.failing in *. rewrite Hphase.
    destruct (x_phase x) as [ | | result | e | [v | e]]; auto; tauto. }
  destruct H as [l x | r x Hp Hr | r e x Hp Hr | o x Hpend | x Harmed
                | x result Hp Hv Hsz | x result Hp Hv Hsz | x e Hp Hv
                | x result r Hp Hr | x result r e Hp Hr | x e r Hp Hr
                | x e r e' Hp Hr | id x | x];
    try (unfold Spec.failing in Hf; rewrite Hp in Hf; try contradiction).
  - apply Hkeep; auto.
  - apply Hkeep; [reflexivity |]. intros o' Ho. cbn. now rewrite Ho.
  - apply Hkeep; [reflexivity |]. intros o' Ho. cbn. now rewrite Ho.
  - congruence.
  - congruence.
  - unfold Spec.failing. cbn. left. congruence.
  - unfold Spec.failing. cbn. tauto.
  - unfold Spec.failing. cbn. right. right.
    apply hook_rejected in Hr. destruct Hr as [Hb ->]. auto.
  - apply Hkeep; [apply abort_phase |]. intros o. apply abort_settled.
  - apply Hkeep; [apply abort_phase |]. intros o. apply abort_settled.
Qed.

Lemma run_failing (i : nat) (e0 : error) (tr : list step_label) :
  forall s x thrown,
  nth_error (executions s) i = Some x -> Spec.failing e0 thrown x ->
  exists x',
    nth_error (executions (run s tr)) i = Some x'
    /\ Spec.failing e0
         (fun e => thrown e
                   \/ (x_onAfter x = true /\ In (AfterHookReturns i (Rejected e)) tr))
         x'.
Proof.
  induction tr as [| l rest IH]; intros s x thrown Hx Hf; cbn [run fold_left].
  - exists x. split; [exact Hx |]. eapply failing_weaken; [| exact Hf]. auto.
  - destruct (step_moves s l i x Hx) as (x1 & Hx1 & Hmv).
    pose proof (moves_failing i l x x1 e0 thrown Hmv Hf) as Hf1.
    destruct (moves_static i l x x1 Hmv) as (_ & Hafter & _).
    destruct (IH (step s l) x1 _ Hx1 Hf1) as (x' & Hx' & Hf').
    exists x'. split; [exact Hx' |].
    eapply failing_weaken; [| exact Hf']. cbn.
    intros e [[H | [H1 H2]] | [H1 H2]].
    + now left.
    + right. split; [exact H1 | left; now symmetry].
    + right. split; [congruence | now right].
Qed.

(** ** Invariants of the invocations *)

Ltac same_length :=
  repeat match goal with
         | |- context [match ?e with _ => _ end] => destruct e
         end;
  cbn [executions emit put finish delete_active with_state fst snd
       enter_catch executeWithTimeout_start on_timeout];
  rewrite ?length_list_update; reflexivity.

Lemma abort_at_length (s : t) (i : nat) :
  List.length (executions (abort_at s i)) = List.length (executions s).
Proof. unfold abort_at. same_length. Qed.

Lemma cancelAll_loop_length (entries : list (string * nat)) :
  forall s,
  List.length
    (executions
       (fold_left (fun acc entry =>
                     emit (abort_at acc (snd entry)) [Event (onCancelled (fst entry))])
          entries s))
  = List.length (executions s).
Proof.
  induction entries as [| e rest IH]; intros s; cbn [fold_left]; [reflexivity |].
  rewrite IH. cbn [executions emit with_state]. apply abort_at_length.
Qed.

(** Only [execute] adds an invocation, and it adds [new_execution]. *)
Lemma step_fresh (s : t) (l : step_label) (j : nat) (y : Execution) :
  nth_error (executions s) j = None ->
  nth_error (executions (step s l)) j = Some y ->
  exists toolName params baseContext options now,
    l = Execute toolName params baseContext options now
    /\ y = new_execution s toolName params baseContext options now
    /\ j = List.length (executions s)
    /\ activeExecutions (step s l) = prop_set (x_id y) j (activeExecutions s)
    /\ executionCount (step s l) = S (executionCount s).
Proof.
  intros Hnone Hsome.
  assert (Hlen : forall s', List.length (executions s') = List.length (executions s) ->
                            nth_error (executions s') j = Some y -> False).
  { intros s' Hl Hy. apply nth_error_None in Hnone.
    assert (j < List.length (executions s'))%nat by (apply nth_error_Some; congruence).
    lia. }
  destruct l as [toolName params baseContext options now | i r | i o | i | i | i r
                | id | | p]; cbn [step] in *.
  - exists toolName, params, baseContext, options, now.
    unfold execute_enter in *.
    destruct (negb (Security.enabled (config s))
              || negb (Security.sandboxExecution (config s)));
      [exfalso; eapply Hlen; [| exact Hsome]; reflexivity |].
    destruct (Z.of_nat (List.length (activeExecutions s))
              >=? Security.maxConcurrentCalls (config s));
      [exfalso; eapply Hlen; [| exact Hsome]; reflexivity |].
    cbn [fst executions activeExecutions executionCount] in *.
    apply nth_error_None in Hnone.
    assert (Hj : (j < List.length (executions s
                      ++ [new_execution s toolName params baseContext options now]))%nat)
      by (apply nth_error_Some; congruence).
    rewrite length_app in Hj. cbn in Hj.
    assert (j = List.length (executions s)) by lia. subst j.
    rewrite nth_error_app2, Nat.sub_diag in Hsome by lia.
    cbn in Hsome. injection Hsome as <-.
    repeat split; reflexivity.
  - exfalso. eapply Hlen; [| exact Hsome]. unfold after_before. same_length.
  - exfalso. eapply Hlen; [| exact Hsome]. unfold tool_settles. same_length.
  - exfalso. eapply Hlen; [| exact Hsome]. unfold timer_fires. same_length.
  - exfalso. eapply Hlen; [| exact Hsome]. unfold resumes. same_length.
  - exfalso. eapply Hlen; [| exact Hsome]. unfold after_after. same_length.
  - exfalso. eapply Hlen; [| exact Hsome]. unfold cancel.
    destruct (prop_get id (activeExecutions s)); [| reflexivity].
    cbn [snd executions emit delete_active with_state]. apply abort_at_length.
  - exfalso. eapply Hlen; [| exact Hsome]. unfold cancelAll.
    cbn [executions with_state]. apply cancelAll_loop_length.
  - exfalso. eapply Hlen; [| exact Hsome]. reflexivity.
Qed.

(** A property of single invocations that holds when they are set up and
    is kept by every move holds throughout. *)
Lemma invocations_invariant (P : Execution -> Prop) :
  (forall s toolName params baseContext options now,
      P (new_execution s toolName params baseContext options now)) ->
  (forall i l x x', Spec.moves i l x x' -> P x -> P x') ->
  forall p tr j y,
    nth_error (executions (run (new p) tr)) j = Some y -> P y.
Proof.
  intros Hnew Hmove p tr.
  assert (Hgen : forall s, (forall j y, nth_error (executions s) j = Some y -> P y) ->
                 forall j y, nth_error (executions (run s tr)) j = Some y -> P y).
  { induction tr as [| l rest IH]; intros s Hs j y Hy; cbn [run fold_left] in Hy.
    - eapply Hs; eassumption.
    - apply (IH (step s l)) with (j := j); [| exact Hy].
      intros k z Hz. destruct (nth_error (executions s) k) as [x |] eqn:Hk.
      + destruct (step_moves s l k x Hk) as (x' & Hx' & Hmv).
        rewrite Hz in Hx'. injection Hx' as <-.
        eapply Hmove; [exact Hmv | eapply Hs; exact Hk].
      + destruct (step_fresh s l k z Hk Hz) as (tn & pa & bc & op & nw & _ & -> & _).
        apply Hnew. }
  apply Hgen. intros j y Hy. destruct j; discriminate.
Qed.

(** While the timer is armed the invocation is in the race and the race is
    open. *)
Lemma armed_is_racing (p : Security.PartialConfig) (tr : list step_label)
    (i : nat) (x : Execution) :
  nth_error (executions (run (new p) tr)) i = Some x ->
  x_timer x = Armed -> x_phase x = Racing /\ x_promise x = None.
Proof.
  revert p tr i x.
  apply (invocations_invariant
           (fun x => x_timer x = Armed -> x_phase x = Racing /\ x_promise x = None)).
  - intros s toolName params baseContext options now H. discriminate.
  - intros i l x x' Hmv IH.
    destruct Hmv as [l x | r x Hp Hr | r e x Hp Hr | o x Hpend | x Harmed
                    | x result Hp Hv Hsz | x result Hp Hv Hsz | x e Hp Hv
                    | x result r Hp Hr | x result r e Hp Hr | x e r Hp Hr
                    | x e r e' Hp Hr | id x | x]; cbn; intros Ht;
      try (exact (IH Ht));
      try discriminate;
      try (destruct (IH Ht) as [H1 H2]; congruence).
    + split; reflexivity.
    + destruct (x_timer x); discriminate.
    + unfold abort in *. destruct (x_aborted x); [exact (IH Ht) |].
      destruct (x_listener x); cbn in *; [destruct (x_timer x); discriminate |].
      exact (IH Ht).
    + unfold abort in *. destruct (x_aborted x); [exact (IH Ht) |].
      destruct (x_listener x); cbn in *; [destruct (x_timer x); discriminate |].
      exact (IH Ht).
Qed.

Lemma failing_result (s : t) (i : nat) (x : Execution) (e0 : error)
    (thrown : error -> Prop) (o : outcome value) :
  nth_error (executions s) i = Some x -> Spec.failing e0 thrown x ->
  result_of s i = Some o -> exists e, o = Rejected e /\ (e = e0 \/ thrown e).
Proof.
  intros Hx Hf Hr. unfold result_of in Hr. rewrite Hx in Hr.
  unfold Spec.failing in Hf.
  destruct (x_phase x) as [ | | result | e | [v | e]]; try discriminate;
    try contradiction.
  injection Hr as <-. now exists e.
Qed.







(** ** Execution ids *)

Lemma no_dash_uint (d : Decimal.uint) : Spec.no_dash (NilEmpty.string_of_uint d).
Proof. induction d; cbn; try exact I; (split; [discriminate | assumption]). Qed.

Lemma no_dash_split (a a' r r' : string) :
  Spec.no_dash a -> Spec.no_dash a' ->
  (a ++ String "-" r)%string = (a' ++ String "-" r')%string -> a = a'.
Proof.
  revert a'. induction a as [| c a IH]; intros [| c' a'] Ha Ha' H; cbn in *.
  - reflexivity.
  - injection H as H _. destruct Ha' as [Hc _]. congruence.
  - injection H as H _. destruct Ha as [Hc _]. congruence.
  - injection H as -> H. f_equal. apply IH; tauto.
Qed.

Lemma dec_nat_inj (n m : nat) : dec_nat n = dec_nat m -> n = m.
Proof.
  unfold dec_nat. intros H.
  assert (H' : Nat.to_uint n = Nat.to_uint m).
  { apply (f_equal NilEmpty.uint_of_string) in H.
    rewrite !NilEmpty.usu in H. now injection H. }
  apply (f_equal Nat.of_uint) in H'.
  now rewrite !DecimalNat.Unsigned.of_to in H'.
Qed.

(** Ids made from different counts differ. *)
Lemma make_id_inj (n m : nat) (t1 t2 : Z) : make_id n t1 = make_id m t2 -> n = m.
Proof.
  unfold make_id. intros H. cbn in H.
  repeat (injection H as H).
  apply dec_nat_inj.
  eapply no_dash_split; [apply no_dash_uint | apply no_dash_uint | exact H].
Qed.

(** ** No id outlives its invocation *)

Lemma abort_at_count (s : t) (i : nat) : executionCount (abort_at s i) = executionCount s.
Proof. unfold abort_at. destruct (nth_error (executions s) i); reflexivity. Qed.

Lemma cancelAll_loop_count (entries : list (string * nat)) :
  forall s,
  executionCount
    (fold_left (fun acc entry =>
                  emit (abort_at acc (snd entry)) [Event (onCancelled (fst entry))])
       entries s)
  = executionCount s.
Proof.
  induction entries as [| e rest IH]; intros s; cbn [fold_left]; [reflexivity |].
  rewrite IH. cbn [executionCount emit with_state]. apply abort_at_count.
Qed.

Ltac same_field :=
  repeat match goal with
         | |- context [match ?e with _ => _ end] => destruct e
         end;
  cbn; rewrite ?abort_at_count, ?abort_at_active; auto.

Lemma step_count (s : t) (l : step_label) :
  (executionCount s <= executionCount (step s l))%nat.
Proof.
  destruct l as [toolName params baseContext options now | i r | i o | i | i | i r
                | id | | p]; cbn [step].
  - unfold execute_enter. same_field.
  - unfold after_before. same_field.
  - unfold tool_settles. same_field.
  - unfold timer_fires. same_field.
  - unfold resumes. same_field.
  - unfold after_after. same_field.
  - unfold cancel. same_field.
  - unfold cancelAll. cbn [executionCount with_state].
    now rewrite cancelAll_loop_count.
  - reflexivity.
Qed.

Ltac keys_kept :=
  repeat match goal with
         | |- context [match ?e with _ => _ end] => destruct e
         end;
  cbn [activeExecutions emit put finish delete_active with_state fst snd
       enter_catch executeWithTimeout_start on_timeout];
  rewrite ?abort_at_active, ?map_delete_keys; tauto.

(** A step adds no key to the active set, except [execute] its new id. *)
Lemma step_active_keys (s : t) (l : step_label) (k : string) :
  In k (getActiveExecutionIds (step s l)) ->
  In k (getActiveExecutionIds s)
  \/ exists now, k = make_id (S (executionCount s)) now.
Proof.
  unfold getActiveExecutionIds.
  destruct l as [toolName params baseContext options now | i r | i o | i | i | i r
                | id | | p]; cbn [step].
  - unfold execute_enter.
    destruct (negb (Security.enabled (config s))
              || negb (Security.sandboxExecution (config s))); [tauto |].
    destruct (Z.of_nat (List.length (activeExecutions s))
              >=? Security.maxConcurrentCalls (config s)); [tauto |].
    cbn [fst activeExecutions]. rewrite prop_set_keys.
    intros [-> | H]; [right; now exists now | now left].
  - left. revert H. unfold after_before. keys_kept.
  - left. revert H. unfold tool_settles. keys_kept.
  - left. revert H. unfold timer_fires. keys_kept.
  - left. revert H. unfold resumes. keys_kept.
  - left. revert H. unfold after_after. keys_kept.
  - left. revert H. unfold cancel. keys_kept.
  - intros []. 
  - now left.
Qed.

Lemma becomes_done (i : nat) (l : step_label) (x x' : Execution) (o : outcome value) :
  Spec.moves i l x x' -> x_phase x' = Done o ->
  (exists o', x_phase x = Done o') \/ exists r, l = AfterHookReturns i r.
Proof.
  intros H Hd.
  destruct H; cbn in Hd; try discriminate;
    try (right; eexists; reflexivity);
    try (left; eexists; eassumption);
    (rewrite abort_phase in Hd; left; eexists; eassumption).
Qed.

Lemma after_after_done (s : t) (i : nat) (r : outcome unit) (x x' : Execution)
    (o : outcome value) :
  nth_error (executions s) i = Some x ->
  (forall o', x_phase x <> Done o') ->
  nth_error (executions (after_after s i r)) i = Some x' ->
  x_phase x' = Done o ->
  ~ In (x_id x) (getActiveExecutionIds (after_after s i r)).
Proof.
  unfold getActiveExecutionIds, after_after. intros Hx Hnot. rewrite Hx.
  destruct (x_phase x) eqn:Hphase;
    try (intros H1 H2; rewrite Hx in H1; injection H1 as <-; congruence);
    destruct (if x_onAfter x then r else Resolved tt);
    cbn [executions activeExecutions emit put finish delete_active with_state
         enter_catch];
    try (intros _ _; rewrite map_delete_keys; tauto).
  - rewrite (nth_error_list_update_same _ _ _ _ Hx). intros H1 H2.
    injection H1 as <-. discriminate.
Qed.

Lemma invariants_step (s : t) (l : step_label) :
  Spec.ids_ok s -> Spec.done_removed s ->
  Spec.ids_ok (step s l) /\ Spec.done_removed (step s l).
Proof.
  intros Hids Hdone. split.
  - intros j y Hy. destruct (nth_error (executions s) j) as [x |] eqn:Hx.
    + destruct (step_moves s l j x Hx) as (x' & Hx' & Hmv).
      rewrite Hy in Hx'. injection Hx' as <-.
      destruct (Hids j x Hx) as (n & now & Hid & Hle).
      exists n, now. split; [| pose proof (step_count s l); lia].
      destruct (moves_static j l x y Hmv) as (-> & _). exact Hid.
    + destruct (step_fresh s l j y Hx Hy)
        as (tn & pa & bc & op & nw & _ & -> & _ & _ & Hc).
      exists (S (executionCount s)), nw. split; [reflexivity | lia].
  - intros j y o Hy Hphase Hin.
    destruct (nth_error (executions s) j) as [x |] eqn:Hx.
    + destruct (step_moves s l j x Hx) as (x' & Hx' & Hmv).
      rewrite Hy in Hx'. injection Hx' as <-.
      destruct (moves_static j l x y Hmv) as (Hid & _).
      destruct (becomes_done j l x y o Hmv Hphase) as [(o' & Hwas) | (r & ->)].
      * destruct (step_active_keys s l _ Hin) as [Hold | (nw & Hnew)].
        -- rewrite Hid in Hold. eapply Hdone; eassumption.
        -- destruct (Hids j x Hx) as (n & now & Hn & Hle).
           rewrite Hid, Hn in Hnew. apply make_id_inj in Hnew. lia.
      * destruct (x_phase x) as [ | | result | e | o'] eqn:Hwas.
        5:{ destruct (step_active_keys s _ _ Hin) as [Hold | (nw & Hnew)].
            - rewrite Hid in Hold. eapply Hdone; eassumption.
            - destruct (Hids j x Hx) as (n & now & Hn & Hle).
              rewrite Hid, Hn in Hnew. apply make_id_inj in Hnew. lia. }
        all: rewrite Hid in Hin;
          eapply (after_after_done s j r x y o Hx); try eassumption;
          intros o'; congruence.
    + destruct (step_fresh s l j y Hx Hy)
        as (tn & pa & bc & op & nw & _ & -> & _).
      discriminate.
Qed.

Lemma invariants_run (tr : list step_label) :
  forall s, Spec.ids_ok s -> Spec.done_removed s ->
  Spec.ids_ok (run s tr) /\ Spec.done_removed (run s tr).
Proof.
  induction tr as [| l rest IH]; intros s H1 H2; cbn [run fold_left]; [auto |].
  destruct (invariants_step s l H1 H2). now apply IH.
Qed.

(** C6. In every state the sandbox can reach, an invocation of [execute]
    that has completed, with whatever outcome, has its execution id out of
    the active set: [getActiveExecutionIds] does not report it. *)
Theorem finished_execution_not_active (p : Security.PartialConfig)
    (tr : list step_label) (i : nat) (o : outcome value)
    (Hdone : result_of (run (new p) tr) i = Some o) :
  exists x,
    nth_error (executions (run (new p) tr)) i = Some x
    /\ x_phase x = Done o
    /\ ~ In (x_id x) (getActiveExecutionIds (run (new p) tr)).
Proof.
  unfold result_of in Hdone.
  destruct (nth_error (executions (run (new p) tr)) i) as [x |] eqn:Hx;
    [| discriminate].
  destruct (x_phase x) as [ | | result | e | o'] eqn:Hphase; try discriminate.
  injection Hdone as ->.
  exists x. split; [reflexivity |]. split; [exact Hphase |].
  destruct (invariants_run tr (new p)) as [_ Hd].
  - intros j y Hy. destruct j; discriminate.
  - intros j y o' Hy. destruct j; discriminate.
  - eapply Hd; eassumption.
Qed.

Lemma finished_execution_not_active_witness :
  result_of (run (new Security.empty) Sample.returns_null) 0
  = Some (Resolved VNull)
  /\ exists x,
      nth_error (executions (run (new Security.empty) Sample.returns_null)) 0
      = Some x
      /\ x_phase x = Done (Resolved VNull)
      /\ ~ In (x_id x)
             (getActiveExecutionIds (run (new Security.empty) Sample.returns_null)).
Proof.
  split; [reflexivity |].
  apply (finished_execution_not_active Security.empty Sample.returns_null 0
           (Resolved VNull)).
  reflexivity.
Defined.

(** The keys of the active set are distinct in every state the sandbox can
    reach. *)
Lemma active_ids_distinct (p : Security.PartialConfig) (tr : list step_label) :
  NoDup (getActiveExecutionIds (run (new p) tr)).
Proof.
  assert (Hgen : forall s, NoDup (getActiveExecutionIds s) ->
                           NoDup (getActiveExecutionIds (run s tr))).
  { unfold getActiveExecutionIds.
    induction tr as [| l rest IH]; intros s Hs; cbn [run fold_left]; [exact Hs |].
    apply IH.
    destruct l as [toolName params baseContext options now | i r | i o | i | i | i r
                  | id | | q]; cbn [step].
    - unfold execute_enter.
      destruct (negb (Security.enabled (config s))
                || negb (Security.sandboxExecution (config s))); [exact Hs |].
      destruct (Z.of_nat (List.length (activeExecutions s))
                >=? Security.maxConcurrentCalls (config s)); [exact Hs |].
      cbn [fst activeExecutions]. now apply prop_set_NoDup.
    - unfold after_before.
      repeat match goal with
             | |- context [match ?e with _ => _ end] => destruct e
             end; exact Hs.
    - unfold tool_settles.
      repeat match goal with
             | |- context [match ?e with _ => _ end] => destruct e
             end; exact Hs.
    - unfold timer_fires.
      repeat match goal with
             | |- context [match ?e with _ => _ end] => destruct e
             end; exact Hs.
    - unfold resumes.
      repeat match goal with
             | |- context [match ?e with _ => _ end] => destruct e
             end; exact Hs.
    - unfold after_after.
      repeat match goal with
             | |- context [match ?e with _ => _ end] => destruct e
             end;
        cbn [activeExecutions emit put finish delete_active with_state fst snd
             enter_catch];
        try exact Hs; now apply map_delete_NoDup.
    - unfold cancel. destruct (prop_get id (activeExecutions s)); [| exact Hs].
      cbn [snd activeExecutions emit delete_active with_state].
      rewrite abort_at_active. now apply map_delete_NoDup.
    - constructor.
    - exact Hs. }
  apply Hgen. constructor.
Qed.

(** ** The entries of the active set *)

Lemma prop_get_map_delete {V : Type} (k k' : string) (v : V) (m : list (string * V)) :
  prop_get k (map_delete k' m) = Some v -> prop_get k m = Some v.
Proof.
  induction m as [| [k0 v0] rest IH]; cbn; [discriminate |].
  destruct (String.eqb_spec k0 k') as [-> | Hne]; cbn.
  - intros H. destruct (String.eqb_spec k' k) as [-> | Hne'].
    + exfalso. assert (Hin : In k (map fst (map_delete k rest)))
        by (apply prop_get_In; now exists v).
      apply map_delete_keys in Hin. tauto.
    + now apply IH.
  - destruct (String.eqb_spec k0 k); [auto | apply IH].
Qed.

Ltac gets_kept :=
  repeat match goal with
         | |- context [match ?e with _ => _ end] => destruct e
         end;
  cbn [activeExecutions emit put finish delete_active with_state fst snd
       enter_catch executeWithTimeout_start on_timeout];
  rewrite ?abort_at_active; try (intros H; exact H);
  try (apply prop_get_map_delete).

(** A step adds no entry to the active set, except [execute] the entry of
    the invocation it sets up. *)
Lemma step_active_get (s : t) (l : step_label) (id : string) (i : nat) :
  prop_get id (activeExecutions (step s l)) = Some i ->
  prop_get id (activeExecutions s) = Some i
  \/ exists x, nth_error (executions (step s l)) i = Some x /\ x_id x = id.
Proof.
  destruct l as [toolName params baseContext options now | j r | j o | j | j | j r
                | id' | | p]; cbn [step].
  - unfold execute_enter.
    destruct (negb (Security.enabled (config s))
              || negb (Security.sandboxExecution (config s))); [now left |].
    destruct (Z.of_nat (List.length (activeExecutions s))
              >=? Security.maxConcurrentCalls (config s)); [now left |].
    cbn [fst activeExecutions executions].
    set (x := new_execution s toolName params baseContext options now).
    destruct (string_dec (x_id x) id) as [<- | Hne].
    + rewrite prop_get_set_same. intros H. injection H as <-.
      right. exists x. split; [| reflexivity].
      now rewrite nth_error_app2, Nat.sub_diag by lia.
    + rewrite prop_get_set_other by exact Hne. now left.
  - left. revert H. unfold after_before. gets_kept.
  - left. revert H. unfold tool_settles. gets_kept.
  - left. revert H. unfold timer_fires. gets_kept.
  - left. revert H. unfold resumes. gets_kept.
  - left. revert H. unfold after_after. gets_kept.
  - left. revert H. unfold cancel. gets_kept.
  - discriminate.
  - now left.
Qed.

Lemma active_valid_step (s : t) (l : step_label) :
  Spec.active_valid s -> Spec.active_valid (step s l).
Proof.
  intros Hs id i Hget.
  destruct (step_active_get s l id i Hget) as [Hold | Hnew]; [| exact Hnew].
  destruct (Hs id i Hold) as (x & Hx & Hid).
  destruct (step_moves s l i x Hx) as (x' & Hx' & Hmv).
  exists x'. split; [exact Hx' |].
  destruct (moves_static i l x x' Hmv) as (-> & _). exact Hid.
Qed.

Lemma active_valid_run (p : Security.PartialConfig) (tr : list step_label) :
  Spec.active_valid (run (new p) tr).
Proof.
  assert (Hgen : forall s, Spec.active_valid s -> Spec.active_valid (run s tr)).
  { induction tr as [| l rest IH]; intros s Hs; cbn [run fold_left]; [exact Hs |].
    apply IH. now apply active_valid_step. }
  apply Hgen. intros id i H. discriminate.
Qed.

(** C10. In every state the sandbox can reach, [cancel] on an active id
    aborts the controller of the execution that carries the id, removes the
    id (and only that id) from the active set at once, so that the count
    drops by one, notifies [onCancelled] once and returns [true]; on an id
    that is not active, and so on a second [cancel] of the same id, it
    changes nothing and returns [false]. *)
Theorem cancel_removes_active (p : Security.PartialConfig) (tr : list step_label)
    (id : string) :
  let s := run (new p) tr in
  (In id (getActiveExecutionIds s) ->
   exists i x,
     prop_get id (activeExecutions s) = Some i
     /\ nth_error (executions s) i = Some x
     /\ x_id x = id
     /\ fst (cancel s id) = true
     /\ nth_error (executions (snd (cancel s id))) i = Some (abort x)
     /\ x_aborted (abort x) = true
     /\ ~ In id (getActiveExecutionIds (snd (cancel s id)))
     /\ (forall id', id' <> id ->
           (In id' (getActiveExecutionIds (snd (cancel s id)))
            <-> In id' (getActiveExecutionIds s)))
     /\ S (getActiveCount (snd (cancel s id))) = getActiveCount s
     /\ log (snd (cancel s id)) = (log s ++ [Event (onCancelled id)])%list
     /\ cancel (snd (cancel s id)) id = (false, snd (cancel s id)))
  /\ (~ In id (getActiveExecutionIds s) -> cancel s id = (false, s)).
Proof.
  intros s.
  pose proof (active_ids_distinct p tr) as Hmap. fold s in Hmap.
  pose proof (active_valid_run p tr) as Hvalid. fold s in Hvalid.
  unfold getActiveExecutionIds, getActiveCount in *. split.
  - intros Hin. destruct (proj1 (prop_get_In id (activeExecutions s)) Hin) as (i & Hi).
    destruct (Hvalid id i Hi) as (x & Hx & Hid).
    exists i, x. unfold cancel. rewrite Hi. simpl.
    rewrite abort_at_active, abort_at_log.
    split; [reflexivity |]. split; [exact Hx |]. split; [exact Hid |].
    split; [reflexivity |].
    split; [now apply abort_at_nth |].
    split; [apply abort_aborted |].
    split; [rewrite map_delete_keys; tauto |].
    split; [intros id' Hne; rewrite map_delete_keys; tauto |].
    split; [now apply map_delete_length |].
    split; [reflexivity |].
    rewrite prop_get_not_In; [reflexivity |]. rewrite map_delete_keys. tauto.
  - intros Hnot. unfold cancel. now rewrite prop_get_not_In.
Qed.

Lemma cancel_removes_active_witness :
  In "exec-1-1000"
     (getActiveExecutionIds
        (run (new Sample.two_at_most)
           [Sample.slow_call 1000; Sample.slow_call 1001;
            BeforeHookReturns 0 (Resolved tt); BeforeHookReturns 1 (Resolved tt)]))
  /\ cancel (snd (cancel Sample.two_running "exec-1-1000")) "exec-1-1000"
     = (false, snd (cancel Sample.two_running "exec-1-1000")).
Proof.
  assert (Hin : In "exec-1-1000"
                  (getActiveExecutionIds
                     (run (new Sample.two_at_most)
                        [Sample.slow_call 1000; Sample.slow_call 1001;
                         BeforeHookReturns 0 (Resolved tt);
                         BeforeHookReturns 1 (Resolved tt)])))
    by (vm_compute; now left).
  split; [exact Hin |].
  destruct (proj1 (cancel_removes_active Sample.two_at_most
                     [Sample.slow_call 1000; Sample.slow_call 1001;
                      BeforeHookReturns 0 (Resolved tt);
                      BeforeHookReturns 1 (Resolved tt)] "exec-1-1000") Hin)
    as (i & x & _ & _ & _ & _ & _ & _ & _ & _ & _ & _ & H).
  exact H.
Defined.



End SandboxFacts.

(** ** An invocation run on its own runs to its end *)

Section AloneFacts.
Import Js Tools ToolSandbox Spec.

Context {T : Type}.
Variable now : T -> Z.

Lemma after_before_progress (s : t) (i : nat) (x : Execution) (r : outcome unit) :
  nth_error (executions s) i = Some x ->
  x_phase x = AwaitBefore -> x_aborted x = false ->
  exists x',
    nth_error (executions (after_before s i r)) i = Some x'
    /\ activeExecutions (after_before s i r) = activeExecutions s
    /\ x_id x' = x_id x
    /\ ((x_phase x' = Racing /\ x_toolPending x' = true /\ x_promise x' = None
         /\ x_timer x' = Armed /\ x_listener x' = true /\ x_aborted x' = false)
        \/ exists e, x_phase x' = AwaitAfterError e).
Proof.
  intros Hx Hphase Ha. unfold after_before. rewrite Hx, Hphase.
  destruct (if x_onBefore x then r else Resolved tt) as [[] | e].
  - eexists. split; [eapply nth_put_same; exact Hx |].
    split; [reflexivity |]. split; [reflexivity |]. left. cbn. repeat split. exact Ha.
  - eexists. split; [eapply nth_put_same; exact Hx |].
    split; [reflexivity |]. split; [reflexivity |]. right. now exists e.
Qed.

Lemma race_progress (s : t) (i : nat) (x : Execution) (f : first_event)
    (o : outcome value) :
  nth_error (executions s) i = Some x ->
  x_phase x = Racing -> x_toolPending x = true -> x_promise x = None ->
  x_timer x = Armed -> x_listener x = true -> x_aborted x = false ->
  prop_get (x_id x) (activeExecutions s) = Some i ->
  exists x',
    nth_error (executions (race s i (x_id x) f o)) i = Some x'
    /\ x_phase x' = Racing
    /\ exists o', x_promise x' = Some o'.
Proof.
  intros Hx Hphase Hpend Hopen Harmed Hl Ha Hactive.
  destruct f; cbn [race].
  - rewrite (tool_settles_eq s i x o Hx Hpend).
    eexists. split; [eapply nth_put_same; exact Hx |].
    split; [exact Hphase |]. cbn. rewrite Hopen. now eexists.
  - assert (H1 : timer_fires s i
                 = emit (put s i (fst (on_timeout x)))
                     [Event (onTimeout (x_toolName x) (x_timeoutMs x))])
      by (unfold timer_fires; now rewrite Hx, Harmed).
    rewrite H1.
    assert (H2 : nth_error
                   (executions (emit (put s i (fst (on_timeout x)))
                                  [Event (onTimeout (x_toolName x) (x_timeoutMs x))])) i
                 = Some (fst (on_timeout x)))
      by (cbn [executions emit with_state]; eapply nth_put_same; exact Hx).
    rewrite (tool_settles_eq _ i _ o H2 Hpend).
    eexists. split; [eapply nth_put_same; exact H2 |].
    split; [exact Hphase |]. cbn. rewrite Hopen. now eexists.
  - assert (H1 : snd (cancel s (x_id x))
                 = emit (delete_active (abort_at s i) (x_id x))
                     [Event (onCancelled (x_id x))])
      by (unfold cancel; now rewrite Hactive).
    rewrite H1.
    assert (H2 : nth_error
                   (executions (emit (delete_active (abort_at s i) (x_id x))
                                  [Event (onCancelled (x_id x))])) i
                 = Some (abort x))
      by (cbn [executions emit delete_active with_state]; now apply abort_at_nth).
    assert (Hab : abort x
                  = abortHandler (set_race x true (x_timer x) (x_listener x)
                                    (x_toolPending x) (x_promise x)))
      by (unfold abort; now rewrite Ha, Hl).
    assert (Hpend' : x_toolPending (abort x) = true) by (now rewrite Hab).
    rewrite (tool_settles_eq _ i _ o H2 Hpend').
    eexists. split; [eapply nth_put_same; exact H2 |].
    split; [cbn; rewrite abort_phase; exact Hphase |].
    rewrite Hab. cbn. rewrite Hopen. now eexists.
Qed.

Lemma resumes_progress (s : t) (i : nat) (x : Execution) (o : outcome value) :
  nth_error (executions s) i = Some x ->
  x_phase x = Racing -> x_promise x = Some o ->
  exists x',
    nth_error (executions (resumes s i)) i = Some x'
    /\ ((exists v, x_phase x' = AwaitAfter v) \/ exists e, x_phase x' = AwaitAfterError e).
Proof.
  intros Hx Hphase Hp. unfold resumes. rewrite Hx, Hphase, Hp.
  destruct o as [result | e].
  - destruct (estimateSize result >? x_maxOutputSize x).
    + eexists. split; [eapply nth_put_same; exact Hx |]. right. now eexists.
    + eexists. split; [eapply nth_put_same; exact Hx |]. left. now eexists.
  - eexists. split; [eapply nth_put_same; exact Hx |]. right. now eexists.
Qed.

Lemma after_after_progress (s : t) (i : nat) (x : Execution) (r : outcome unit) :
  nth_error (executions s) i = Some x ->
  exists x',
    nth_error (executions (after_after s i r)) i = Some x'
    /\ ((exists v, x_phase x = AwaitAfter v) ->
        (exists o, x_phase x' = Done o) \/ exists e, x_phase x' = AwaitAfterError e)
    /\ ((exists e, x_phase x = AwaitAfterError e) -> exists o, x_phase x' = Done o)
    /\ ((exists o, x_phase x = Done o) -> x' = x).
Proof.
  intros Hx. unfold after_after. rewrite Hx.
  destruct (x_phase x) as [ | | v | e | o] eqn:Hphase;
    try (exists x; split; [exact Hx |];
         repeat split; intros (y & Hy); (discriminate || reflexivity));
    destruct (if x_onAfter x then r else Resolved tt) as [[] | e'];
    (eexists; split; [eapply nth_put_same; exact Hx |]);
    (split; [intros _ | split; [intros (y & Hy) | intros (y & Hy); discriminate]]);
    cbn; try discriminate; eauto.
Qed.

(** The outcome that [execute] returns for a started invocation is the one
    the invocation ends with: the last [after_after] leaves it finished. *)
Lemma execute_completes (sch : Schedule) (tool : Tool T) (params : value)
    (baseContext : ToolContext) (options : SandboxOptions) (w : World T)
    (s1 : t) (i : nat) :
  execute_enter (sandbox_ w) (name tool) params baseContext options (Date_now now w)
  = (s1, Started i) ->
  result_of (sandbox_ (snd (execute now sch tool params baseContext options w))) i
  = Some (fst (execute now sch tool params baseContext options w)).
Proof.
  intros Henter. unfold execute. rewrite Henter.
  assert (H1 : exists x,
             nth_error (executions s1) i = Some x
             /\ x_phase x = AwaitBefore /\ x_aborted x = false
             /\ prop_get (x_id x) (activeExecutions s1) = Some i).
  { unfold execute_enter in Henter.
    destruct (negb (Security.enabled (config (sandbox_ w)))
              || negb (Security.sandboxExecution (config (sandbox_ w))));
      [discriminate |].
    destruct (Z.of_nat (List.length (activeExecutions (sandbox_ w)))
              >=? Security.maxConcurrentCalls (config (sandbox_ w)));
      [discriminate |].
    injection Henter as <- <-. eexists. cbn [executions activeExecutions].
    split; [rewrite nth_error_app2, Nat.sub_diag by lia; reflexivity |].
    split; [reflexivity |]. split; [reflexivity |].
    apply prop_get_set_same. }
  destruct H1 as (x0 & Hx0 & Hphase0 & Ha0 & Hact0).
  destruct (after_before_progress s1 i x0 (before_hook sch) Hx0 Hphase0 Ha0)
    as (x2 & Hx2 & Hact2 & Hid2 & Hcase).
  rewrite Hx2.
  assert (Hend : forall s3 x3,
             nth_error (executions s3) i = Some x3 ->
             ((exists v, x_phase x3 = AwaitAfter v)
              \/ exists e, x_phase x3 = AwaitAfterError e) ->
             exists o,
               result_of (after_after (after_after s3 i (after_hook sch)) i
                            (after_hook_in_catch sch)) i = Some o).
  { intros s3 x3 Hx3 Hph.
    destruct (after_after_progress s3 i x3 (after_hook sch) Hx3)
      as (x4 & Hx4 & Hv & He & _).
    assert (H4 : (exists o, x_phase x4 = Done o) \/ exists e, x_phase x4 = AwaitAfterError e)
      by (destruct Hph as [Hph | Hph]; [exact (Hv Hph) | left; exact (He Hph)]).
    destruct (after_after_progress _ i x4 (after_hook_in_catch sch) Hx4)
      as (x5 & Hx5 & _ & He5 & Hd5).
    unfold result_of. rewrite Hx5.
    destruct H4 as [(o & Ho) | H4].
    - rewrite (Hd5 (ex_intro _ o Ho)), Ho. now exists o.
    - destruct (He5 H4) as (o & Ho). rewrite Ho. now exists o. }
  destruct Hcase as [(Hr & Hpend & Hopen & Harmed & Hl & Ha) | (e & He)].
  - rewrite Hr.
    destruct (Tools.execute tool params (Some (x_context x2)) (user w)) as [o u].
    cbn [sandbox_ with_user with_sandbox snd fst].
    rewrite <- Hid2, <- Hact2 in Hact0.
    destruct (race_progress _ i x2 (first sch) o Hx2 Hr Hpend Hopen Harmed Hl Ha Hact0)
      as (x3 & Hx3 & Hr3 & o3 & Hp3).
    destruct (resumes_progress _ i x3 o3 Hx3 Hr3 Hp3) as (x4 & Hx4 & Hph4).
    destruct (Hend _ x4 Hx4 Hph4) as (o' & Ho').
    now rewrite Ho'.
  - rewrite He. cbn [sandbox_ with_user with_sandbox snd fst].
    destruct (Hend _ x2 Hx2 (or_intror (ex_intro _ e He))) as (o' & Ho').
    now rewrite Ho'.
Qed.

End AloneFacts.

(* ================================================================== *)
(** * Properties of the registry *)
(* ================================================================== *)

Section RegistryFacts.
Import Js Tools.

Context {W : Type}.
Variable Date_now : W -> Z.

(** What one call does to the counters of the tool: one more call, one more
    failure exactly when the call is rejected, and the duration added when
    the call is resolved. *)
Lemma execute_counts (r : ToolRegistry.t W) (name : string) (params : value) (w : W)
    (tool : Tool W) (stats : UsageEntry) :
  prop_get name (ToolRegistry.tools r) = Some tool ->
  prop_get name (ToolRegistry.usageStats r) = Some stats ->
  let '(o, r', w') := ToolRegistry.execute Date_now r name params w in
  (o, w') = execute tool params (Some (ToolRegistry.context r)) w
  /\ ToolRegistry.tools r' = ToolRegistry.tools r
  /\ prop_get name (ToolRegistry.usageStats r')
     = Some {| calls := calls stats + 1;
               failures := failures stats + (if is_rejected o then 1 else 0);
               totalDuration :=
                 totalDuration stats
                 + (if is_rejected o then 0 else Date_now w' - Date_now w) |}.
Proof.
  intros Ht Hs. unfold ToolRegistry.execute. rewrite Ht, Hs.
  destruct (execute tool params (Some (ToolRegistry.context r)) w) as [[result | e] w'];
    cbn; rewrite prop_get_set_same; repeat split; do 2 f_equal; lia.
Qed.

(** The loop of [executeBatch] only appends to [results]. *)
Lemma executeBatch_loop_results (calls : list (string * value)) :
  forall r results w,
  ToolRegistry.executeBatch_loop Date_now r calls results w
  = let '(slots, r', w') := ToolRegistry.executeBatch_loop Date_now r calls [] w in
    ((results ++ slots)%list, r', w').
Proof.
  induction calls as [| call rest IH]; intros r results w; cbn [ToolRegistry.executeBatch_loop].
  - now rewrite app_nil_r.
  - destruct (ToolRegistry.execute Date_now r (fst call) (snd call) w) as [[o r1] w1].
    rewrite (IH r1 (results ++ [ToolRegistry.batch_slot o])%list w1).
    rewrite (IH r1 ([] ++ [ToolRegistry.batch_slot o])%list w1).
    destruct (ToolRegistry.executeBatch_loop Date_now r1 rest [] w1) as [[slots r2] w2].
    now rewrite <- app_assoc.
Qed.

(** One call after the other: the first call runs, then the rest of the
    batch runs from the state it leaves, whether it failed or not. *)
Lemma executeBatch_cons (r : ToolRegistry.t W) (call : string * value)
    (rest : list (string * value)) (w : W) :
  ToolRegistry.executeBatch Date_now r (call :: rest) w
  = let '(o, r1, w1) := ToolRegistry.execute Date_now r (fst call) (snd call) w in
    let '(slots, r2, w2) := ToolRegistry.executeBatch Date_now r1 rest w1 in
    (ToolRegistry.batch_slot o :: slots, r2, w2).
Proof.
  unfold ToolRegistry.executeBatch. cbn [ToolRegistry.executeBatch_loop].
  destruct (ToolRegistry.execute Date_now r (fst call) (snd call) w) as [[o r1] w1].
  rewrite executeBatch_loop_results.
  now destruct (ToolRegistry.executeBatch_loop Date_now r1 rest [] w1) as [[slots r2] w2].
Qed.

Lemma executeBatch_length (calls : list (string * value)) :
  forall r w,
  List.length (fst (fst (ToolRegistry.executeBatch Date_now r calls w))) = List.length calls.
Proof.
  induction calls as [| call rest IH]; intros r w; [reflexivity |].
  rewrite executeBatch_cons.
  destruct (ToolRegistry.execute Date_now r (fst call) (snd call) w) as [[o r1] w1].
  specialize (IH r1 w1).
  destruct (ToolRegistry.executeBatch Date_now r1 rest w1) as [[slots r2] w2].
  cbn in *. now rewrite IH.
Qed.

(** The slot of a call holds the outcome of that call, run in the state
    that the calls before it have left. *)
Lemma executeBatch_slot (before : list (string * value)) :
  forall r w (call : string * value) (rest : list (string * value)),
  let '(_, r1, w1) := ToolRegistry.executeBatch Date_now r before w in
  nth_error (fst (fst (ToolRegistry.executeBatch Date_now r (before ++ call :: rest) w)))
    (List.length before)
  = Some (ToolRegistry.batch_slot (fst (fst (ToolRegistry.execute Date_now r1 (fst call) (snd call) w1)))).
Proof.
  induction before as [| b before' IH]; intros r w call rest.
  - change (ToolRegistry.executeBatch Date_now r [] w) with (@nil value, r, w).
    cbv beta iota zeta delta [List.length]. rewrite app_nil_l, executeBatch_cons.
    destruct (ToolRegistry.execute Date_now r (fst call) (snd call) w) as [[o r1] w1].
    now destruct (ToolRegistry.executeBatch Date_now r1 rest w1) as [[slots r2] w2].
  - rewrite <- app_comm_cons. cbn [List.length]. rewrite !executeBatch_cons.
    destruct (ToolRegistry.execute Date_now r (fst b) (snd b) w) as [[o r1] w1].
    specialize (IH r1 w1 call rest).
    destruct (ToolRegistry.executeBatch Date_now r1 before' w1) as [[slots1 r2] w2].
    destruct (ToolRegistry.executeBatch Date_now r1 (before' ++ call :: rest) w1) as [[slots r3] w3].
    exact IH.
Qed.

End RegistryFacts.

Section RegistryClaims.
Import Js Tools.

(** C2, as the code behaves.  A call of [failing_tool] that lasts 50 ms is
    counted as one call and one failure, and adds nothing to
    [totalDuration]; a call of [ok_tool] that lasts 5 ms adds 5. *)
Theorem execute_drops_duration_of_failed_call :
  (let '(o, r, w) :=
     ToolRegistry.execute Sample.clock Sample.registry "failing_tool" (VObject []) 1000 in
   o = Rejected (Error "Tool failed")
   /\ w - 1000 = 50
   /\ prop_get "failing_tool" (ToolRegistry.usageStats r)
      = Some {| calls := 1; failures := 1; totalDuration := 0 |})
  /\ (let '(o, r, w) :=
        ToolRegistry.execute Sample.clock Sample.registry "ok" (Sample.n_is 1) 1000 in
      o = Resolved (VNumber 1)
      /\ w - 1000 = 5
      /\ prop_get "ok" (ToolRegistry.usageStats r)
         = Some {| calls := 1; failures := 0; totalDuration := 5 |}).
Proof. vm_compute. repeat split. Qed.

(** C9. [executeBatch] returns one slot per call; it runs the first call,
    then the rest of the batch from the state that call leaves, so the
    calls run one at a time in the given order and a failed call stops
    nothing; the slot of a call holds its result, or the marker
    [{ error: String(error) }] when it failed.  For the calls
    [ok(1), missing, ok(2)] the slots are [1], a marker and [2], and [ok]
    has run twice. *)
Theorem executeBatch_isolates_failures :
  (forall (W : Type) (Date_now : W -> Z) (r : ToolRegistry.t W)
          (calls : list (string * value)) (w : W),
      List.length (fst (fst (ToolRegistry.executeBatch Date_now r calls w))) = List.length calls)
  /\ (forall (W : Type) (Date_now : W -> Z) (r : ToolRegistry.t W)
             (call : string * value) (rest : list (string * value)) (w : W),
         ToolRegistry.executeBatch Date_now r (call :: rest) w
         = let '(o, r1, w1) := ToolRegistry.execute Date_now r (fst call) (snd call) w in
           let '(slots, r2, w2) := ToolRegistry.executeBatch Date_now r1 rest w1 in
           (ToolRegistry.batch_slot o :: slots, r2, w2))
  /\ (forall (W : Type) (Date_now : W -> Z) (r : ToolRegistry.t W)
             (before : list (string * value)) (call : string * value)
             (rest : list (string * value)) (w : W),
         let '(_, r1, w1) := ToolRegistry.executeBatch Date_now r before w in
         nth_error (fst (fst (ToolRegistry.executeBatch Date_now r (before ++ call :: rest) w)))
           (List.length before)
         = Some (ToolRegistry.batch_slot (fst (fst (ToolRegistry.execute Date_now r1 (fst call) (snd call) w1)))))
  /\ (let '(slots, r, w) :=
        ToolRegistry.executeBatch Sample.clock Sample.registry
          [("ok", Sample.n_is 1); ("x", VObject []); ("ok", Sample.n_is 2)] 1000 in
      slots = [VNumber 1;
               VObject [("error", VString ("Error: Tool " ++ in_quotes "x" ++ " not found"))];
               VNumber 2]
      /\ prop_get "ok" (ToolRegistry.usageStats r)
         = Some {| calls := 2; failures := 0; totalDuration := 10 |}
      /\ w = 1010).
Proof.
  split; [intros; apply executeBatch_length |].
  split; [intros; apply executeBatch_cons |].
  split; [intros; apply executeBatch_slot |].
  vm_compute. repeat split.
Qed.

End RegistryClaims.

(* ================================================================== *)
(** * The secured execution path *)
(* ================================================================== *)

Section SecurePath.
Import Js Tools ToolSandbox Spec.

Context {T : Type}.
Variable now : T -> Z.


End SecurePath.

Section SecurePathWitness.
Import Js Tools ToolSandbox Spec.


End SecurePathWitness.

(* ================================================================== *)
(** * The registry beyond [execute] *)
(* ================================================================== *)

Section RegistryLifecycle.
Import Js Tools.

Context {W : Type}.
Variable Date_now : W -> Z.

(** ** Property maps *)

Lemma prop_get_In_pair {V : Type} (k : string) (v : V) (m : list (string * V)) :
  prop_get k m = Some v -> In (k, v) m.
Proof.
  induction m as [| [k0 v0] rest IH]; cbn; [discriminate |].
  destruct (String.eqb_spec k0 k) as [-> | Hne].
  - intros H. injection H as <-. now left.
  - intros H. right. now apply IH.
Qed.

Lemma In_prop_get {V : Type} (k : string) (v : V) (m : list (string * V)) :
  NoDup (map fst m) -> In (k, v) m -> prop_get k m = Some v.
Proof.
  induction m as [| [k0 v0] rest IH]; cbn; intros Hnd Hin; [tauto |].
  inversion Hnd as [| ? ? Hnotin Hnd']; subst.
  destruct Hin as [Heq | Hin].
  - injection Heq as -> ->. now rewrite String.eqb_refl.
  - destruct (String.eqb_spec k0 k) as [-> | Hne]; [| auto].
    exfalso. apply Hnotin. now apply (in_map fst) in Hin.
Qed.

Lemma prop_set_In {V : Type} (k k' : string) (v v' : V) (m : list (string * V)) :
  In (k', v') (prop_set k v m) -> (k' = k /\ v' = v) \/ In (k', v') m.
Proof.
  induction m as [| [k0 v0] rest IH]; cbn.
  - intros [H | []]. injection H as <- <-. now left.
  - destruct (String.eqb_spec k0 k) as [-> | Hne]; cbn.
    + intros [H | H]; [injection H as <- <-; now left | right; now right].
    + intros [H | H]; [right; now left |].
      destruct (IH H) as [Hl | Hr]; [now left | right; now right].
Qed.

Lemma map_delete_In {V : Type} (k k' : string) (v' : V) (m : list (string * V)) :
  In (k', v') (map_delete k m) -> In (k', v') m.
Proof.
  induction m as [| [k0 v0] rest IH]; cbn; [tauto |].
  destruct (String.eqb_spec k0 k) as [-> | Hne]; cbn.
  - intros H. right. now apply IH.
  - intros [H | H]; [now left | right; now apply IH].
Qed.

Lemma prop_set_map_fst {V V' : Type} (k : string) (v : V) (v' : V')
    (m : list (string * V)) (m' : list (string * V')) :
  map fst m = map fst m' -> map fst (prop_set k v m) = map fst (prop_set k v' m').
Proof.
  revert m'. induction m as [| [k0 v0] rest IH]; intros [| [k1 v1] rest'] H;
    cbn in *; try discriminate; [reflexivity |].
  injection H as -> Hrest.
  destruct (String.eqb_spec k1 k) as [-> | Hne]; cbn; [now rewrite Hrest |].
  f_equal. now apply IH.
Qed.

Lemma map_delete_map_fst {V V' : Type} (k : string)
    (m : list (string * V)) (m' : list (string * V')) :
  map fst m = map fst m' -> map fst (map_delete k m) = map fst (map_delete k m').
Proof.
  revert m'. induction m as [| [k0 v0] rest IH]; intros [| [k1 v1] rest'] H;
    cbn in *; try discriminate; [reflexivity |].
  injection H as -> Hrest.
  destruct (String.eqb_spec k1 k) as [-> | Hne]; cbn; [now apply IH |].
  f_equal. now apply IH.
Qed.

Lemma map_delete_prop_set_fresh {V : Type} (k : string) (v : V) (m : list (string * V)) :
  prop_get k m = None -> map_delete k (prop_set k v m) = m.
Proof.
  induction m as [| [k0 v0] rest IH]; cbn.
  - now rewrite String.eqb_refl.
  - destruct (String.eqb_spec k0 k) as [-> | Hne]; [discriminate |].
    intros H. cbn. destruct (String.eqb_spec k0 k); [congruence |].
    now rewrite IH.
Qed.

Lemma prop_get_map_delete_same {V : Type} (k : string) (m : list (string * V)) :
  prop_get k (map_delete k m) = None.
Proof.
  apply prop_get_not_In. rewrite map_delete_keys. tauto.
Qed.

Lemma prop_get_map_delete_other {V : Type} (k k' : string) (m : list (string * V)) :
  k' <> k -> prop_get k' (map_delete k m) = prop_get k' m.
Proof.
  intros Hne. induction m as [| [k0 v0] rest IH]; cbn; [reflexivity |].
  destruct (String.eqb_spec k0 k) as [-> | Hne0]; cbn.
  - destruct (String.eqb_spec k k'); [congruence | exact IH].
  - destruct (String.eqb_spec k0 k'); [reflexivity | exact IH].
Qed.

Lemma prop_set_length {V : Type} (k : string) (v : V) (m : list (string * V)) :
  List.length (prop_set k v m)
  = match prop_get k m with Some _ => List.length m | None => S (List.length m) end.
Proof.
  induction m as [| [k0 v0] rest IH]; cbn; [reflexivity |].
  destruct (String.eqb_spec k0 k) as [-> | Hne]; cbn; [reflexivity |].
  rewrite IH. now destruct (prop_get k rest).
Qed.

(** ** register *)

Lemma register_accepted (r : ToolRegistry.t W) (tool : Tool W) :
  Spec.accepted tool ->
  ToolRegistry.register r tool
  = Resolved
      {| ToolRegistry.tools := prop_set (name tool) tool (ToolRegistry.tools r);
         ToolRegistry.context := ToolRegistry.context r;
         ToolRegistry.usageStats :=
           prop_set (name tool) Spec.unused (ToolRegistry.usageStats r) |}.
Proof.
  intros [Hn Hd]. unfold ToolRegistry.register.
  destruct (String.eqb_spec (name tool) EmptyString); [contradiction |].
  destruct (String.eqb_spec (description tool) EmptyString); [contradiction |].
  reflexivity.
Qed.

Lemma register_refused (r : ToolRegistry.t W) (tool : Tool W) :
  ~ Spec.accepted tool -> exists e, ToolRegistry.register r tool = Rejected e.
Proof.
  intros H. unfold ToolRegistry.register.
  destruct (String.eqb_spec (name tool) EmptyString) as [Hn | Hn];
    [cbn; now eexists |].
  destruct (String.eqb_spec (description tool) EmptyString) as [Hd | Hd];
    [cbn; now eexists |].
  exfalso. apply H. now split.
Qed.

(** X1. [register] of a tool with a name and a description stores it under
    its name, so that [get] returns it and [has] is true, and gives it
    fresh counters, also when the name was registered before: a tool
    registered again starts from zero.  The other names keep their tool
    and their counters, and [count] grows only for a new name. *)
Theorem register_then_get (r : ToolRegistry.t W) (tool : Tool W)
    (Haccepted : Spec.accepted tool) :
  exists r',
    ToolRegistry.register r tool = Resolved r'
    /\ ToolRegistry.get r' (name tool) = Some tool
    /\ ToolRegistry.has r' (name tool) = true
    /\ prop_get (name tool) (ToolRegistry.usageStats r') = Some Spec.unused
    /\ (forall other, other <> name tool ->
          ToolRegistry.get r' other = ToolRegistry.get r other
          /\ prop_get other (ToolRegistry.usageStats r')
             = prop_get other (ToolRegistry.usageStats r))
    /\ ToolRegistry.count r'
       = (if ToolRegistry.has r (name tool) then ToolRegistry.count r
          else S (ToolRegistry.count r))
    /\ ToolRegistry.context r' = ToolRegistry.context r.
Proof.
  eexists. split; [now apply register_accepted |].
  unfold ToolRegistry.get, ToolRegistry.has, ToolRegistry.count. cbn.
  rewrite !prop_get_set_same. do 3 (split; [reflexivity |]).
  split.
  - intros other Hne. split; apply prop_get_set_other; congruence.
  - split; [| reflexivity]. rewrite prop_set_length.
    now destruct (prop_get (name tool) (ToolRegistry.tools r)).
Qed.


(** ** The two maps stay together *)

Lemma prop_set_existing_keys {V : Type} (k : string) (v v0 : V) (m : list (string * V)) :
  prop_get k m = Some v0 -> map fst (prop_set k v m) = map fst m.
Proof.
  induction m as [| [k1 v1] rest IH]; cbn; [discriminate |].
  destruct (String.eqb_spec k1 k) as [-> | Hne]; cbn; [reflexivity |].
  intros H. now rewrite IH.
Qed.

Lemma consistent_lookup (r : ToolRegistry.t W) (name : string) (tool : Tool W) :
  Spec.consistent r -> prop_get name (ToolRegistry.tools r) = Some tool ->
  exists stats, prop_get name (ToolRegistry.usageStats r) = Some stats
                /\ 0 <= failures stats <= calls stats.
Proof.
  intros (Hkeys & _ & _ & Hcount) Hget.
  assert (Hin : In name (map fst (ToolRegistry.usageStats r))).
  { rewrite Hkeys. apply prop_get_In. now exists tool. }
  apply prop_get_In in Hin. destruct Hin as (stats & Hstats).
  exists stats. split; [exact Hstats |].
  apply (Hcount name). now apply prop_get_In_pair.
Qed.

Lemma consistent_create (c : ToolContext) :
  Spec.consistent (ToolRegistry.create (W := W) c).
Proof.
  repeat split; cbn; try constructor; intros; contradiction.
Qed.

Lemma consistent_register (r r' : ToolRegistry.t W) (tool : Tool W) :
  Spec.consistent r -> ToolRegistry.register r tool = Resolved r' -> Spec.consistent r'.
Proof.
  intros (Hkeys & Hnd & Hnames & Hcount) Hreg.
  unfold ToolRegistry.register in Hreg.
  destruct ((name tool =? EmptyString) || (description tool =? EmptyString))%string;
    [discriminate |].
  injection Hreg as <-. unfold Spec.consistent. cbn.
  split; [now apply prop_set_map_fst |].
  split; [now apply prop_set_NoDup |].
  split.
  - intros name0 tool0 Hin. apply prop_set_In in Hin.
    destruct Hin as [[-> ->] | Hin]; [reflexivity | eauto].
  - intros name0 e Hin. apply prop_set_In in Hin.
    destruct Hin as [[-> ->] | Hin]; [cbn; lia | eauto].
Qed.

Lemma consistent_with_stats (r : ToolRegistry.t W) (name : string)
    (stats stats' : UsageEntry) :
  Spec.consistent r ->
  prop_get name (ToolRegistry.usageStats r) = Some stats ->
  0 <= failures stats' <= calls stats' ->
  Spec.consistent (ToolRegistry.with_stats r name stats').
Proof.
  intros (Hkeys & Hnd & Hnames & Hcount) Hget Hle.
  unfold Spec.consistent, ToolRegistry.with_stats. cbn.
  split; [now rewrite (prop_set_existing_keys _ _ _ _ Hget) |].
  split; [exact Hnd |]. split; [exact Hnames |].
  intros name0 e Hin. apply prop_set_In in Hin.
  destruct Hin as [[-> ->] | Hin]; [exact Hle | eauto].
Qed.

Lemma consistent_execute (r : ToolRegistry.t W) (name : string) (params : value) (w : W) :
  Spec.consistent r ->
  Spec.consistent (snd (fst (ToolRegistry.execute Date_now r name params w))).
Proof.
  intros Hr. unfold ToolRegistry.execute.
  destruct (prop_get name (ToolRegistry.tools r)) as [tool |] eqn:Htool; [| exact Hr].
  destruct (consistent_lookup r name tool Hr Htool) as (stats & Hstats & Hle).
  rewrite Hstats.
  destruct (execute tool params (Some (ToolRegistry.context r)) w) as [[result | e] w'];
    cbn [fst snd]; eapply consistent_with_stats; try eassumption; cbn; lia.
Qed.

Lemma consistent_executeBatch (calls : list (string * value)) :
  forall (r : ToolRegistry.t W) (w : W),
  Spec.consistent r ->
  Spec.consistent (snd (fst (ToolRegistry.executeBatch Date_now r calls w))).
Proof.
  induction calls as [| call rest IH]; intros r w Hr; [exact Hr |].
  rewrite executeBatch_cons.
  pose proof (consistent_execute r (fst call) (snd call) w Hr) as H1.
  destruct (ToolRegistry.execute Date_now r (fst call) (snd call) w) as [[o r1] w1].
  specialize (IH r1 w1 H1).
  destruct (ToolRegistry.executeBatch Date_now r1 rest w1) as [[slots r2] w2].
  exact IH.
Qed.

Lemma consistent_registerAll (l : list (Tool W)) :
  forall r : ToolRegistry.t W,
  Spec.consistent r -> Spec.consistent (snd (ToolRegistry.registerAll r l)).
Proof.
  induction l as [| tool rest IH]; intros r Hr; cbn; [exact Hr |].
  destruct (ToolRegistry.register r tool) as [r' | e] eqn:Hreg; [| exact Hr].
  apply IH. eapply consistent_register; eassumption.
Qed.

Lemma consistent_unregister (r : ToolRegistry.t W) (name : string) :
  Spec.consistent r -> Spec.consistent (snd (ToolRegistry.unregister r name)).
Proof.
  intros Hr. unfold ToolRegistry.unregister.
  destruct (ToolRegistry.has r name); [| exact Hr].
  destruct Hr as (Hkeys & Hnd & Hnames & Hcount).
  unfold Spec.consistent. cbn.
  split; [now apply map_delete_map_fst |].
  split; [now apply map_delete_NoDup |].
  split; intros name0 x Hin; apply map_delete_In in Hin; eauto.
Qed.

Lemma consistent_resetStats (r : ToolRegistry.t W) :
  Spec.consistent r -> Spec.consistent (ToolRegistry.resetStats r).
Proof.
  intros (Hkeys & Hnd & Hnames & Hcount).
  unfold Spec.consistent, ToolRegistry.resetStats. cbn.
  split; [rewrite map_map; cbn; exact Hkeys |].
  split; [exact Hnd |]. split; [exact Hnames |].
  intros name0 e Hin. apply in_map_iff in Hin.
  destruct Hin as (kv & Heq & _). injection Heq as _ <-. cbn. lia.
Qed.

Lemma consistent_perform (rw : ToolRegistry.t W * W) (o : ToolRegistry.operation) :
  Spec.consistent (fst rw) ->
  Spec.consistent (fst (ToolRegistry.perform Date_now rw o)).
Proof.
  destruct rw as [r w]. cbn [fst]. intros Hr.
  destruct o as [tool | l | name params | calls | name | | | c]; cbn [ToolRegistry.perform].
  - cbn [fst]. destruct (ToolRegistry.register r tool) as [r' | e] eqn:Hreg;
      [eapply consistent_register; eassumption | exact Hr].
  - cbn [fst]. now apply consistent_registerAll.
  - pose proof (consistent_execute r name params w Hr) as H.
    now destruct (ToolRegistry.execute Date_now r name params w) as [[o' r'] w'].
  - pose proof (consistent_executeBatch calls r w Hr) as H.
    now destruct (ToolRegistry.executeBatch Date_now r calls w) as [[slots r'] w'].
  - cbn [fst]. now apply consistent_unregister.
  - cbn [fst]. unfold ToolRegistry.clear.
    repeat split; cbn; try constructor; intros; contradiction.
  - cbn [fst]. now apply consistent_resetStats.
  - exact Hr.
Qed.

Lemma consistent_after (ops : list ToolRegistry.operation) :
  forall (r : ToolRegistry.t W) (w : W),
  Spec.consistent r -> Spec.consistent (fst (ToolRegistry.after Date_now r w ops)).
Proof.
  unfold ToolRegistry.after.
  induction ops as [| o rest IH]; intros r w Hr; cbn [fold_left]; [exact Hr |].
  pose proof (consistent_perform (r, w) o Hr) as H.
  destruct (ToolRegistry.perform Date_now (r, w) o) as [r1 w1].
  now apply IH.
Qed.


(** ** execute on a registry in use *)

(** X2. On a registry built from [create] by any sequence of calls,
    [execute] fails in two ways only: with [Tool "name" not found] for a
    name that [get] does not know, which leaves the registry and the
    state of the tools untouched, or with the error of the tool itself.
    The counters that [execute] reads are always there, and the tool that
    runs is the one registered under the name, with the context of the
    registry. *)
Theorem execute_fails_as_the_tool (c : ToolContext) (w0 : W)
    (ops : list ToolRegistry.operation) (name : string) (params : value) :
  let r := fst (ToolRegistry.after Date_now (ToolRegistry.create c) w0 ops) in
  let w := snd (ToolRegistry.after Date_now (ToolRegistry.create c) w0 ops) in
  match ToolRegistry.get r name with
  | None =>
      ToolRegistry.execute Date_now r name params w
      = (Rejected (Error ("Tool " ++ in_quotes name ++ " not found")), r, w)
  | Some tool =>
      Tools.name tool = name
      /\ (fst (fst (ToolRegistry.execute Date_now r name params w)),
          snd (ToolRegistry.execute Date_now r name params w))
         = execute tool params (Some (ToolRegistry.context r)) w
      /\ ToolRegistry.tools (snd (fst (ToolRegistry.execute Date_now r name params w)))
         = ToolRegistry.tools r
  end.
Proof.
  intros r w.
  assert (Hr : Spec.consistent r)
    by (apply consistent_after, consistent_create).
  unfold ToolRegistry.get.
  destruct (prop_get name (ToolRegistry.tools r)) as [tool |] eqn:Htool.
  - destruct (consistent_lookup r name tool Hr Htool) as (stats & Hstats & _).
    pose proof (execute_counts Date_now r name params w tool stats Htool Hstats) as H.
    destruct (ToolRegistry.execute Date_now r name params w) as [[o r'] w'].
    destruct H as (Hrun & Htools & _). cbn [fst snd].
    split; [| split; assumption].
    destruct Hr as (_ & _ & Hnames & _). apply Hnames. now apply prop_get_In_pair.
  - unfold ToolRegistry.execute. now rewrite Htool.
Qed.

(** ** getUsageStats *)

Lemma prop_get_fold_set {V V' : Type} (f : V -> V') (k : string) (m : list (string * V)) :
  forall acc : list (string * V'),
  NoDup (map fst m) ->
  prop_get k (fold_left (fun stats kv => prop_set (fst kv) (f (snd kv)) stats) m acc)
  = match prop_get k m with
    | Some v => Some (f v)
    | None => prop_get k acc
    end.
Proof.
  induction m as [| [k0 v0] rest IH]; intros acc Hnd; cbn [fold_left]; [reflexivity |].
  inversion Hnd as [| ? ? Hnotin Hnd']; subst.
  rewrite IH by assumption. cbn [prop_get fst snd].
  destruct (String.eqb_spec k0 k) as [-> | Hne].
  - rewrite (prop_get_not_In k rest Hnotin). apply prop_get_set_same.
  - destruct (prop_get k rest); [reflexivity |]. now apply prop_get_set_other.
Qed.

Lemma getUsageStats_lookup (r : ToolRegistry.t W) (name : string) :
  Spec.consistent r ->
  prop_get name (ToolRegistry.getUsageStats r)
  = match prop_get name (ToolRegistry.usageStats r) with
    | Some rawStats => Some (ToolRegistry.usage rawStats)
    | None => None
    end.
Proof.
  intros (Hkeys & Hnd & _). unfold ToolRegistry.getUsageStats.
  rewrite prop_get_fold_set by (now rewrite Hkeys).
  now destruct (prop_get name (ToolRegistry.usageStats r)).
Qed.

Lemma ratio_bounds (a b : Z) :
  0 <= a <= b -> 0 < b ->
  (0 <= inject_Z a / inject_Z b)%Q
  /\ (inject_Z a / inject_Z b <= 1)%Q
  /\ ((inject_Z a / inject_Z b == 1)%Q <-> a = b).
Proof.
  intros Ha Hb. destruct b as [| p | p]; try lia.
  unfold Qdiv, Qinv, Qmult, Qle, Qeq, inject_Z. cbn.
  repeat split; try lia.
Qed.



(** ** The counters over a batch *)

Lemma execute_keeps_tools (r : ToolRegistry.t W) (name : string) (params : value) (w : W) :
  ToolRegistry.tools (snd (fst (ToolRegistry.execute Date_now r name params w)))
  = ToolRegistry.tools r.
Proof.
  unfold ToolRegistry.execute.
  destruct (prop_get name (ToolRegistry.tools r)); [| reflexivity].
  destruct (prop_get name (ToolRegistry.usageStats r)); [| reflexivity].
  now destruct (execute t params (Some (ToolRegistry.context r)) w) as [[result | e] w'].
Qed.

Lemma execute_other_stats (r : ToolRegistry.t W) (called name : string)
    (params : value) (w : W) :
  called <> name ->
  prop_get name
    (ToolRegistry.usageStats (snd (fst (ToolRegistry.execute Date_now r called params w))))
  = prop_get name (ToolRegistry.usageStats r).
Proof.
  intros Hne. unfold ToolRegistry.execute.
  destruct (prop_get called (ToolRegistry.tools r)); [| reflexivity].
  destruct (prop_get called (ToolRegistry.usageStats r)); [| reflexivity].
  destruct (execute t params (Some (ToolRegistry.context r)) w) as [[result | e] w'];
    cbn; now apply prop_get_set_other.
Qed.

Lemma execute_counts_one (r : ToolRegistry.t W) (called name : string)
    (params : value) (w : W) :
  Spec.consistent r -> ToolRegistry.has r name = true ->
  Spec.calls_of (snd (fst (ToolRegistry.execute Date_now r called params w))) name
  = Spec.calls_of r name + (if string_dec called name then 1 else 0).
Proof.
  intros Hr Hhas. unfold Spec.calls_of.
  destruct (string_dec called name) as [-> | Hne];
    [| rewrite execute_other_stats by exact Hne; lia].
  unfold ToolRegistry.has in Hhas.
  destruct (prop_get name (ToolRegistry.tools r)) as [tool |] eqn:Htool;
    [| discriminate].
  destruct (consistent_lookup r name tool Hr Htool) as (stats & Hstats & _).
  pose proof (execute_counts Date_now r name params w tool stats Htool Hstats) as H.
  destruct (ToolRegistry.execute Date_now r name params w) as [[o r'] w'].
  destruct H as (_ & _ & Hnew). cbn [fst snd]. now rewrite Hnew, Hstats.
Qed.

Lemma executeBatch_counts (name : string) (calls : list (string * value)) :
  forall (r : ToolRegistry.t W) (w : W),
  Spec.consistent r -> ToolRegistry.has r name = true ->
  ToolRegistry.tools (snd (fst (ToolRegistry.executeBatch Date_now r calls w)))
  = ToolRegistry.tools r
  /\ Spec.calls_of (snd (fst (ToolRegistry.executeBatch Date_now r calls w))) name
     = Spec.calls_of r name + Z.of_nat (count_occ string_dec (map fst calls) name).
Proof.
  induction calls as [| call rest IH]; intros r w Hr Hhas.
  - cbn. split; [reflexivity | lia].
  - rewrite executeBatch_cons.
    pose proof (consistent_execute r (fst call) (snd call) w Hr) as Hr1.
    pose proof (execute_keeps_tools r (fst call) (snd call) w) as Ht1.
    pose proof (execute_counts_one r (fst call) name (snd call) w Hr Hhas) as Hc1.
    destruct (ToolRegistry.execute Date_now r (fst call) (snd call) w) as [[o r1] w1].
    cbn [fst snd] in Hr1, Ht1, Hc1.
    assert (Hhas1 : ToolRegistry.has r1 name = true)
      by (unfold ToolRegistry.has in *; now rewrite Ht1).
    destruct (IH r1 w1 Hr1 Hhas1) as (Ht2 & Hc2).
    destruct (ToolRegistry.executeBatch Date_now r1 rest w1) as [[slots r2] w2].
    cbn [fst snd] in *. split; [congruence |].
    rewrite Hc2, Hc1. cbn [map count_occ].
    destruct (string_dec (fst call) name); lia.
Qed.

(** X4. On a registry built from [create] by any sequence of calls,
    [executeBatch] leaves the registered tools as they are and counts every
    call of the batch, failed or not: for a registered name, [calls] grows
    by the number of entries of the batch that name it. *)
Theorem executeBatch_counts_every_call (c : ToolContext) (w0 : W)
    (ops : list ToolRegistry.operation) (calls : list (string * value)) (w : W)
    (name : string)
    (Hhas :
       ToolRegistry.has
         (fst (ToolRegistry.after Date_now (ToolRegistry.create c) w0 ops)) name
       = true) :
  let r := fst (ToolRegistry.after Date_now (ToolRegistry.create c) w0 ops) in
  let r' := snd (fst (ToolRegistry.executeBatch Date_now r calls w)) in
  ToolRegistry.tools r' = ToolRegistry.tools r
  /\ Spec.calls_of r' name
     = Spec.calls_of r name + Z.of_nat (count_occ string_dec (map fst calls) name).
Proof.
  intros r r'. apply executeBatch_counts; [| exact Hhas].
  apply consistent_after, consistent_create.
Qed.


(** ** unregister, registerAll, resetStats *)

(** X5. [unregister] answers whether the name was registered.  Afterwards
    the name is unknown, with no tool and no counters, and every other name
    is as before; an unknown name leaves the registry as it is.
    [unregister] undoes [register]: registering a tool under a new name and
    unregistering it gives back the registry as it was. *)
Theorem unregister_undoes_register (r : ToolRegistry.t W) (name : string) :
  let r' := snd (ToolRegistry.unregister r name) in
  fst (ToolRegistry.unregister r name) = ToolRegistry.has r name
  /\ ToolRegistry.get r' name = None
  /\ ToolRegistry.has r' name = false
  /\ (ToolRegistry.has r name = true ->
      prop_get name (ToolRegistry.usageStats r') = None)
  /\ (forall other, other <> name ->
        ToolRegistry.get r' other = ToolRegistry.get r other
        /\ prop_get other (ToolRegistry.usageStats r')
           = prop_get other (ToolRegistry.usageStats r))
  /\ (ToolRegistry.has r name = false -> r' = r)
  /\ (forall tool r1,
        Tools.name tool = name ->
        ToolRegistry.has r name = false ->
        prop_get name (ToolRegistry.usageStats r) = None ->
        ToolRegistry.register r tool = Resolved r1 ->
        ToolRegistry.unregister r1 name = (true, r)).
Proof.
  intros r'. subst r'. unfold ToolRegistry.unregister, ToolRegistry.get.
  destruct (ToolRegistry.has r name) eqn:Hhas; cbn [fst snd ToolRegistry.tools
                                                    ToolRegistry.usageStats].
  - split; [reflexivity |].
    split; [apply prop_get_map_delete_same |].
    split; [unfold ToolRegistry.has; cbn; now rewrite prop_get_map_delete_same |].
    split; [intros _; apply prop_get_map_delete_same |].
    split; [intros other Hne; split; now apply prop_get_map_delete_other |].
    split; discriminate.
  - unfold ToolRegistry.has in Hhas.
    destruct (prop_get name (ToolRegistry.tools r)) eqn:Hget; [discriminate |].
    split; [reflexivity |]. split; [reflexivity |].
    split; [unfold ToolRegistry.has; now rewrite Hget |].
    split; [discriminate |].
    split; [intros other _; split; reflexivity |].
    split; [reflexivity |].
    intros tool r1 Hname _ Hstats Hreg. unfold ToolRegistry.register in Hreg.
    destruct ((Tools.name tool =? EmptyString) || (description tool =? EmptyString))%string;
      [discriminate |].
    injection Hreg as <-. rewrite Hname. unfold ToolRegistry.has. cbn.
    rewrite prop_get_set_same, !map_delete_prop_set_fresh by assumption.
    now destruct r.
Qed.

Lemma registerAll_app (l1 l2 : list (Tool W)) :
  forall r : ToolRegistry.t W,
  ToolRegistry.registerAll r (l1 ++ l2)
  = match ToolRegistry.registerAll r l1 with
    | (None, r1) => ToolRegistry.registerAll r1 l2
    | (Some e, r1) => (Some e, r1)
    end.
Proof.
  induction l1 as [| tool rest IH]; intros r; cbn; [reflexivity |].
  destruct (ToolRegistry.register r tool); [apply IH | reflexivity].
Qed.

Lemma register_keeps (r r' : ToolRegistry.t W) (tool : Tool W) (name : string) :
  ToolRegistry.register r tool = Resolved r' ->
  ToolRegistry.has r name = true -> ToolRegistry.has r' name = true.
Proof.
  intros Hreg. unfold ToolRegistry.register in Hreg.
  destruct ((Tools.name tool =? EmptyString) || (description tool =? EmptyString))%string;
    [discriminate |].
  injection Hreg as <-. unfold ToolRegistry.has. cbn.
  destruct (string_dec (Tools.name tool) name) as [<- | Hne].
  - now rewrite prop_get_set_same.
  - now rewrite prop_get_set_other.
Qed.

Lemma registerAll_accepted (good : list (Tool W)) :
  forall r : ToolRegistry.t W,
  Forall Spec.accepted good ->
  fst (ToolRegistry.registerAll r good) = None
  /\ (forall name, ToolRegistry.has r name = true \/ In name (map Tools.name good) <->
                   ToolRegistry.has (snd (ToolRegistry.registerAll r good)) name = true).
Proof.
  induction good as [| tool rest IH]; intros r Hall; cbn.
  - split; [reflexivity |]. intros name. tauto.
  - inversion Hall as [| ? ? Hacc Hrest]; subst.
    rewrite (register_accepted r tool Hacc).
    match goal with
    | |- context [ToolRegistry.registerAll ?r1 rest] =>
        destruct (IH r1 Hrest) as (Hnone & Hhas)
    end.
    split; [exact Hnone |].
    intros name. rewrite <- Hhas. unfold ToolRegistry.has. cbn.
    destruct (string_dec (Tools.name tool) name) as [<- | Hne].
    + rewrite prop_get_set_same. tauto.
    + rewrite prop_get_set_other by exact Hne. tauto.
Qed.

(** X6. [registerAll] registers the tools in turn and is not all or
    nothing: when a tool without a name or a description follows tools
    that are accepted, the call fails with the error of [register] for
    that tool, the tools before it are registered all the same, and the
    tools after it are not looked at. *)
Theorem registerAll_stops_at_first_refusal (r : ToolRegistry.t W)
    (good : list (Tool W)) (bad : Tool W) (rest : list (Tool W))
    (Hgood : Forall Spec.accepted good) (Hbad : ~ Spec.accepted bad) :
  let r1 := snd (ToolRegistry.registerAll r good) in
  fst (ToolRegistry.registerAll r good) = None
  /\ (exists e,
        ToolRegistry.register r1 bad = Rejected e
        /\ ToolRegistry.registerAll r (good ++ bad :: rest) = (Some e, r1))
  /\ (forall name,
        ToolRegistry.has r1 name = true
        <-> ToolRegistry.has r name = true \/ In name (map Tools.name good)).
Proof.
  intros r1. destruct (registerAll_accepted good r Hgood) as (Hnone & Hhas).
  split; [exact Hnone |]. split.
  - destruct (register_refused r1 bad Hbad) as (e & He). exists e.
    split; [exact He |]. rewrite registerAll_app.
    destruct (ToolRegistry.registerAll r good) as [[e' |] r2] eqn:Hall;
      [discriminate |].
    subst r1. cbn [snd] in *. cbn [ToolRegistry.registerAll]. now rewrite He.
  - intros name. symmetry. apply Hhas.
Qed.

Lemma prop_get_map_values {V V' : Type} (f : V -> V') (k : string) (m : list (string * V)) :
  prop_get k (map (fun kv => (fst kv, f (snd kv))) m)
  = match prop_get k m with Some v => Some (f v) | None => None end.
Proof.
  induction m as [| [k0 v0] rest IH]; cbn; [reflexivity |].
  destruct (String.eqb_spec k0 k); [reflexivity | exact IH].
Qed.

(** X7. [resetStats] keeps every tool and the context and sets the
    counters of every name back to zero.  On a registry built from
    [create] by any sequence of calls, the report of [getUsageStats] after
    a reset shows no call, a [successRate] of 0 and no [averageDuration]
    for every tool, also for one that never failed. *)
Theorem resetStats_zeroes_counters (c : ToolContext) (w0 : W)
    (ops : list ToolRegistry.operation) (name : string) :
  let r := fst (ToolRegistry.after Date_now (ToolRegistry.create c) w0 ops) in
  let r' := ToolRegistry.resetStats r in
  ToolRegistry.tools r' = ToolRegistry.tools r
  /\ ToolRegistry.context r' = ToolRegistry.context r
  /\ (ToolRegistry.has r name = true ->
      prop_get name (ToolRegistry.usageStats r') = Some Spec.unused
      /\ prop_get name (ToolRegistry.getUsageStats r')
         = Some {| u_calls := 0; u_failures := 0; successRate := 0%Q;
                   averageDuration := None |})
  /\ (ToolRegistry.has r name = false ->
      prop_get name (ToolRegistry.getUsageStats r') = None).
Proof.
  intros r r'.
  assert (Hr : Spec.consistent r) by (apply consistent_after, consistent_create).
  assert (Hr' : Spec.consistent r') by (now apply consistent_resetStats).
  split; [reflexivity |]. split; [reflexivity |].
  assert (Hraw : prop_get name (ToolRegistry.usageStats r')
                 = match prop_get name (ToolRegistry.usageStats r) with
                   | Some _ => Some Spec.unused
                   | None => None
                   end)
    by (subst r'; unfold ToolRegistry.resetStats; cbn;
        apply (prop_get_map_values (fun _ => Spec.unused))).
  rewrite (getUsageStats_lookup r' name Hr'), Hraw.
  unfold ToolRegistry.has. split.
  - destruct (prop_get name (ToolRegistry.tools r)) as [tool |] eqn:Htool;
      [| discriminate].
    intros _. destruct (consistent_lookup r name tool Hr Htool) as (stats & -> & _).
    split; reflexivity.
  - destruct (prop_get name (ToolRegistry.tools r)) as [tool |] eqn:Htool;
      [discriminate |].
    intros _. destruct Hr as (Hkeys & _).
    rewrite prop_get_not_In; [reflexivity |].
    rewrite Hkeys. intros Hin. apply prop_get_In in Hin.
    destruct Hin as (v & Hv). congruence.
Qed.


(** ** Sorting *)

Section Sorting.

Context {A : Type}.
Variable cmp : A -> A -> Z.

Lemma sort_insert_perm (x : A) (l : list A) :
  Permutation (sort_insert cmp x l) (x :: l).
Proof.
  induction l as [| y rest IH]; cbn; [reflexivity |].
  destruct (cmp x y <? 0); [reflexivity |].
  rewrite IH. apply perm_swap.
Qed.

Lemma Array_sort_perm (l : list A) : Permutation (Array_sort cmp l) l.
Proof.
  unfold Array_sort.
  assert (Hgen : forall acc, Permutation
                   (fold_left (fun sorted x => sort_insert cmp x sorted) l acc)
                   (acc ++ l)).
  { induction l as [| x rest IH]; intros acc; cbn [fold_left].
    - now rewrite app_nil_r.
    - rewrite IH, sort_insert_perm. apply Permutation_middle. }
  apply (Hgen []).
Qed.

Hypothesis cmp_opposite : forall a b, 0 <= cmp a b -> cmp b a <= 0.
Hypothesis cmp_trans : forall a b c, cmp a b <= 0 -> cmp b c <= 0 -> cmp a c <= 0.

Lemma sort_insert_sorted (x : A) (l : list A) :
  StronglySorted (fun a b => cmp a b <= 0) l ->
  StronglySorted (fun a b => cmp a b <= 0) (sort_insert cmp x l).
Proof.
  induction l as [| y rest IH]; intros Hs; cbn.
  - constructor; constructor.
  - inversion Hs as [| ? ? Hrest Hall]; subst.
    destruct (Z.ltb_spec (cmp x y) 0) as [Hlt | Hge].
    + constructor; [exact Hs |]. constructor; [lia |].
      eapply Forall_impl; [| exact Hall]. intros z Hz. cbn in Hz.
      apply cmp_trans with y; [lia | exact Hz].
    + constructor; [now apply IH |].
      apply Forall_forall. intros z Hz.
      apply (Permutation_in _ (sort_insert_perm x rest)) in Hz.
      destruct Hz as [<- | Hz]; [now apply cmp_opposite |].
      rewrite Forall_forall in Hall. now apply Hall.
Qed.

Lemma Array_sort_sorted (l : list A) :
  StronglySorted (fun a b => cmp a b <= 0) (Array_sort cmp l).
Proof.
  unfold Array_sort.
  assert (Hgen : forall acc, StronglySorted (fun a b => cmp a b <= 0) acc ->
                 StronglySorted (fun a b => cmp a b <= 0)
                   (fold_left (fun sorted x => sort_insert cmp x sorted) l acc)).
  { induction l as [| x rest IH]; intros acc Hacc; cbn [fold_left]; [exact Hacc |].
    apply IH. now apply sort_insert_sorted. }
  apply Hgen. constructor.
Qed.

End Sorting.

Lemma StronglySorted_app_inv {A : Type} (R : A -> A -> Prop) (l1 l2 : list A) :
  StronglySorted R (l1 ++ l2) ->
  StronglySorted R l1 /\ forall a b, In a l1 -> In b l2 -> R a b.
Proof.
  induction l1 as [| x rest IH]; cbn; intros Hs.
  - split; [constructor | intros a b []].
  - inversion Hs as [| ? ? Hrest Hall]; subst.
    destruct (IH Hrest) as (H1 & H2). rewrite Forall_forall in Hall. split.
    + constructor; [exact H1 |]. apply Forall_forall. intros z Hz.
      apply Hall. apply in_or_app. now left.
    + intros a b [<- | Ha] Hb; [| now apply H2].
      apply Hall. apply in_or_app. now right.
Qed.

Lemma Forall2_In_right {A B : Type} (P : A -> B -> Prop) (l : list A) (l' : list B)
    (b : B) :
  Forall2 P l l' -> In b l' -> exists a, In a l /\ P a b.
Proof.
  intros H. induction H as [| a0 b0 l l' Hab Hrest IH]; cbn; [tauto |].
  intros [<- | Hin]; [exists a0; split; [now left | exact Hab] |].
  destruct (IH Hin) as (a & Ha & HP). exists a. split; [now right | exact HP].
Qed.

Lemma Forall2_In_left {A B : Type} (P : A -> B -> Prop) (l : list A) (l' : list B)
    (a : A) :
  Forall2 P l l' -> In a l -> exists b, In b l' /\ P a b.
Proof.
  intros H. induction H as [| a0 b0 l l' Hab Hrest IH]; cbn; [tauto |].
  intros [<- | Hin]; [exists b0; split; [now left | exact Hab] |].
  destruct (IH Hin) as (b & Hb & HP). exists b. split; [now right | exact HP].
Qed.

Lemma StronglySorted_Forall2 {A B : Type} (P : A -> B -> Prop)
    (R : A -> A -> Prop) (R' : B -> B -> Prop) (l : list A) (l' : list B) :
  (forall a a' b b', P a b -> P a' b' -> R a a' -> R' b b') ->
  Forall2 P l l' -> StronglySorted R l -> StronglySorted R' l'.
Proof.
  intros Hrel H. induction H as [| a b l l' Hab Hrest IH]; intros Hs; [constructor |].
  inversion Hs as [| ? ? Hs' Hall]; subst.
  constructor; [now apply IH |].
  rewrite Forall_forall in *. intros b' Hb'.
  destruct (Forall2_In_right _ _ _ _ Hrest Hb') as (a' & Ha' & Hab').
  eapply Hrel; [exact Hab | exact Hab' |]. now apply Hall.
Qed.


(** ** getMostUsed *)

Lemma StronglySorted_firstn {A : Type} (R : A -> A -> Prop) (n : nat) (l : list A) :
  StronglySorted R l -> StronglySorted R (firstn n l).
Proof.
  intros Hs. rewrite <- (firstn_skipn n l) in Hs.
  now apply StronglySorted_app_inv in Hs.
Qed.

(** The entries of the counters lead to the registered tools. *)
Lemma lookups_defined (r : ToolRegistry.t W) (entries : list (string * UsageEntry)) :
  Spec.consistent r ->
  (forall e, In e entries -> In e (ToolRegistry.usageStats r)) ->
  Forall2 (fun e tool =>
             prop_get (fst e) (ToolRegistry.tools r) = Some tool
             /\ name tool = fst e
             /\ Spec.calls_of r (name tool) = calls (snd e))
    entries
    (defined (map (fun e => prop_get (fst e) (ToolRegistry.tools r)) entries)).
Proof.
  intros (Hkeys & Hnd & Hnames & _).
  induction entries as [| e rest IH]; intros Hin; cbn [map defined]; [constructor |].
  assert (He : In e (ToolRegistry.usageStats r)) by (apply Hin; now left).
  assert (Hkey : In (fst e) (map fst (ToolRegistry.tools r)))
    by (rewrite <- Hkeys; now apply in_map).
  apply prop_get_In in Hkey. destruct Hkey as (tool & Htool). rewrite Htool.
  assert (Hname : name tool = fst e)
    by (apply Hnames; now apply prop_get_In_pair).
  constructor; [| apply IH; intros e' He'; apply Hin; now right].
  split; [exact Htool |]. split; [exact Hname |].
  unfold Spec.calls_of. rewrite Hname.
  rewrite (In_prop_get (fst e) (snd e)); [reflexivity | now rewrite Hkeys |].
  now destruct e.
Qed.

(** X8. On a registry built from [create] by any sequence of calls,
    [getMostUsed(limit)] with a limit of 0 or more returns [limit] tools, or
    all of them when fewer are registered; each of them is registered, they
    come in the order of their [calls], most called first, and no tool that
    is left out has been called more often than one that is returned.
    Without an argument the limit is 5; a negative limit leaves out that
    many of the least called tools. *)
Theorem getMostUsed_ranks_by_calls (c : ToolContext) (w0 : W)
    (ops : list ToolRegistry.operation) (limit : Z) :
  let r := fst (ToolRegistry.after Date_now (ToolRegistry.create c) w0 ops) in
  let top := ToolRegistry.getMostUsed r (Some limit) in
  List.length top
  = Z.to_nat (Z.min (if limit <? 0 then Z.of_nat (ToolRegistry.count r) + limit else limit)
                (Z.of_nat (ToolRegistry.count r)))
  /\ (forall tool, In tool top -> ToolRegistry.get r (name tool) = Some tool)
  /\ StronglySorted
       (fun a b => Spec.calls_of r (name b) <= Spec.calls_of r (name a)) top
  /\ (0 <= limit ->
      forall tool other,
        In tool top -> ToolRegistry.get r (name other) = Some other ->
        ~ In other top ->
        Spec.calls_of r (name other) <= Spec.calls_of r (name tool))
  /\ ToolRegistry.getMostUsed r None = ToolRegistry.getMostUsed r (Some 5).
Proof.
  intros r top.
  assert (Hr : Spec.consistent r) by (apply consistent_after, consistent_create).
  set (cmp := fun a b : string * UsageEntry => calls (snd b) - calls (snd a)).
  set (sorted := Array_sort cmp (ToolRegistry.usageStats r)).
  assert (Hperm : Permutation sorted (ToolRegistry.usageStats r))
    by apply Array_sort_perm.
  assert (Hsorted : StronglySorted (fun a b => cmp a b <= 0) sorted)
    by (apply Array_sort_sorted; unfold cmp; intros; lia).
  set (n := Z.to_nat (if limit <? 0 then Z.of_nat (List.length sorted) + limit
                      else limit)).
  assert (Htop : top = defined (map (fun e => prop_get (fst e) (ToolRegistry.tools r))
                                   (firstn n sorted))) by reflexivity.
  assert (Hlen : List.length sorted = ToolRegistry.count r).
  { rewrite (Permutation_length Hperm). unfold ToolRegistry.count.
    destruct Hr as (Hkeys & _).
    rewrite <- (length_map fst (ToolRegistry.usageStats r)), Hkeys.
    apply length_map. }
  assert (Hrel := lookups_defined r (firstn n sorted) Hr).
  rewrite <- Htop in Hrel.
  assert (Hin : forall e, In e (firstn n sorted) -> In e (ToolRegistry.usageStats r)).
  { intros e He. apply (Permutation_in _ Hperm).
    rewrite <- (firstn_skipn n sorted). apply in_or_app. now left. }
  specialize (Hrel Hin).
  split.
  { rewrite <- (Forall2_length Hrel), length_firstn. subst n. rewrite Hlen.
    destruct (limit <? 0); lia. }
  split.
  { intros tool Ht. destruct (Forall2_In_right _ _ _ _ Hrel Ht) as (e & _ & H1 & H2 & _).
    unfold ToolRegistry.get. now rewrite H2. }
  split.
  { eapply StronglySorted_Forall2; [| exact Hrel | apply StronglySorted_firstn, Hsorted].
    intros a a' b b' (_ & _ & Hb) (_ & _ & Hb') Hle. cbn in Hle. unfold cmp in Hle. lia. }
  split; [| reflexivity].
  intros Hlimit tool other Ht Hother Hout.
  destruct (Forall2_In_right _ _ _ _ Hrel Ht) as (e & He & _ & _ & Hcalls).
  unfold ToolRegistry.get in Hother.
  destruct (consistent_lookup r (name other) other Hr Hother) as (stats & Hstats & _).
  assert (Hentry : In (name other, stats) sorted).
  { apply (Permutation_in _ (Permutation_sym Hperm)). now apply prop_get_In_pair. }
  rewrite <- (firstn_skipn n sorted) in Hentry, Hsorted.
  apply StronglySorted_app_inv in Hsorted. destruct Hsorted as (_ & Hcross).
  apply in_app_or in Hentry. destruct Hentry as [Hfirst | Hlast].
  - exfalso. apply Hout.
    destruct (Forall2_In_left _ _ _ _ Hrel Hfirst) as (tool' & Hin' & Hget & _).
    cbn [fst] in Hget. rewrite Hother in Hget. now injection Hget as <-.
  - specialize (Hcross e (name other, stats) He Hlast). unfold cmp in Hcross.
    cbn [snd] in Hcross. unfold Spec.calls_of at 1. rewrite Hstats.
    rewrite Hcalls. lia.
Qed.


(** ** getCategories *)

Lemma compare_strings_opposite (a b : string) :
  0 <= compare_strings a b -> compare_strings b a <= 0.
Proof.
  unfold compare_strings. rewrite (String.compare_antisym b a).
  destruct (String.compare a b); cbn; lia.
Qed.

Lemma compare_strings_trans (a b c : string) :
  compare_strings a b <= 0 -> compare_strings b c <= 0 -> compare_strings a c <= 0.
Proof.
  unfold compare_strings.
  destruct (String.compare a b) eqn:Hab; intros H1; try lia;
    destruct (String.compare b c) eqn:Hbc; intros H2; try lia.
  - apply String.compare_eq_iff in Hab, Hbc. subst.
    destruct (String.compare c c) eqn:Hcc; try lia.
    pose proof (String.compare_antisym c c) as H. rewrite Hcc in H. discriminate.
  - apply String.compare_eq_iff in Hab. subst. now rewrite Hbc.
  - apply String.compare_eq_iff in Hbc. subst. now rewrite Hab.
  - assert (Hac : String.compare a c = Lt).
    { apply OrderedTypeEx.String_as_OT.cmp_lt.
      eapply OrderedTypeEx.String_as_OT.lt_trans;
        apply OrderedTypeEx.String_as_OT.cmp_lt; eassumption. }
    now rewrite Hac.
Qed.

Lemma set_has_In (s : list string) (x : string) : set_has s x = true <-> In x s.
Proof.
  unfold set_has. rewrite existsb_exists. split.
  - intros (y & Hy & Heq). apply String.eqb_eq in Heq. now subst.
  - intros H. exists x. split; [exact H | apply String.eqb_refl].
Qed.

Lemma set_add_spec (s : list string) (x : string) :
  NoDup s -> NoDup (set_add s x) /\ forall y, In y (set_add s x) <-> y = x \/ In y s.
Proof.
  intros Hnd. unfold set_add. destruct (set_has s x) eqn:Hhas.
  - apply set_has_In in Hhas. split; [exact Hnd |].
    intros y. split; [now right | intros [-> | H]; assumption].
  - assert (Hnot : ~ In x s) by (rewrite <- set_has_In; congruence).
    split.
    + apply NoDup_app; [exact Hnd | repeat constructor; intros [] |].
      intros y Hy [<- | []]. contradiction.
    + intros y. rewrite in_app_iff. cbn. intuition congruence.
Qed.

Lemma categories_collected (l : list (Tool W)) :
  forall acc : list string,
  NoDup acc ->
  let categories :=
    fold_left (fun acc tool =>
                 match category tool with
                 | Some c => if (c =? EmptyString)%string then acc else set_add acc c
                 | None => acc
                 end) l acc in
  NoDup categories
  /\ forall c, In c categories
               <-> In c acc
                   \/ (c <> EmptyString /\ exists tool, In tool l /\ category tool = Some c).
Proof.
  induction l as [| tool rest IH]; intros acc Hnd; cbn [fold_left].
  - split; [exact Hnd |]. intros c. split; [now left |].
    intros [H | (_ & tool & [] & _)]. exact H.
  - set (acc' := match category tool with
                 | Some c => if (c =? EmptyString)%string then acc else set_add acc c
                 | None => acc
                 end).
    assert (Hacc' : NoDup acc'
                    /\ forall c, In c acc'
                                 <-> In c acc
                                     \/ (c <> EmptyString /\ category tool = Some c)).
    { subst acc'. destruct (category tool) as [c0 |].
      - destruct (String.eqb_spec c0 EmptyString) as [-> | Hne].
        + split; [exact Hnd |]. intros c. split; [now left |].
          intros [H | (H1 & H2)]; [exact H | congruence].
        + destruct (set_add_spec acc c0 Hnd) as (H1 & H2). split; [exact H1 |].
          intros c. rewrite H2. split.
          * intros [-> | H]; [right; now split | now left].
          * intros [H | (_ & H)]; [now right | left; congruence].
      - split; [exact Hnd |]. intros c. split; [now left |].
        intros [H | (_ & H)]; [exact H | discriminate]. }
    destruct Hacc' as (Hnd' & Hin').
    destruct (IH acc' Hnd') as (H1 & H2). split; [exact H1 |].
    intros c. rewrite H2, Hin'. split.
    + intros [[H | (Hne & Hc)] | (Hne & t & Ht & Hc)].
      * now left.
      * right. split; [exact Hne |]. exists tool. split; [now left | exact Hc].
      * right. split; [exact Hne |]. exists t. split; [now right | exact Hc].
    + intros [H | (Hne & t & [<- | Ht] & Hc)].
      * left. now left.
      * left. right. now split.
      * right. split; [exact Hne |]. now exists t.
Qed.

Lemma StronglySorted_strict {A : Type} (R : A -> A -> Prop) (l : list A) :
  StronglySorted R l -> NoDup l -> StronglySorted (fun a b => R a b /\ a <> b) l.
Proof.
  induction 1 as [| a l Hs IH Hall]; intros Hnd; [constructor |].
  inversion Hnd as [| ? ? Hnotin Hnd']; subst.
  constructor; [now apply IH |].
  rewrite Forall_forall in *. intros b Hb. split; [now apply Hall |].
  intros ->. contradiction.
Qed.

(** X9. [getCategories] returns the categories in strictly ascending order
    of their code units, so each one once, and they are exactly the
    non-empty strings for which [getByCategory] finds a tool: a tool
    without a category, or with the empty string as category, adds
    nothing.  [getByCategory] returns registered tools of the category
    asked for. *)
Theorem getCategories_sorted_and_complete (r : ToolRegistry.t W) :
  StronglySorted (fun a b => String.compare a b = Lt) (ToolRegistry.getCategories r)
  /\ (forall c,
        In c (ToolRegistry.getCategories r)
        <-> c <> EmptyString /\ ToolRegistry.getByCategory r c <> [])
  /\ (forall c tool,
        In tool (ToolRegistry.getByCategory r c)
        <-> In tool (ToolRegistry.getAll r) /\ category tool = Some c).
Proof.
  assert (Hby : forall c tool,
             In tool (ToolRegistry.getByCategory r c)
             <-> In tool (ToolRegistry.getAll r) /\ category tool = Some c).
  { intros c tool. unfold ToolRegistry.getByCategory. rewrite filter_In.
    destruct (category tool) as [c' |]; [| intuition discriminate].
    destruct (String.eqb_spec c' c) as [-> | Hne]; intuition congruence. }
  unfold ToolRegistry.getCategories.
  destruct (categories_collected (ToolRegistry.getAll r) [] (NoDup_nil _))
    as (Hnd & Hin).
  set (categories := fold_left _ (ToolRegistry.getAll r) []) in *.
  pose proof (Array_sort_perm compare_strings categories) as Hperm.
  split; [| split; [| exact Hby]].
  - assert (Hs := Array_sort_sorted compare_strings compare_strings_opposite
                    compare_strings_trans categories).
    apply StronglySorted_strict in Hs;
      [| eapply Permutation_NoDup; [apply Permutation_sym, Hperm | exact Hnd]].
    eapply StronglySorted_Forall2 with (P := eq) (l := Array_sort compare_strings categories);
      [| clear; induction (Array_sort compare_strings categories); constructor; auto
       | exact Hs].
    intros a a' b b' <- <- (Hle & Hne). cbn in Hle. unfold compare_strings in Hle.
    destruct (String.compare a a') eqn:Hc; [| reflexivity | lia].
    apply String.compare_eq_iff in Hc. contradiction.
  - intros c. split.
    + intros Hc. apply (Permutation_in _ Hperm) in Hc. apply Hin in Hc.
      destruct Hc as [[] | (Hne & tool & Ht & Hcat)]. split; [exact Hne |].
      intros Hempty. assert (H : In tool (ToolRegistry.getByCategory r c))
        by (apply Hby; now split).
      rewrite Hempty in H. exact H.
    + intros (Hne & Hfound).
      apply (Permutation_in _ (Permutation_sym Hperm)). apply Hin. right.
      split; [exact Hne |].
      destruct (ToolRegistry.getByCategory r c) as [| tool rest] eqn:Hl;
        [contradiction |].
      exists tool. apply Hby. rewrite Hl. now left.
Qed.


(** ** updateContext *)

(** X10. [updateContext] merges the given properties into the context: a
    property that is given takes the new value, every other property keeps
    the one it had, and the tools and their counters are not touched.  A
    tool executed afterwards receives the merged context. *)
Theorem updateContext_merges (r : ToolRegistry.t W) (c : ToolContext)
    (Hkeys : NoDup (map fst (bag c))) :
  let r' := ToolRegistry.updateContext r c in
  (forall k,
      prop_get k (bag (ToolRegistry.getContext r'))
      = match prop_get k (bag c) with
        | Some v => Some v
        | None => prop_get k (bag (ToolRegistry.getContext r))
        end)
  /\ ToolRegistry.tools r' = ToolRegistry.tools r
  /\ ToolRegistry.usageStats r' = ToolRegistry.usageStats r
  /\ (forall name tool stats params w,
        prop_get name (ToolRegistry.tools r) = Some tool ->
        prop_get name (ToolRegistry.usageStats r) = Some stats ->
        (fst (fst (ToolRegistry.execute Date_now r' name params w)),
         snd (ToolRegistry.execute Date_now r' name params w))
        = execute tool params (Some (ToolRegistry.getContext r')) w).
Proof.
  intros r'. split; [| split; [reflexivity | split; [reflexivity |]]].
  - intros k. unfold ToolRegistry.getContext. subst r'. cbn. unfold spread_props.
    rewrite (prop_get_fold_set (fun v => v) k (bag c) _ Hkeys).
    now destruct (prop_get k (bag c)).
  - intros name tool stats params w Htool Hstats.
    pose proof (execute_counts Date_now r' name params w tool stats Htool Hstats) as H.
    destruct (ToolRegistry.execute Date_now r' name params w) as [[o r2] w2].
    cbn [fst snd]. now destruct H as (H & _).
Qed.

End RegistryLifecycle.

(** ** The properties at work on the sample registry *)

Section RegistryLifecycleSamples.
Import Js Tools.

Lemma register_then_get_witness :
  Spec.accepted Sample.ok_tool
  /\ exists r',
      ToolRegistry.register Sample.registry Sample.ok_tool = Resolved r'
      /\ ToolRegistry.get r' "ok" = Some Sample.ok_tool
      /\ ToolRegistry.count r' = 2%nat.
Proof.
  assert (H : Spec.accepted Sample.ok_tool) by (split; discriminate).
  split; [exact H |].
  destruct (register_then_get Sample.registry Sample.ok_tool H)
    as (r' & H1 & H2 & _ & _ & _ & H3 & _).
  exists r'. split; [exact H1 |]. split; [exact H2 | exact H3].
Defined.


Lemma executeBatch_counts_every_call_witness :
  ToolRegistry.has
    (fst (ToolRegistry.after Sample.clock (ToolRegistry.create empty_context) 1000
            Sample.busy)) "ok" = true
  /\ Spec.calls_of
       (snd (fst (ToolRegistry.executeBatch Sample.clock
                    (fst (ToolRegistry.after Sample.clock
                            (ToolRegistry.create empty_context) 1000 Sample.busy))
                    [("ok", Sample.n_is 1); ("x", VObject []); ("ok", Sample.n_is 2)]
                    2000))) "ok"
     = Spec.calls_of
         (fst (ToolRegistry.after Sample.clock (ToolRegistry.create empty_context) 1000
                 Sample.busy)) "ok"
       + 2.
Proof.
  assert (H : ToolRegistry.has
                (fst (ToolRegistry.after Sample.clock
                        (ToolRegistry.create empty_context) 1000 Sample.busy)) "ok"
              = true) by reflexivity.
  split; [exact H |].
  exact (proj2 (executeBatch_counts_every_call Sample.clock empty_context 1000
                  Sample.busy
                  [("ok", Sample.n_is 1); ("x", VObject []); ("ok", Sample.n_is 2)]
                  2000 "ok" H)).
Defined.

Lemma registerAll_stops_at_first_refusal_witness :
  Forall Spec.accepted [Sample.ok_tool; Sample.failing_tool]
  /\ ~ Spec.accepted Sample.nameless_tool
  /\ (ToolRegistry.has
        (snd (ToolRegistry.registerAll (ToolRegistry.create empty_context)
                [Sample.ok_tool; Sample.failing_tool])) "failing_tool" = true
      <-> ToolRegistry.has (ToolRegistry.create (W := Z) empty_context) "failing_tool"
          = true
          \/ In "failing_tool" (map name [Sample.ok_tool; Sample.failing_tool])).
Proof.
  assert (Hgood : Forall Spec.accepted [Sample.ok_tool; Sample.failing_tool])
    by (repeat constructor; discriminate).
  assert (Hbad : ~ Spec.accepted Sample.nameless_tool)
    by (intros [H _]; now apply H).
  split; [exact Hgood |]. split; [exact Hbad |].
  exact (proj2 (proj2 (registerAll_stops_at_first_refusal
                         (ToolRegistry.create empty_context)
                         [Sample.ok_tool; Sample.failing_tool] Sample.nameless_tool
                         [Sample.blocked_tool] Hgood Hbad)) "failing_tool").
Defined.

Lemma updateContext_merges_witness :
  NoDup (map fst (bag Sample.working_directory))
  /\ prop_get "workingDirectory"
       (bag (ToolRegistry.getContext
               (ToolRegistry.updateContext Sample.registry Sample.working_directory)))
     = Some (VString "/test").
Proof.
  assert (H : NoDup (map fst (bag Sample.working_directory)))
    by (repeat constructor; intros []).
  split; [exact H |].
  exact (proj1 (updateContext_merges Sample.clock Sample.registry
                  Sample.working_directory H) "workingDirectory").
Defined.

End RegistryLifecycleSamples.

(* ================================================================== *)
(** * The guard beyond the pollution scan *)
(* ================================================================== *)

Section GuardLists.
Import Js Security ToolGuard.

#[local] Arguments includes : simpl never.

(** ** The store *)

Lemma nth_list_update_same {A : Type} (l : list A) (i : nat) (x d : A) :
  (i < List.length l)%nat -> nth i (list_update l i x) d = x.
Proof.
  revert i. induction l as [| y rest IH]; intros [| i] H; cbn in *; try lia;
    [reflexivity | apply IH; lia].
Qed.

Lemma list_update_twice {A : Type} (l : list A) (i : nat) (x y : A) :
  list_update (list_update l i x) i y = list_update l i y.
Proof.
  revert i. induction l as [| z rest IH]; intros [| i]; cbn; try reflexivity.
  now rewrite IH.
Qed.

Lemma list_update_nth {A : Type} (l : list A) (i : nat) (d : A) :
  list_update l i (nth i l d) = l.
Proof.
  revert i. induction l as [| z rest IH]; intros [| i]; cbn; try reflexivity.
  now rewrite IH.
Qed.

Lemma array_get_set_same (h : Heap) (a : aref) (l : list string) :
  (a < List.length (arrays h))%nat -> array_get (array_set h a l) a = l.
Proof. intros H. unfold array_get, array_set. cbn. now apply nth_list_update_same. Qed.

Lemma array_get_set_other (h : Heap) (a b : aref) (l : list string) :
  a <> b -> array_get (array_set h a l) b = array_get h b.
Proof. intros H. unfold array_get, array_set. cbn. now apply nth_list_update_other. Qed.

Lemma cfg_array_set (h : Heap) (g : ToolGuard.t) (a : aref) (l : list string) :
  cfg (array_set h a l) g = cfg h g.
Proof. reflexivity. Qed.

Lemma includes_app (l : list string) (x y : string) :
  includes (l ++ [x]) y = includes l y || (x =? y)%string.
Proof.
  unfold includes. rewrite existsb_app. cbn. now rewrite orb_false_r.
Qed.

Lemma includes_count (l : list string) (x : string) :
  includes l x = negb (count_occ string_dec l x =? 0)%nat.
Proof.
  unfold includes. induction l as [| y rest IH]; cbn; [reflexivity |].
  destruct (string_dec y x) as [-> | Hne].
  - now rewrite String.eqb_refl.
  - destruct (String.eqb_spec y x); [contradiction | exact IH].
Qed.

(** ** denyTool and allowTool *)

(** X11. On an enabled guard, [denyTool] blocks the tool at once:
    [isToolAllowed] answers no and notifies [onExecutionBlocked], whatever
    the allow list says.  A second [denyTool] of the same name changes
    nothing, and the answer for every other name is as before. *)
Theorem denyTool_blocks (h : Heap) (g : ToolGuard.t) (toolName : string)
    (Hlist : (deniedTools (cfg h g) < List.length (arrays h))%nat)
    (Henabled : enabled (cfg h g) = true) :
  let h' := denyTool h g toolName in
  isToolAllowed h' g toolName
  = (false, [onExecutionBlocked toolName "Tool is in deny list"])
  /\ denyTool h' g toolName = h'
  /\ (forall other, other <> toolName ->
        isToolAllowed h' g other = isToolAllowed h g other).
Proof.
  intros h'.
  assert (Hcfg : cfg h' g = cfg h g)
    by (subst h'; unfold denyTool; now destruct (negb _)).
  assert (Hin : includes (array_get h' (deniedTools (cfg h g))) toolName = true).
  { subst h'. unfold denyTool.
    destruct (includes (array_get h (deniedTools (cfg h g))) toolName) eqn:Hwas;
      cbn [negb]; [exact Hwas |].
    unfold array_push. rewrite array_get_set_same by exact Hlist.
    rewrite includes_app, String.eqb_refl. apply orb_true_r. }
  split; [| split].
  - unfold isToolAllowed. rewrite Hcfg, Henabled, Hin. reflexivity.
  - unfold denyTool at 1. now rewrite Hcfg, Hin.
  - intros other Hne.
    assert (Hsame : forall a, includes (array_get h' a) other
                              = includes (array_get h a) other).
    { intros a. subst h'. unfold denyTool.
      destruct (negb (includes (array_get h (deniedTools (cfg h g))) toolName));
        [| reflexivity].
      unfold array_push.
      destruct (Nat.eq_dec (deniedTools (cfg h g)) a) as [<- | Hother].
      - rewrite array_get_set_same by exact Hlist. rewrite includes_app.
        destruct (String.eqb_spec toolName other); [congruence | apply orb_false_r].
      - now rewrite array_get_set_other. }
    unfold isToolAllowed. rewrite Hcfg, Hsame.
    destruct (allowedTools (cfg h g)); [now rewrite Hsame | reflexivity].
Qed.

Lemma denyTool_blocks_witness :
  (deniedTools (cfg Sample.heap Sample.guard) < List.length (arrays Sample.heap))%nat
  /\ enabled (cfg Sample.heap Sample.guard) = true
  /\ isToolAllowed (denyTool Sample.heap Sample.guard "rm") Sample.guard "rm"
     = (false, [onExecutionBlocked "rm" "Tool is in deny list"]).
Proof.
  assert (H1 : (deniedTools (cfg Sample.heap Sample.guard)
                < List.length (arrays Sample.heap))%nat) by (vm_compute; lia).
  assert (H2 : enabled (cfg Sample.heap Sample.guard) = true) by reflexivity.
  split; [exact H1 |]. split; [exact H2 |].
  exact (proj1 (denyTool_blocks Sample.heap Sample.guard "rm" H1 H2)).
Defined.

Lemma count_occ_remove_at (l : list string) (x y : string) (i : nat) :
  indexOf l x = Some i ->
  count_occ string_dec (remove_at l i) y
  = if string_dec x y then Nat.pred (count_occ string_dec l y)
    else count_occ string_dec l y.
Proof.
  revert i. induction l as [| z rest IH]; cbn; intros i H; [discriminate |].
  destruct (String.eqb_spec z x) as [-> | Hne].
  - injection H as <-. cbn.
    destruct (string_dec x y) as [-> | Hxy]; [reflexivity | reflexivity].
  - destruct (indexOf rest x) as [j |] eqn:Hj; [| discriminate].
    injection H as <-. cbn. rewrite (IH j eq_refl).
    destruct (string_dec z y) as [-> | Hzy]; [| reflexivity].
    destruct (string_dec x y) as [-> | Hxy]; [contradiction | reflexivity].
Qed.

Lemma indexOf_none (l : list string) (x : string) :
  indexOf l x = None -> count_occ string_dec l x = 0%nat.
Proof.
  induction l as [| z rest IH]; cbn; [reflexivity |].
  destruct (String.eqb_spec z x) as [-> | Hne]; [discriminate |].
  destruct (indexOf rest x); [discriminate |]. intros _.
  destruct (string_dec z x); [contradiction | now apply IH].
Qed.

Lemma indexOf_app_fresh (l : list string) (x : string) :
  includes l x = false -> indexOf (l ++ [x]) x = Some (List.length l).
Proof.
  unfold includes. induction l as [| z rest IH]; cbn.
  - now rewrite String.eqb_refl.
  - destruct (String.eqb_spec z x); [discriminate |]. cbn. intros H.
    now rewrite (IH H).
Qed.

Lemma remove_at_app_last {A : Type} (l : list A) (x : A) :
  remove_at (l ++ [x]) (List.length l) = l.
Proof. induction l as [| z rest IH]; cbn; [reflexivity | now rewrite IH]. Qed.

(** X12. [allowTool] takes one occurrence of the name out of the deny
    list, the first, and touches no other name.  A name that is listed
    once is allowed again as far as the deny list goes; a name that the
    configuration lists twice is still denied after one [allowTool].
    After [denyTool] of a name that was not denied, [allowTool] gives back
    the store as it was. *)
Theorem allowTool_removes_one_occurrence (h : Heap) (g : ToolGuard.t)
    (toolName : string)
    (Hlist : (deniedTools (cfg h g) < List.length (arrays h))%nat) :
  let denied := fun h0 => array_get h0 (deniedTools (cfg h0 g)) in
  let h' := allowTool h g toolName in
  count_occ string_dec (denied h') toolName
  = Nat.pred (count_occ string_dec (denied h) toolName)
  /\ (forall other, other <> toolName ->
        count_occ string_dec (denied h') other = count_occ string_dec (denied h) other)
  /\ ((count_occ string_dec (denied h) toolName <= 1)%nat ->
      includes (denied h') toolName = false)
  /\ ((2 <= count_occ string_dec (denied h) toolName)%nat ->
      includes (denied h') toolName = true)
  /\ (includes (denied h) toolName = false ->
      allowTool (denyTool h g toolName) g toolName = h).
Proof.
  intros denied h'.
  assert (Hcount : forall y,
             count_occ string_dec (denied h') y
             = if string_dec toolName y
               then Nat.pred (count_occ string_dec (denied h) y)
               else count_occ string_dec (denied h) y).
  { intros y. subst denied h'. cbn beta. unfold allowTool.
    destruct (indexOf (array_get h (deniedTools (cfg h g))) toolName) as [i |] eqn:Hi.
    - unfold array_splice1. rewrite ?cfg_array_set.
      rewrite array_get_set_same by exact Hlist.
      now apply count_occ_remove_at.
    - destruct (string_dec toolName y) as [<- | Hne]; [| reflexivity].
      now rewrite (indexOf_none _ _ Hi). }
  split; [| split; [| split; [| split]]].
  - rewrite Hcount. now destruct (string_dec toolName toolName).
  - intros other Hne. rewrite Hcount.
    destruct (string_dec toolName other); [congruence | reflexivity].
  - intros Hle. rewrite includes_count, Hcount.
    destruct (string_dec toolName toolName); [| contradiction].
    revert Hle.
    destruct (count_occ string_dec (denied h) toolName) as [| [| n]]; cbn;
      intros Hle; try reflexivity; lia.
  - intros Hle. rewrite includes_count, Hcount.
    destruct (string_dec toolName toolName); [| contradiction].
    revert Hle.
    destruct (count_occ string_dec (denied h) toolName) as [| [| n]]; cbn;
      intros Hle; try reflexivity; lia.
  - subst denied. cbn beta. intros Hfresh. unfold denyTool. rewrite Hfresh. cbn [negb].
    unfold allowTool, array_push. rewrite ?cfg_array_set.
    rewrite array_get_set_same by exact Hlist.
    rewrite (indexOf_app_fresh _ _ Hfresh).
    unfold array_splice1. rewrite ?cfg_array_set.
    rewrite array_get_set_same by exact Hlist.
    rewrite remove_at_app_last. unfold array_set. cbn.
    rewrite list_update_twice. unfold array_get. rewrite list_update_nth.
    now destruct h.
Qed.

Lemma allowTool_removes_one_occurrence_witness :
  (deniedTools (cfg Sample.denying_heap Sample.denying_guard)
   < List.length (arrays Sample.denying_heap))%nat
  /\ includes
       (array_get (allowTool Sample.denying_heap Sample.denying_guard "blocked")
          (deniedTools
             (cfg (allowTool Sample.denying_heap Sample.denying_guard "blocked")
                Sample.denying_guard)))
       "blocked" = false.
Proof.
  assert (H1 : (deniedTools (cfg Sample.denying_heap Sample.denying_guard)
                < List.length (arrays Sample.denying_heap))%nat) by (vm_compute; lia).
  split; [exact H1 |].
  apply (allowTool_removes_one_occurrence Sample.denying_heap Sample.denying_guard
           "blocked" H1).
  cbn. lia.
Defined.


(** ** A disabled guard *)

Lemma cfg_setEnabled (h : Heap) (g : ToolGuard.t) (b : bool) :
  (config g < List.length (objects h))%nat ->
  enabled (cfg (setEnabled h g b) g) = b
  /\ deniedTools (cfg (setEnabled h g b) g) = deniedTools (cfg h g)
  /\ allowedTools (cfg (setEnabled h g b) g) = allowedTools (cfg h g)
  /\ Security.validateParams (cfg (setEnabled h g b) g)
     = Security.validateParams (cfg h g)
  /\ arrays (setEnabled h g b) = arrays h.
Proof.
  intros H. unfold cfg, setEnabled, object_get, object_set. cbn.
  rewrite nth_list_update_same by exact H. cbn. repeat split.
Qed.

(** X13. [setEnabled(false)] switches every check of the guard off: any
    tool is allowed, also a denied one, with no notification;
    [validateParams] returns the parameters as they are without calling the
    schema; and [parseToolArguments] is a bare [JSON.parse], which returns
    whatever the text holds, dangerous keys included, and throws on
    malformed text instead of answering with a failure.  [setEnabled(true)]
    brings the deny list back into force. *)
Theorem disabled_guard_checks_nothing (h : Heap) (g : ToolGuard.t)
    (Hconfig : (config g < List.length (objects h))%nat) :
  let h' := setEnabled h g false in
  isEnabled h' g = false
  /\ (forall toolName, isToolAllowed h' g toolName = (true, []))
  /\ (forall toolName params schema,
        ToolGuard.validateParams h' g toolName params schema
        = (Resolved {| success := true; data := Some params; ToolGuard.error := None;
                       violations := None |}, []))
  /\ (forall toolName text,
        parseToolArguments h' g toolName text
        = match JSON_parse text with
          | Resolved parsed =>
              (Resolved {| success := true; data := Some parsed;
                           ToolGuard.error := None; violations := None |}, [])
          | Rejected e => (Rejected e, [])
          end)
  /\ (forall toolName,
        isToolAllowed (setEnabled h' g true) g toolName
        = isToolAllowed (setEnabled h g true) g toolName).
Proof.
  intros h'. destruct (cfg_setEnabled h g false Hconfig) as (He & _).
  fold h' in He.
  split; [exact He |].
  split; [intros toolName; unfold isToolAllowed; now rewrite He |].
  split; [intros toolName params schema; unfold ToolGuard.validateParams;
          now rewrite He |].
  split; [intros toolName text; unfold parseToolArguments; now rewrite He |].
  intros toolName.
  assert (Hlen : (config g < List.length (objects h'))%nat)
    by (subst h'; unfold setEnabled, object_set; cbn; now rewrite length_list_update).
  destruct (cfg_setEnabled h' g true Hlen) as (E1 & D1 & A1 & _ & R1).
  destruct (cfg_setEnabled h g true Hconfig) as (E2 & D2 & A2 & _ & R2).
  destruct (cfg_setEnabled h g false Hconfig) as (_ & D3 & A3 & _ & R3).
  fold h' in D3, A3, R3.
  unfold isToolAllowed, array_get.
  now rewrite E1, E2, D1, D2, A1, A2, R1, R2, D3, A3, R3.
Qed.

Lemma disabled_guard_checks_nothing_witness :
  (config Sample.denying_guard < List.length (objects Sample.denying_heap))%nat
  /\ isToolAllowed (setEnabled Sample.denying_heap Sample.denying_guard false)
       Sample.denying_guard "blocked" = (true, []).
Proof.
  assert (H : (config Sample.denying_guard
               < List.length (objects Sample.denying_heap))%nat)
    by (vm_compute; lia).
  split; [exact H |].
  exact (proj1 (proj2 (disabled_guard_checks_nothing Sample.denying_heap
                         Sample.denying_guard H)) "blocked").
Defined.

(** ** The answers of parseToolArguments *)

Lemma parse_value_shape (fuel : nat) (s : string) (v : value) (rest : string) :
  parse_value fuel s = Some (v, rest) ->
  match v with VUndefined | VBuffer _ => False | _ => True end.
Proof.
  destruct fuel as [| fuel']; cbn [parse_value]; [discriminate |].
  destruct (skip_ws s) as [| c rest0]; [discriminate |].
  repeat match goal with
         | |- context [if ?b then _ else _] => destruct b
         | |- context [match ?e with _ => _ end] => destruct e
         end;
    intros H; try discriminate; inversion H; subst; exact I.
Qed.

Lemma JSON_parse_shape (text : string) (v : value) :
  JSON_parse text = Resolved v ->
  match v with VUndefined | VBuffer _ => False | _ => True end.
Proof.
  unfold JSON_parse.
  destruct (parse_value (S (String.length text)) text) as [[v0 rest] |] eqn:Hp;
    [| discriminate].
  destruct (skip_ws rest); [| discriminate].
  intros H. injection H as <-. eapply parse_value_shape. exact Hp.
Qed.

(** X14. With the guard enabled, [parseToolArguments] never throws: it
    answers every text.  Malformed text gets [Invalid JSON in tool
    arguments] and a validation-failed notification; a value that is not
    a plain object (a number, a string, a boolean, [null], an array) and
    holds no dangerous key gets [Tool arguments must be a JSON object]; and
    when the answer is a success, the data is the parsed object itself, an
    object that the pollution scan has passed. *)
Theorem parseToolArguments_always_answers (h : Heap) (g : ToolGuard.t)
    (toolName text : string) (Henabled : enabled (cfg h g) = true) :
  exists result events,
    parseToolArguments h g toolName text = (Resolved result, events)
    /\ (forall e, JSON_parse text = Rejected e ->
          result = {| success := false; data := None;
                      ToolGuard.error := Some "Invalid JSON in tool arguments";
                      violations := None |}
          /\ events = [onValidationFailed toolName
                         ("JSON parsing failed: " ++ err_message e)])
    /\ (forall parsed, JSON_parse text = Resolved parsed ->
          hasPrototypePollution parsed 0 = false ->
          match parsed with
          | VObject props =>
              result = {| success := true; data := Some (VObject props);
                          ToolGuard.error := None; violations := None |}
          | _ =>
              result = {| success := false; data := None;
                          ToolGuard.error := Some "Tool arguments must be a JSON object";
                          violations := None |}
          end
          /\ events = [])
    /\ (success result = true ->
        exists props,
          JSON_parse text = Resolved (VObject props)
          /\ data result = Some (VObject props)
          /\ hasPrototypePollution (VObject props) 0 = false)
    /\ (success result = false -> data result = None).
Proof.
  unfold parseToolArguments. rewrite Henabled. cbn [negb].
  destruct (JSON_parse text) as [parsed | e] eqn:Hparse.
  - pose proof (JSON_parse_shape text parsed Hparse) as Hshape.
    destruct (hasPrototypePollution parsed 0) eqn:Hscan.
    + do 2 eexists. split; [reflexivity |].
      split; [intros e He; discriminate |].
      split; [intros p Hp Hclean; injection Hp as <-; congruence |].
      split; [discriminate | reflexivity].
    + destruct parsed as [ | | b | n | s | bytes | items | props];
        try contradiction; cbn;
        (do 2 eexists; split; [reflexivity |];
         split; [intros e He; discriminate |];
         split; [intros p Hp _; injection Hp as <-; split; reflexivity |];
         split; [try discriminate | try reflexivity]).
      * intros _. exists props. repeat split. exact Hscan.
      * discriminate.
  - do 2 eexists. split; [reflexivity |].
    split; [intros e' He'; injection He' as <-; split; reflexivity |].
    split; [intros p Hp; discriminate |].
    split; [discriminate | reflexivity].
Qed.

Lemma parseToolArguments_always_answers_witness :
  enabled (cfg Sample.heap Sample.guard) = true
  /\ exists result events,
      parseToolArguments Sample.heap Sample.guard "read_file" "[1, 2" 
      = (Resolved result, events)
      /\ (success result = false -> data result = None).
Proof.
  assert (H : enabled (cfg Sample.heap Sample.guard) = true) by reflexivity.
  split; [exact H |].
  destruct (parseToolArguments_always_answers Sample.heap Sample.guard "read_file"
              "[1, 2" H) as (result & events & H1 & _ & _ & _ & H2).
  exists result, events. split; [exact H1 | exact H2].
Defined.

(** ** The deny list of the defaults *)

Lemma cfg_new (h : Heap) (p : PartialConfig) :
  cfg (snd (ToolGuard.new h p)) (fst (ToolGuard.new h p)) = spread DEFAULT_CONFIG p
  /\ arrays (snd (ToolGuard.new h p)) = arrays h
  /\ (forall g, (config g < List.length (objects h))%nat ->
                cfg (snd (ToolGuard.new h p)) g = cfg h g).
Proof.
  unfold ToolGuard.new, object_new, cfg, object_get. cbn.
  split; [now rewrite nth_middle |]. split; [reflexivity |].
  intros g Hg. now rewrite app_nth1.
Qed.

(** X15. Guards built without a [deniedTools] of their own share one deny
    list, the array of the defaults: after [denyTool] on one of them, a
    second guard that is enabled blocks the tool too, whether it was built
    before the call or after it, although it allowed the tool until
    then. *)
Theorem default_deny_list_is_shared (h : Heap) (p1 p2 : PartialConfig)
    (toolName : string)
    (Hloaded : (DEFAULT_deniedTools < List.length (arrays h))%nat)
    (Hp1 : p_deniedTools p1 = None) (Hp2 : p_deniedTools p2 = None)
    (Henabled : p_enabled p2 <> Some false) :
  let g1 := fst (ToolGuard.new h p1) in
  let h1 := snd (ToolGuard.new h p1) in
  let g2 := fst (ToolGuard.new h1 p2) in
  let h2 := snd (ToolGuard.new h1 p2) in
  let g3 := fst (ToolGuard.new (denyTool h1 g1 toolName) p2) in
  let h3 := snd (ToolGuard.new (denyTool h1 g1 toolName) p2) in
  (p_allowedTools p2 = None ->
   includes (array_get h DEFAULT_deniedTools) toolName = false ->
   isToolAllowed h2 g2 toolName = (true, []))
  /\ isToolAllowed (denyTool h2 g1 toolName) g2 toolName
     = (false, [onExecutionBlocked toolName "Tool is in deny list"])
  /\ isToolAllowed h3 g3 toolName
     = (false, [onExecutionBlocked toolName "Tool is in deny list"]).
Proof.
  intros g1 h1 g2 h2 g3 h3.
  destruct (cfg_new h p1) as (C1 & A1 & _). fold g1 h1 in C1, A1.
  destruct (cfg_new h1 p2) as (C2 & A2 & K2). fold g2 h2 in C2, A2, K2.
  destruct (cfg_new (denyTool h1 g1 toolName) p2) as (C3 & A3 & _).
  fold g3 h3 in C3, A3.
  assert (Hen : enabled (spread DEFAULT_CONFIG p2) = true)
    by (cbn; destruct (p_enabled p2) as [[|] |]; congruence).
  assert (Hd : forall p, p_deniedTools p = None ->
                         deniedTools (spread DEFAULT_CONFIG p) = DEFAULT_deniedTools)
    by (intros p Hp; cbn; now rewrite Hp).
  assert (Hg1 : (config g1 < List.length (objects h1))%nat)
    by (subst g1 h1; unfold ToolGuard.new, object_new; cbn; rewrite length_app; cbn; lia).
  assert (Hpushed : forall h0, arrays h0 = arrays h -> cfg h0 g1 = cfg h1 g1 ->
             includes (array_get (denyTool h0 g1 toolName) DEFAULT_deniedTools) toolName
             = true).
  { intros h0 Harr Hcfg. unfold denyTool. rewrite Hcfg, C1, (Hd p1 Hp1).
    destruct (includes (array_get h0 DEFAULT_deniedTools) toolName) eqn:Hwas;
      cbn [negb]; [exact Hwas |].
    unfold array_push. rewrite array_get_set_same by (now rewrite Harr).
    rewrite includes_app, String.eqb_refl. apply orb_true_r. }
  split; [| split].
  - intros Hallow Hfresh. unfold isToolAllowed. rewrite C2, Hen, (Hd p2 Hp2).
    cbn [negb]. unfold array_get. rewrite A2, A1. fold (array_get h DEFAULT_deniedTools).
    rewrite Hfresh. cbn. now rewrite Hallow.
  - unfold isToolAllowed.
    assert (Hcfg : cfg (denyTool h2 g1 toolName) g2 = cfg h2 g2)
      by (unfold denyTool; now destruct (negb _)).
    rewrite Hcfg, C2, Hen, (Hd p2 Hp2). cbn [negb].
    rewrite Hpushed; [reflexivity | congruence | now apply K2].
  - unfold isToolAllowed. rewrite C3, Hen, (Hd p2 Hp2). cbn [negb].
    unfold array_get. rewrite A3. fold (array_get (denyTool h1 g1 toolName) DEFAULT_deniedTools).
    rewrite Hpushed; [reflexivity | exact A1 | reflexivity].
Qed.

Lemma default_deny_list_is_shared_witness :
  (DEFAULT_deniedTools < List.length (arrays initial_heap))%nat
  /\ p_deniedTools Security.empty = None
  /\ p_enabled Security.empty <> Some false
  /\ isToolAllowed
       (denyTool (snd (ToolGuard.new (snd (ToolGuard.new initial_heap Security.empty))
                         Security.empty))
          (fst (ToolGuard.new initial_heap Security.empty)) "rm")
       (fst (ToolGuard.new (snd (ToolGuard.new initial_heap Security.empty))
               Security.empty))
       "rm"
     = (false, [onExecutionBlocked "rm" "Tool is in deny list"]).
Proof.
  assert (H0 : (DEFAULT_deniedTools < List.length (arrays initial_heap))%nat)
    by (vm_compute; lia).
  assert (H1 : p_deniedTools Security.empty = None) by reflexivity.
  assert (H2 : p_enabled Security.empty <> Some false) by discriminate.
  split; [exact H0 |]. split; [exact H1 |]. split; [exact H2 |].
  exact (proj1 (proj2 (default_deny_list_is_shared initial_heap Security.empty
                         Security.empty "rm" H0 H1 H1 H2))).
Defined.

End GuardLists.

(* ================================================================== *)
(** * The sandbox beyond the claims *)
(* ================================================================== *)

Section SandboxRuns.
Import Js Tools ToolSandbox Spec.

#[local] Arguments estimateSize : simpl never.

Ltac each_branch :=
  repeat match goal with
         | |- context [match ?e with _ => _ end] => destruct e
         end.

(** ** The limit on concurrent executions *)

Lemma map_delete_length_le {V : Type} (k : string) (m : list (string * V)) :
  (List.length (map_delete k m) <= List.length m)%nat.
Proof.
  induction m as [| [k0 v0] rest IH]; cbn; [lia |].
  destruct (k0 =? k)%string; cbn; lia.
Qed.

Lemma abort_at_config (s : t) (i : nat) : config (abort_at s i) = config s.
Proof. unfold abort_at. now destruct (nth_error (executions s) i). Qed.

Lemma cancelAll_loop_config (entries : list (string * nat)) :
  forall s,
  config
    (fold_left (fun acc entry =>
                  emit (abort_at acc (snd entry)) [Event (onCancelled (fst entry))])
       entries s)
  = config s.
Proof.
  induction entries as [| e rest IH]; intros s; cbn [fold_left]; [reflexivity |].
  rewrite IH. cbn [config emit with_state]. apply abort_at_config.
Qed.

Lemma step_config (s : t) (l : step_label) :
  (forall q, l <> UpdateConfigCalled q) -> config (step s l) = config s.
Proof.
  intros Hl.
  destruct l as [toolName params baseContext options now | i r | i o | i | i | i r
                | id | | q]; cbn [step].
  - unfold execute_enter. each_branch; reflexivity.
  - unfold after_before. each_branch; reflexivity.
  - unfold tool_settles. each_branch; reflexivity.
  - unfold timer_fires. each_branch; reflexivity.
  - unfold resumes. each_branch; reflexivity.
  - unfold after_after. each_branch; reflexivity.
  - unfold cancel. each_branch; cbn; [apply abort_at_config | reflexivity].
  - unfold cancelAll. cbn [config with_state]. apply cancelAll_loop_config.
  - now elim (Hl q).
Qed.

Lemma step_active_length (s : t) (l : step_label) :
  (List.length (activeExecutions (step s l)) <= List.length (activeExecutions s))%nat
  \/ (Z.of_nat (List.length (activeExecutions s)) < Security.maxConcurrentCalls (config s)
      /\ (List.length (activeExecutions (step s l))
          <= S (List.length (activeExecutions s)))%nat).
Proof.
  destruct l as [toolName params baseContext options now | i r | i o | i | i | i r
                | id | | q]; cbn [step].
  - unfold execute_enter.
    destruct (negb (Security.enabled (config s))
              || negb (Security.sandboxExecution (config s))); [now left |].
    destruct (Z.geb_spec (Z.of_nat (List.length (activeExecutions s)))
                (Security.maxConcurrentCalls (config s))) as [Hfull | Hroom];
      [now left |].
    right. split; [exact Hroom |]. cbn [fst activeExecutions].
    rewrite prop_set_length. destruct (prop_get _ _); lia.
  - left. unfold after_before. each_branch; cbn; lia.
  - left. unfold tool_settles. each_branch; cbn; lia.
  - left. unfold timer_fires. each_branch; cbn; lia.
  - left. unfold resumes. each_branch; cbn; lia.
  - left. unfold after_after.
    each_branch; cbn; try lia; apply map_delete_length_le.
  - left. unfold cancel. destruct (prop_get id (activeExecutions s)); [| cbn; lia].
    cbn [snd activeExecutions emit delete_active with_state].
    rewrite abort_at_active. apply map_delete_length_le.
  - left. cbn. lia.
  - left. cbn. lia.
Qed.

(** X16. As long as the configuration is not replaced, the number of
    active executions never exceeds [maxConcurrentCalls] (or 0, when the
    limit is negative), whatever calls, settlements, timeouts and
    cancellations interleave. *)
Theorem active_count_within_limit (p : Security.PartialConfig)
    (tr : list step_label) (Hfixed : config_fixed tr) :
  config (run (new p) tr) = config (new p)
  /\ Z.of_nat (getActiveCount (run (new p) tr))
     <= Z.max 0 (Security.maxConcurrentCalls (config (new p))).
Proof.
  unfold getActiveCount.
  assert (Hgen : forall s,
             config_fixed tr ->
             Z.of_nat (List.length (activeExecutions s))
             <= Z.max 0 (Security.maxConcurrentCalls (config s)) ->
             config (run s tr) = config s
             /\ Z.of_nat (List.length (activeExecutions (run s tr)))
                <= Z.max 0 (Security.maxConcurrentCalls (config s))).
  { clear Hfixed.
    induction tr as [| l rest IH]; intros s Hf Hs; cbn [run fold_left]; [now split |].
    assert (Hl : forall q, l <> UpdateConfigCalled q)
      by (intros q ->; apply (Hf q); now left).
    assert (Hrest : config_fixed rest)
      by (intros q Hq; apply (Hf q); now right).
    pose proof (step_config s l Hl) as Hc.
    destruct (IH (step s l) Hrest) as (H1 & H2).
    - rewrite Hc. destruct (step_active_length s l) as [H | [H3 H4]]; lia.
    - unfold run in *. split; [congruence |]. now rewrite Hc in H2. }
  apply Hgen; [exact Hfixed |]. cbn. lia.
Qed.

Lemma active_count_within_limit_witness :
  config_fixed [Sample.slow_call 1000; Sample.slow_call 1001; Sample.slow_call 1002;
                CancelCalled "exec-1-1000"; Sample.slow_call 1003]
  /\ Z.of_nat (getActiveCount
                 (run (new Sample.two_at_most)
                    [Sample.slow_call 1000; Sample.slow_call 1001; Sample.slow_call 1002;
                     CancelCalled "exec-1-1000"; Sample.slow_call 1003]))
     <= Z.max 0 (Security.maxConcurrentCalls (config (new Sample.two_at_most))).
Proof.
  assert (H : config_fixed
                [Sample.slow_call 1000; Sample.slow_call 1001; Sample.slow_call 1002;
                 CancelCalled "exec-1-1000"; Sample.slow_call 1003]).
  { intros q Hq. cbn in Hq. unfold Sample.slow_call in Hq.
    repeat (destruct Hq as [Hq | Hq]; [discriminate |]). exact Hq. }
  split; [exact H |].
  exact (proj2 (active_count_within_limit Sample.two_at_most _ H)).
Defined.


(** ** Execution ids *)

Lemma step_numbers (s : t) (l : step_label) :
  executionCount s = List.length (executions s) ->
  executionCount (step s l) = List.length (executions (step s l)).
Proof.
  intros H.
  destruct l as [toolName params baseContext options now | i r | i o | i | i | i r
                | id | | q]; cbn [step].
  - unfold execute_enter. each_branch; cbn [fst executionCount executions emit with_state];
      rewrite ?length_app; cbn; lia.
  - unfold after_before. each_branch; cbn; rewrite ?length_list_update; exact H.
  - unfold tool_settles. each_branch; cbn; rewrite ?length_list_update; exact H.
  - unfold timer_fires. each_branch; cbn; rewrite ?length_list_update; exact H.
  - unfold resumes. each_branch; cbn; rewrite ?length_list_update; exact H.
  - unfold after_after. each_branch; cbn; rewrite ?length_list_update; exact H.
  - unfold cancel. destruct (prop_get id (activeExecutions s)); [| exact H].
    cbn [snd executionCount executions emit delete_active with_state].
    now rewrite abort_at_count, abort_at_length.
  - unfold cancelAll. cbn [executionCount executions with_state].
    now rewrite cancelAll_loop_count, cancelAll_loop_length.
  - exact H.
Qed.

Lemma numbered_step (s : t) (l : step_label) : numbered s -> numbered (step s l).
Proof.
  intros (Hcount & Hids). split; [now apply step_numbers |].
  intros j y Hy. destruct (nth_error (executions s) j) as [x |] eqn:Hx.
  - destruct (step_moves s l j x Hx) as (x' & Hx' & Hmv).
    rewrite Hy in Hx'. injection Hx' as <-.
    destruct (moves_static j l x y Hmv) as (-> & _). now apply Hids.
  - destruct (step_fresh s l j y Hx Hy) as (tn & pa & bc & op & nw & _ & -> & -> & _).
    exists nw. cbn. now rewrite Hcount.
Qed.

Lemma numbered_run (p : Security.PartialConfig) (tr : list step_label) :
  numbered (run (new p) tr).
Proof.
  assert (Hgen : forall s, numbered s -> numbered (run s tr)).
  { induction tr as [| l rest IH]; intros s Hs; cbn [run fold_left]; [exact Hs |].
    apply IH. now apply numbered_step. }
  apply Hgen. split; [reflexivity |]. intros j y Hy. destruct j; discriminate.
Qed.

(** X17. The executions that pass the gate of a sandbox get ids that
    differ from one another, also when two calls fall into the same
    millisecond: the [n]-th of them has an id of the form [exec-n-time],
    whatever was refused or bypassed in between, and every active id is the
    id of one of them. *)
Theorem execution_ids_are_unique (p : Security.PartialConfig)
    (tr : list step_label) (i : nat) (x : Execution)
    (Hx : nth_error (executions (run (new p) tr)) i = Some x) :
  (exists now, x_id x = make_id (S i) now)
  /\ (forall j y, nth_error (executions (run (new p) tr)) j = Some y ->
        x_id y = x_id x -> j = i)
  /\ (In (x_id x) (getActiveExecutionIds (run (new p) tr)) ->
      prop_get (x_id x) (activeExecutions (run (new p) tr)) = Some i).
Proof.
  destruct (numbered_run p tr) as (_ & Hids).
  assert (Hunique : forall j y, nth_error (executions (run (new p) tr)) j = Some y ->
                                x_id y = x_id x -> j = i).
  { intros j y Hy Heq.
    destruct (Hids i x Hx) as (n1 & H1). destruct (Hids j y Hy) as (n2 & H2).
    rewrite H1, H2 in Heq. apply make_id_inj in Heq. lia. }
  split; [now apply Hids |]. split; [exact Hunique |].
  intros Hin. apply prop_get_In in Hin. destruct Hin as (j & Hj).
  destruct (active_valid_run p tr (x_id x) j Hj) as (y & Hy & Hid).
  now rewrite (Hunique j y Hy Hid) in Hj.
Qed.

Lemma execution_ids_are_unique_witness :
  exists x,
    nth_error (executions Sample.two_running) 1 = Some x
    /\ x_id x = "exec-2-1001"
    /\ forall j y, nth_error (executions Sample.two_running) j = Some y ->
                   x_id y = x_id x -> j = 1%nat.
Proof.
  eexists. split; [reflexivity |]. split; [reflexivity |].
  exact (proj1 (proj2 (execution_ids_are_unique Sample.two_at_most
                         [Sample.slow_call 1000; Sample.slow_call 1001;
                          BeforeHookReturns 0 (Resolved tt);
                          BeforeHookReturns 1 (Resolved tt)] 1 _ eq_refl))).
Defined.

(** ** cancelAll *)

Lemma cancelAll_loop_log (entries : list (string * nat)) :
  forall s,
  log (fold_left (fun acc entry =>
                    emit (abort_at acc (snd entry)) [Event (onCancelled (fst entry))])
         entries s)
  = (log s ++ map (fun id => Event (onCancelled id)) (map fst entries))%list.
Proof.
  induction entries as [| e rest IH]; intros s; cbn [fold_left map].
  - now rewrite app_nil_r.
  - rewrite IH. cbn [log emit with_state]. rewrite abort_at_log.
    now rewrite <- app_assoc.
Qed.

Lemma cancelAll_loop_untouched (entries : list (string * nat)) (j : nat) :
  forall s,
  ~ In j (map snd entries) ->
  nth_error
    (executions
       (fold_left (fun acc entry =>
                     emit (abort_at acc (snd entry)) [Event (onCancelled (fst entry))])
          entries s)) j
  = nth_error (executions s) j.
Proof.
  induction entries as [| e rest IH]; intros s Hj; cbn [fold_left]; [reflexivity |].
  cbn [map In] in Hj. rewrite IH by tauto. cbn [executions emit with_state].
  apply abort_at_other. tauto.
Qed.

Lemma cancelAll_loop_aborted (entries : list (string * nat)) (j : nat) (x : Execution) :
  forall s,
  In j (map snd entries) ->
  nth_error (executions s) j = Some x \/ nth_error (executions s) j = Some (abort x) ->
  nth_error
    (executions
       (fold_left (fun acc entry =>
                     emit (abort_at acc (snd entry)) [Event (onCancelled (fst entry))])
          entries s)) j
  = Some (abort x).
Proof.
  induction entries as [| e rest IH]; intros s Hj Hx; cbn [fold_left]; [contradiction |].
  cbn [map In] in Hj.
  set (s1 := emit (abort_at s (snd e)) [Event (onCancelled (fst e))]).
  destruct (Nat.eq_dec (snd e) j) as [Heq | Hne].
  - assert (H1 : nth_error (executions s1) j = Some (abort x)).
    { subst s1. cbn [executions emit with_state]. rewrite Heq.
      destruct Hx as [Hx | Hx].
      - now apply abort_at_nth.
      - rewrite <- (abort_idempotent x). now apply abort_at_nth. }
    destruct (in_dec Nat.eq_dec j (map snd rest)) as [Hin | Hout].
    + apply IH; [exact Hin | now right].
    + rewrite cancelAll_loop_untouched by exact Hout. exact H1.
  - destruct Hj as [Hj | Hj]; [contradiction |].
    apply IH; [exact Hj |].
    subst s1. cbn [executions emit with_state]. now rewrite abort_at_other.
Qed.

(** X18. In every state the sandbox can reach, [cancelAll] empties the
    active set, notifies [onCancelled] once for every id that was active,
    in the order in which they became active, and aborts the controller of
    each of these executions; the executions that were not active are not
    touched, and no id can be cancelled afterwards. *)
Theorem cancelAll_aborts_every_active (p : Security.PartialConfig)
    (tr : list step_label) :
  let s := run (new p) tr in
  let s' := cancelAll s in
  getActiveCount s' = 0%nat
  /\ log s'
     = (log s ++ map (fun id => Event (onCancelled id)) (getActiveExecutionIds s))%list
  /\ (forall j x, nth_error (executions s) j = Some x ->
        nth_error (executions s') j
        = Some (if in_dec string_dec (x_id x) (getActiveExecutionIds s)
                then abort x else x))
  /\ (forall id, cancel s' id = (false, s')).
Proof.
  intros s s'. unfold getActiveCount, getActiveExecutionIds.
  split; [reflexivity |].
  split; [subst s'; unfold cancelAll; cbn [log with_state]; apply cancelAll_loop_log |].
  split; [| intros id; reflexivity].
  intros j x Hx. subst s'. unfold cancelAll. cbn [executions with_state].
  pose proof (active_valid_run p tr) as Hvalid. fold s in Hvalid.
  destruct (numbered_run p tr) as (_ & Hids). fold s in Hids.
  destruct (in_dec string_dec (x_id x) (map fst (activeExecutions s))) as [Hin | Hout].
  - apply cancelAll_loop_aborted; [| now left].
    apply prop_get_In in Hin. destruct Hin as (i & Hi).
    destruct (Hvalid _ _ Hi) as (y & Hy & Hid).
    assert (i = j).
    { destruct (Hids i y Hy) as (n1 & H1). destruct (Hids j x Hx) as (n2 & H2).
      rewrite H1, H2 in Hid. apply make_id_inj in Hid. lia. }
    subst i. apply prop_get_In_pair in Hi. now apply (in_map snd) in Hi.
  - rewrite cancelAll_loop_untouched; [exact Hx |].
    intros Hj. apply in_map_iff in Hj. destruct Hj as ([id i] & Heq & Hentry).
    cbn in Heq. subst i. apply Hout.
    assert (Hkey : In id (map fst (activeExecutions s)))
      by (now apply (in_map fst) in Hentry).
    apply prop_get_In in Hkey. destruct Hkey as (i & Hi).
    destruct (Hvalid _ _ Hi) as (y & Hy & Hid).
    assert (Hnd : NoDup (map fst (activeExecutions s)))
      by apply (active_ids_distinct p tr).
    rewrite (In_prop_get id j _ Hnd Hentry) in Hi. injection Hi as <-.
    rewrite Hx in Hy. injection Hy as <-. rewrite Hid.
    now apply (in_map fst) in Hentry.
Qed.


(** ** Where an invocation stands *)

Ltac moves_cases H :=
  destruct H as [l x | r x Hp Hr | r e x Hp Hr | o x Hpend | x Harmed
                | x result Hp Hv Hsz | x result Hp Hv Hsz | x e Hp Hv
                | x result r Hp Hr | x result r e Hp Hr | x e r Hp Hr
                | x e r e' Hp Hr | id x | x].

Lemma abort_in_step (x : Execution) : in_step x -> in_step (abort x).
Proof.
  unfold in_step, abort. intros H.
  destruct (x_aborted x); [exact H |].
  destruct (x_phase x) eqn:Hphase; cbn; rewrite ?Hphase; auto.
  - destruct H as (H1 & H2 & H3 & H4). rewrite H3. cbn. rewrite Hphase. auto.
  - destruct (x_listener x) eqn:Hl; cbn; rewrite Hphase.
    + destruct (x_promise x); cbn; [discriminate |].
      intros Hnone. discriminate.
    + intros Hnone. destruct (H Hnone) as (_ & _ & Hl'). congruence.
  - destruct (x_listener x); cbn; rewrite Hphase; exact I.
  - destruct (x_listener x); cbn; rewrite Hphase; exact I.
  - destruct (x_listener x); cbn; rewrite Hphase; exact I.
Qed.

Lemma in_step_run (p : Security.PartialConfig) (tr : list step_label)
    (i : nat) (x : Execution) :
  nth_error (executions (run (new p) tr)) i = Some x -> in_step x.
Proof.
  revert p tr i x. apply (invocations_invariant in_step).
  - intros s toolName params baseContext options now. cbn. auto.
  - intros i l x x' Hmv Hx. unfold in_step in *.
    moves_cases Hmv; cbn; auto; try (rewrite Hp; exact I).
    + destruct (x_phase x); auto.
      * destruct Hx as (_ & Hx & _). congruence.
      * destruct (x_promise x); discriminate.
    + destruct (x_phase x); auto.
      * destruct Hx as (Hx & _). congruence.
      * destruct (x_promise x); discriminate.
    + now apply abort_in_step.
    + now apply abort_in_step.
Qed.

(** ** The race is lost *)

Lemma lost_race (s1 : t) (i : nat) (x1 : Execution) (e0 : error)
    (tr : list step_label) :
  nth_error (executions s1) i = Some x1 ->
  x_phase x1 = Racing -> x_promise x1 = Some (Rejected e0) -> x_timer x1 <> Armed ->
  exists x',
    nth_error (executions (run s1 tr)) i = Some x'
    /\ x_promise x' = Some (Rejected e0)
    /\ x_timer x' <> Armed
    /\ (forall o, result_of (run s1 tr) i = Some o ->
          exists e, o = Rejected e
                    /\ (e = e0
                        \/ (x_onAfter x1 = true
                            /\ In (AfterHookReturns i (Rejected e)) tr))).
Proof.
  intros Hx1 Hphase Hpromise Htimer.
  assert (Hset : settled (Rejected e0) x1)
    by (unfold settled; rewrite Hphase; repeat split; [discriminate | assumption ..]).
  assert (Hf : failing e0 (fun _ => False) x1)
    by (unfold failing; now rewrite Hphase).
  destruct (run_settled i (Rejected e0) tr s1 _ Hx1 Hset) as (x' & Hx' & _ & Hp & Ht).
  exists x'. repeat split; try assumption.
  intros o Ho.
  destruct (run_failing i e0 tr s1 _ _ Hx1 Hf) as (x'' & Hx'' & Hf').
  rewrite Hx' in Hx''. injection Hx'' as <-.
  destruct (failing_result _ i x' e0 _ o Hx' Hf' Ho) as (e & -> & He).
  exists e. split; [reflexivity |]. cbn in He. tauto.
Qed.

(** X19. In every state the sandbox can reach, [cancel] on the id of an
    execution whose race is open and whose controller has not been aborted
    rejects the race with [Tool execution was cancelled] and clears the
    timer.  From then on nothing changes that: the timeout does not fire,
    the value that the tool may still produce is never returned, and
    [execute] fails with the cancellation error, or with the error of the
    [onAfterExecution] hook when the hook throws on being told. *)
Theorem cancel_wins_race (p : Security.PartialConfig) (tr0 : list step_label)
    (id : string) (i : nat) (x : Execution)
    (Hactive : prop_get id (activeExecutions (run (new p) tr0)) = Some i)
    (Hx : nth_error (executions (run (new p) tr0)) i = Some x)
    (Hracing : x_phase x = Racing) (Hopen : x_promise x = None)
    (Hfresh : x_aborted x = false) :
  let s := run (new p) tr0 in
  let s1 := step s (CancelCalled id) in
  x_id x = id
  /\ log s1 = (log s ++ [Event (onCancelled id)])%list
  /\ forall tr, exists x',
       nth_error (executions (run s1 tr)) i = Some x'
       /\ x_promise x' = Some (Rejected cancelled_error)
       /\ x_timer x' <> Armed
       /\ (forall o, result_of (run s1 tr) i = Some o ->
             exists e, o = Rejected e
                       /\ (e = cancelled_error
                           \/ (x_onAfter x = true
                               /\ In (AfterHookReturns i (Rejected e)) tr))).
Proof.
  intros s s1.
  destruct (active_valid_run p tr0 id i Hactive) as (y & Hy & Hid).
  fold s in Hx, Hactive, Hy. rewrite Hx in Hy. injection Hy as <-.
  pose proof (in_step_run p tr0 i x Hx) as Hstep.
  unfold in_step in Hstep. rewrite Hracing in Hstep.
  destruct (Hstep Hopen) as (Harmed & Hpend & Hl).
  assert (Hs1 : s1 = emit (delete_active (abort_at s i) id) [Event (onCancelled id)])
    by (subst s1; cbn [step]; unfold cancel; now rewrite Hactive).
  assert (Hab : abort x
                = abortHandler (set_race x true (x_timer x) (x_listener x)
                                  (x_toolPending x) (x_promise x)))
    by (unfold abort; now rewrite Hfresh, Hl).
  assert (Hx1 : nth_error (executions s1) i = Some (abort x))
    by (rewrite Hs1; cbn [executions emit delete_active with_state];
        now apply abort_at_nth).
  split; [exact Hid |].
  split; [rewrite Hs1; cbn [log emit delete_active with_state];
          now rewrite abort_at_log |].
  intros tr.
  destruct (lost_race s1 i (abort x) cancelled_error tr Hx1) as (x' & H1 & H2 & H3 & H4).
  - now rewrite abort_phase.
  - rewrite Hab. cbn. now rewrite Hopen.
  - rewrite Hab. cbn. rewrite Harmed. discriminate.
  - exists x'. repeat split; try assumption.
    intros o Ho. destruct (H4 o Ho) as (e & He & Hcase).
    exists e. split; [exact He |].
    destruct (abort_static x) as (Hafter & _). rewrite Hafter in Hcase. exact Hcase.
Qed.

Lemma cancel_wins_race_witness :
  exists x,
    prop_get "exec-1-1000" (activeExecutions Sample.two_running) = Some 0%nat
    /\ nth_error (executions Sample.two_running) 0 = Some x
    /\ x_phase x = Racing /\ x_promise x = None /\ x_aborted x = false
    /\ log (step Sample.two_running (CancelCalled "exec-1-1000"))
       = (log Sample.two_running ++ [Event (onCancelled "exec-1-1000")])%list.
Proof.
  eexists. split; [reflexivity |]. split; [reflexivity |].
  split; [reflexivity |]. split; [reflexivity |]. split; [reflexivity |].
  exact (proj1 (proj2 (cancel_wins_race Sample.two_at_most
                         [Sample.slow_call 1000; Sample.slow_call 1001;
                          BeforeHookReturns 0 (Resolved tt);
                          BeforeHookReturns 1 (Resolved tt)]
                         "exec-1-1000" 0 _ eq_refl eq_refl eq_refl eq_refl eq_refl))).
Defined.




(** ** The hooks *)

Lemma abort_never_started (x : Execution) : never_started x -> never_started (abort x).
Proof.
  unfold never_started, abort. intros (Ht & Hp & Hphase).
  destruct (x_aborted x); [auto |].
  destruct (x_listener x); cbn; rewrite Ht, Hp; auto.
Qed.

Lemma moves_never_started (i : nat) (l : step_label) (x x' : Execution) :
  moves i l x x' -> never_started x -> never_started x'.
Proof.
  intros Hmv Hn. pose proof Hn as (Ht & Hpending & Hphase).
  moves_cases Hmv; try exact Hn;
    try (rewrite Hp in Hphase; contradiction);
    try congruence;
    try (unfold never_started; cbn; auto);
    now apply abort_never_started.
Qed.

Lemma run_never_started (i : nat) (tr : list step_label) :
  forall s x,
  nth_error (executions s) i = Some x -> never_started x ->
  exists x', nth_error (executions (run s tr)) i = Some x' /\ never_started x'.
Proof.
  induction tr as [| l rest IH]; intros s x Hx Hn; cbn [run fold_left].
  - now exists x.
  - destruct (step_moves s l i x Hx) as (x1 & Hx1 & Hmv).
    apply (IH (step s l) x1 Hx1). eapply moves_never_started; eassumption.
Qed.



(** X22. When the [onAfterExecution] hook throws on being given the result
    of the tool, [execute] enters its [catch] block and calls the same
    hook a second time, now with the error the hook has just thrown.  The
    result of the tool is lost: [execute] fails with that error, or with
    the one the second call throws, and the execution leaves the active
    set. *)
Theorem after_hook_failure_calls_hook_again (s : t) (i : nat) (x : Execution)
    (result : value) (e0 : error) (second : outcome unit)
    (Hx : nth_error (executions s) i = Some x)
    (Hphase : x_phase x = AwaitAfter result) (Hhook : x_onAfter x = true) :
  let s1 := step s (AfterHookReturns i (Rejected e0)) in
  let s2 := step s1 (AfterHookReturns i second) in
  log s1 = (log s ++ [AfterHookCalled (x_toolName x) VUndefined (Some e0)])%list
  /\ result_of s1 i = None
  /\ activeExecutions s1 = activeExecutions s
  /\ result_of s2 i
     = Some (Rejected match second with Resolved _ => e0 | Rejected e1 => e1 end)
  /\ log s2 = log s1
  /\ ~ In (x_id x) (getActiveExecutionIds s2).
Proof.
  intros s1 s2.
  assert (Hs1 : s1 = emit (put s i (set_phase x (AwaitAfterError e0)))
                       [AfterHookCalled (x_toolName x) VUndefined (Some e0)]).
  { subst s1. cbn [step]. unfold after_after. rewrite Hx, Hphase, Hhook.
    unfold enter_catch. now rewrite Hhook. }
  assert (Hx1 : nth_error (executions s1) i = Some (set_phase x (AwaitAfterError e0)))
    by (rewrite Hs1; cbn [executions emit with_state]; eapply nth_put_same; exact Hx).
  assert (Hs2 : s2 = finish s1 i (set_phase x (AwaitAfterError e0))
                       (Rejected match second with Resolved _ => e0 | Rejected e1 => e1 end)).
  { subst s2. cbn [step]. unfold after_after. rewrite Hx1.
    cbn [x_phase x_onAfter set_phase]. rewrite Hhook. now destruct second. }
  split; [now rewrite Hs1 |].
  split; [unfold result_of; now rewrite Hx1 |].
  split; [now rewrite Hs1 |].
  split; [rewrite Hs2; eapply result_of_finish; exact Hx1 |].
  split; [now rewrite Hs2 |].
  rewrite Hs2. unfold getActiveExecutionIds, finish.
  cbn [activeExecutions delete_active put with_state x_id set_phase].
  rewrite map_delete_keys. tauto.
Qed.

Lemma after_hook_failure_calls_hook_again_witness :
  exists x,
    nth_error (executions Sample.awaiting_after_hook) 0 = Some x
    /\ x_phase x = AwaitAfter (VString "abc") /\ x_onAfter x = true
    /\ result_of
         (step (step Sample.awaiting_after_hook
                  (AfterHookReturns 0 (Rejected Sample.hook_failed)))
            (AfterHookReturns 0 (Resolved tt))) 0
       = Some (Rejected Sample.hook_failed).
Proof.
  eexists. split; [reflexivity |]. split; [reflexivity |]. split; [reflexivity |].
  exact (proj1 (proj2 (proj2 (proj2
           (after_hook_failure_calls_hook_again Sample.awaiting_after_hook 0 _
              (VString "abc") Sample.hook_failed (Resolved tt)
              eq_refl eq_refl eq_refl))))).
Defined.

(** ** A cancellation that comes too early *)

Lemma abort_kept (x : Execution) :
  x_onBefore (abort x) = x_onBefore x
  /\ x_params (abort x) = x_params x
  /\ x_context (abort x) = x_context x.
Proof.
  unfold abort. destruct (x_aborted x); [repeat split |].
  destruct (x_listener x); repeat split.
Qed.

(** X23. In every state the sandbox can reach, a [cancel] that arrives
    while [execute] still waits for [onBeforeExecution] (which it does
    from the moment it has returned its promise, with or without a hook)
    is lost: [cancel] answers [true], notifies [onCancelled] and takes the
    id out of the active set, but the listener for [abort] is registered
    only afterwards, on a signal that has already fired.  The tool is
    called all the same, and when it resolves within the size limit
    [execute] returns its value. *)
Theorem cancel_before_start_is_lost (p : Security.PartialConfig)
    (tr0 : list step_label) (id : string) (i : nat) (x : Execution)
    (hook : outcome unit) (v : value)
    (Hactive : prop_get id (activeExecutions (run (new p) tr0)) = Some i)
    (Hx : nth_error (executions (run (new p) tr0)) i = Some x)
    (Hphase : x_phase x = AwaitBefore)
    (Hhook : (if x_onBefore x then hook else Resolved tt) = Resolved tt)
    (Hsize : estimateSize v <= x_maxOutputSize x) :
  let s := run (new p) tr0 in
  let s1 := snd (cancel s id) in
  let s2 := step s1 (BeforeHookReturns i hook) in
  fst (cancel s id) = true
  /\ ~ In id (getActiveExecutionIds s1)
  /\ log s2
     = (log s ++ [Event (onCancelled id);
                  ToolCalled (x_toolName x) (x_params x) (x_context x)])%list
  /\ result_of
       (run s2 [ToolSettles i (Resolved v); Resumes i; AfterHookReturns i (Resolved tt)])
       i
     = Some (Resolved v).
Proof.
  intros s s1 s2. fold s in Hx, Hactive.
  assert (Hs1 : s1 = emit (delete_active (abort_at s i) id) [Event (onCancelled id)])
    by (subst s1; unfold cancel; now rewrite Hactive).
  assert (Hx1 : nth_error (executions s1) i = Some (abort x))
    by (rewrite Hs1; cbn [executions emit delete_active with_state];
        now apply abort_at_nth).
  destruct (abort_kept x) as (Hb & Hpa & Hc).
  destruct (abort_static x) as (_ & _ & Hmax & Hname).
  assert (Hs2 : s2 = emit (put s1 i (fst (executeWithTimeout_start (abort x))))
                       (snd (executeWithTimeout_start (abort x)))).
  { subst s2. cbn [step]. unfold after_before.
    rewrite Hx1, abort_phase, Hphase, Hb, Hhook. reflexivity. }
  assert (Hx2 : nth_error (executions s2) i
                = Some (fst (executeWithTimeout_start (abort x))))
    by (rewrite Hs2; cbn [executions emit with_state]; eapply nth_put_same; exact Hx1).
  split; [unfold cancel; now rewrite Hactive |].
  split.
  { rewrite Hs1. unfold getActiveExecutionIds.
    cbn [activeExecutions emit delete_active with_state].
    rewrite map_delete_keys. tauto. }
  split.
  { rewrite Hs2. cbn [log emit put with_state executeWithTimeout_start snd].
    rewrite Hs1. cbn [log emit delete_active with_state].
    rewrite abort_at_log, Hname, Hpa, Hc, <- app_assoc. reflexivity. }
  apply (settles_then_resolves s2 i _ v Hx2); try reflexivity.
  cbn. now rewrite Hmax.
Qed.

Lemma cancel_before_start_is_lost_witness :
  exists x,
    prop_get "exec-1-1000"
      (activeExecutions (run (new Sample.two_at_most) [Sample.slow_call 1000]))
    = Some 0%nat
    /\ nth_error (executions (run (new Sample.two_at_most) [Sample.slow_call 1000])) 0
       = Some x
    /\ x_phase x = AwaitBefore
    /\ estimateSize (VString "late") <= x_maxOutputSize x
    /\ result_of
         (run (step (snd (cancel (run (new Sample.two_at_most) [Sample.slow_call 1000])
                            "exec-1-1000"))
                 (BeforeHookReturns 0 (Resolved tt)))
            [ToolSettles 0 (Resolved (VString "late")); Resumes 0;
             AfterHookReturns 0 (Resolved tt)]) 0
       = Some (Resolved (VString "late")).
Proof.
  assert (Hsize : estimateSize (VString "late") <= 1024 * 1024)
    by (vm_compute; discriminate).
  eexists. split; [reflexivity |]. split; [reflexivity |]. split; [reflexivity |].
  split; [exact Hsize |].
  exact (proj2 (proj2 (proj2
           (cancel_before_start_is_lost Sample.two_at_most [Sample.slow_call 1000]
              "exec-1-1000" 0 _ (Resolved tt) (VString "late")
              eq_refl eq_refl eq_refl eq_refl Hsize)))).
Defined.


(** ** The stretches of [execute], one by one *)

Lemma resumes_error_eq (s : t) (i : nat) (x : Execution) (e : error) :
  nth_error (executions s) i = Some x ->
  x_phase x = Racing -> x_promise x = Some (Rejected e) ->
  resumes s i = emit (put s i (fst (enter_catch x e))) (snd (enter_catch x e)).
Proof. intros Hx Hphase Hp. unfold resumes. now rewrite Hx, Hphase, Hp. Qed.

Lemma resumes_oversize_eq (s : t) (i : nat) (x : Execution) (v : value) :
  nth_error (executions s) i = Some x ->
  x_phase x = Racing -> x_promise x = Some (Resolved v) ->
  (estimateSize v >? x_maxOutputSize x) = true ->
  resumes s i
  = emit (put s i (fst (enter_catch x size_error)))
      (Event (onOutputSizeExceeded (x_toolName x) (estimateSize v) (x_maxOutputSize x))
       :: snd (enter_catch x size_error)).
Proof. intros Hx Hphase Hp Hsz. unfold resumes. now rewrite Hx, Hphase, Hp, Hsz. Qed.

Lemma after_after_error_eq (s : t) (i : nat) (x : Execution) (e : error)
    (r : outcome unit) :
  nth_error (executions s) i = Some x ->
  x_phase x = AwaitAfterError e ->
  (if x_onAfter x then r else Resolved tt) = Resolved tt ->
  after_after s i r = finish s i x (Rejected e).
Proof. intros Hx Hphase Hr. unfold after_after. now rewrite Hx, Hphase, Hr. Qed.

Lemma after_after_finished (s : t) (i : nat) (x : Execution) (o : outcome value)
    (r : outcome unit) :
  nth_error (executions s) i = Some x -> x_phase x = Done o -> after_after s i r = s.
Proof.
  intros Hx Hphase. unfold after_after. rewrite Hx, Hphase.
  now destruct (if x_onAfter x then r else Resolved tt).
Qed.

Lemma nth_finish_same (s : t) (i : nat) (x y : Execution) (o : outcome value) :
  nth_error (executions s) i = Some y ->
  nth_error (executions (finish s i x o)) i = Some (set_phase x (Done o)).
Proof.
  intros Hy. unfold finish. cbn [executions delete_active put with_state].
  eapply nth_error_list_update_same. exact Hy.
Qed.

Lemma execute_enter_started (s : t) (toolName : string) (params : value)
    (baseContext : ToolContext) (options : SandboxOptions) (now : Z) :
  isEnabled s = true ->
  Z.of_nat (getActiveCount s) < Security.maxConcurrentCalls (config s) ->
  let x := new_execution s toolName params baseContext options now in
  execute_enter s toolName params baseContext options now
  = ({| config := config s;
        activeExecutions := prop_set (x_id x) (List.length (executions s))
                              (activeExecutions s);
        executionCount := S (executionCount s);
        executions := (executions s ++ [x])%list;
        log := (log s ++ if o_onBeforeExecution options
                         then [BeforeHookCalled toolName params] else [])%list |},
     Started (List.length (executions s))).
Proof.
  intros Hon Hroom. cbv zeta. unfold isEnabled, getActiveCount in *.
  apply andb_true_iff in Hon. destruct Hon as (He & Hs).
  unfold execute_enter. rewrite He, Hs. cbn [negb orb].
  destruct (Z.geb_spec (Z.of_nat (List.length (activeExecutions s)))
              (Security.maxConcurrentCalls (config s))); [lia | reflexivity].
Qed.

(** What [execute] returns once the race is settled, when the hook after
    it returns: the value of the tool if it is within the size limit, the
    size error if not, the error of the race otherwise. *)
Lemma quiet_tail (s3 : t) (i : nat) (x3 : Execution) (o : outcome value) :
  nth_error (executions s3) i = Some x3 ->
  x_phase x3 = Racing -> x_promise x3 = Some o ->
  let s5 := after_after (after_after (resumes s3 i) i (Resolved tt)) i (Resolved tt) in
  result_of s5 i
  = Some match o with
         | Resolved v =>
             if estimateSize v >? x_maxOutputSize x3 then Rejected size_error
             else Resolved v
         | Rejected e => Rejected e
         end
  /\ executionCount s5 = executionCount s3
  /\ activeExecutions s5 = map_delete (x_id x3) (activeExecutions s3).
Proof.
  intros Hx3 Hphase Hpromise.
  assert (Hend : forall s4 x4 o4,
             nth_error (executions s4) i = Some x4 ->
             after_after s4 i (Resolved tt) = finish s4 i x4 o4 ->
             result_of (after_after (after_after s4 i (Resolved tt)) i (Resolved tt)) i
             = Some o4
             /\ executionCount (after_after (after_after s4 i (Resolved tt)) i (Resolved tt))
                = executionCount s4
             /\ activeExecutions
                  (after_after (after_after s4 i (Resolved tt)) i (Resolved tt))
                = map_delete (x_id x4) (activeExecutions s4)).
  { intros s4 x4 o4 Hx4 Heq. rewrite Heq.
    pose proof (nth_finish_same s4 i x4 x4 o4 Hx4) as Hx5.
    rewrite (after_after_finished _ i _ o4 _ Hx5 eq_refl).
    split; [unfold result_of; now rewrite Hx5 |]. split; reflexivity. }
  destruct o as [v | e].
  - destruct (estimateSize v >? x_maxOutputSize x3) eqn:Hsz.
    + cbv zeta. rewrite (resumes_oversize_eq s3 i x3 v Hx3 Hphase Hpromise Hsz).
      match goal with |- context [after_after (emit ?a ?b) i (Resolved tt)] =>
        destruct (Hend (emit a b) (fst (enter_catch x3 size_error)) (Rejected size_error))
          as (H1 & H2 & H3)
      end.
      * cbn [executions emit with_state]. eapply nth_put_same. exact Hx3.
      * apply after_after_error_eq.
        -- cbn [executions emit with_state]. eapply nth_put_same. exact Hx3.
        -- reflexivity.
        -- now destruct (x_onAfter _).
      * rewrite H1, H2, H3. repeat split.
    + cbv zeta.
      assert (Hfits : estimateSize v <= x_maxOutputSize x3)
        by (rewrite Z.gtb_ltb in Hsz; now apply Z.ltb_ge in Hsz).
      rewrite (resumes_value_eq s3 i x3 v Hx3 Hphase Hpromise Hfits).
      match goal with |- context [after_after (emit ?a ?b) i (Resolved tt)] =>
        destruct (Hend (emit a b) (set_phase x3 (AwaitAfter v)) (Resolved v))
          as (H1 & H2 & H3)
      end.
      * cbn [executions emit with_state]. eapply nth_put_same. exact Hx3.
      * apply after_after_value_eq.
        -- cbn [executions emit with_state]. eapply nth_put_same. exact Hx3.
        -- reflexivity.
        -- now destruct (x_onAfter _).
      * rewrite H1, H2, H3. repeat split.
  - cbv zeta. rewrite (resumes_error_eq s3 i x3 e Hx3 Hphase Hpromise).
    match goal with |- context [after_after (emit ?a ?b) i (Resolved tt)] =>
      destruct (Hend (emit a b) (fst (enter_catch x3 e)) (Rejected e)) as (H1 & H2 & H3)
    end.
    + cbn [executions emit with_state]. eapply nth_put_same. exact Hx3.
    + apply after_after_error_eq.
      * cbn [executions emit with_state]. eapply nth_put_same. exact Hx3.
      * reflexivity.
      * now destruct (x_onAfter _).
    + rewrite H1, H2, H3. repeat split.
Qed.

End SandboxRuns.

(** ** One call from its first line to its last *)

Section SandboxAlone.
Import Js Tools ToolSandbox Spec.

#[local] Arguments estimateSize : simpl never.

Context {T : Type}.
Variable now : T -> Z.

(** X24. With the sandbox disabled, or with [sandboxExecution] off,
    [execute] is the tool itself: it is called with the context as given,
    without the [sandbox] entry, and its outcome is the outcome of
    [execute] whatever its size.  No hook is called, no id is made, nothing
    becomes active and no limit is looked at. *)
Theorem disabled_sandbox_runs_tool_directly (sch : Schedule) (tool : Tool T)
    (params : value) (baseContext : ToolContext) (options : SandboxOptions)
    (w : World T) (Hoff : isEnabled (sandbox_ w) = false) :
  let direct := Tools.execute tool params (Some baseContext) (user w) in
  let done := execute now sch tool params baseContext options w in
  fst done = fst direct
  /\ user (snd done) = snd direct
  /\ log (sandbox_ (snd done))
     = (log (sandbox_ w) ++ [ToolCalled (name tool) params baseContext])%list
  /\ activeExecutions (sandbox_ (snd done)) = activeExecutions (sandbox_ w)
  /\ executionCount (sandbox_ (snd done)) = executionCount (sandbox_ w)
  /\ executions (sandbox_ (snd done)) = executions (sandbox_ w).
Proof.
  intros direct done. subst direct done. unfold execute, execute_enter.
  unfold isEnabled in Hoff.
  assert (Hby : negb (Security.enabled (config (sandbox_ w)))
                || negb (Security.sandboxExecution (config (sandbox_ w))) = true)
    by (destruct (Security.enabled (config (sandbox_ w)));
        destruct (Security.sandboxExecution (config (sandbox_ w)));
        (discriminate || reflexivity)).
  rewrite Hby.
  destruct (Tools.execute tool params (Some baseContext) (user w)) as [o u].
  repeat split.
Qed.

(** X25. With the sandbox enabled and room under the limit, a call whose
    hooks return and whose tool settles before the timer and before any
    cancellation gives what the tool gives: the tool is called once, with
    the context as given plus the [sandbox] entry, and [execute] resolves
    with its value when the estimate is within [maxOutputSize], fails with
    the size error when it is not, and fails with the error of the tool
    when the tool fails.  In each case the call has used one number of the
    counter, and its id is out of the active set when it ends. *)
Theorem quiet_call_is_transparent (tool : Tool T) (params : value)
    (baseContext : ToolContext) (options : SandboxOptions) (w : World T)
    (Hon : isEnabled (sandbox_ w) = true)
    (Hroom : Z.of_nat (getActiveCount (sandbox_ w))
             < Security.maxConcurrentCalls (config (sandbox_ w))) :
  let s := sandbox_ w in
  let x := new_execution s (name tool) params baseContext options (Date_now now w) in
  let ran := Tools.execute tool params (Some (x_context x)) (user w) in
  let done := execute now quiet tool params baseContext options w in
  fst done
  = match fst ran with
    | Resolved v =>
        if estimateSize v >? x_maxOutputSize x then Rejected size_error else Resolved v
    | Rejected e => Rejected e
    end
  /\ user (snd done) = snd ran
  /\ bag (x_context x) = bag baseContext
  /\ (exists info,
        sandbox (x_context x) = Some info
        /\ executionId info = x_id x
        /\ maxOutputSize info = x_maxOutputSize x)
  /\ executionCount (sandbox_ (snd done)) = S (executionCount s)
  /\ (forall id,
        In id (getActiveExecutionIds (sandbox_ (snd done)))
        <-> In id (getActiveExecutionIds s) /\ id <> x_id x).
Proof.
  intros s x ran done.
  set (i := List.length (executions s)).
  pose proof (execute_enter_started s (name tool) params baseContext options
                (Date_now now w) Hon Hroom) as Henter.
  cbv zeta in Henter. fold x i in Henter.
  set (s1 := {| config := config s;
                activeExecutions := prop_set (x_id x) i (activeExecutions s);
                executionCount := S (executionCount s);
                executions := (executions s ++ [x])%list;
                log := (log s ++ if o_onBeforeExecution options
                                 then [BeforeHookCalled (name tool) params]
                                 else [])%list |}) in *.
  assert (Hx1 : nth_error (executions s1) i = Some x)
    by (subst s1 i; cbn [executions]; now rewrite nth_error_app2, Nat.sub_diag by lia).
  set (x2 := fst (executeWithTimeout_start x)).
  set (s2 := emit (put s1 i x2) (snd (executeWithTimeout_start x))).
  assert (Hs2 : after_before s1 i (Resolved tt) = s2).
  { unfold after_before. rewrite Hx1. change (x_phase x) with AwaitBefore.
    cbv iota. now destruct (x_onBefore x). }
  assert (Hx2 : nth_error (executions s2) i = Some x2)
    by (subst s2; cbn [executions emit with_state]; eapply nth_put_same; exact Hx1).
  set (s3 := put s2 i (on_settle x2 (fst ran))).
  assert (Hs3 : tool_settles s2 i (fst ran) = s3) by (now apply tool_settles_eq).
  assert (Hx3 : nth_error (executions s3) i = Some (on_settle x2 (fst ran)))
    by (subst s3; eapply nth_put_same; exact Hx2).
  destruct (quiet_tail s3 i _ (fst ran) Hx3 eq_refl eq_refl) as (Hres & Hcount & Hact).
  assert (Hrun : done
                 = (match result_of
                            (after_after (after_after (resumes s3 i) i (Resolved tt))
                               i (Resolved tt)) i with
                    | Some o' => o'
                    | None => Rejected cancelled_error
                    end,
                    with_sandbox (with_user (with_sandbox w (resumes s3 i)) (snd ran))
                      (after_after (after_after (resumes s3 i) i (Resolved tt))
                         i (Resolved tt)))).
  { subst done. unfold execute. fold s. rewrite Henter.
    cbn [before_hook after_hook after_hook_in_catch first quiet].
    rewrite Hs2, Hx2.
    cbn [x_phase x2 executeWithTimeout_start fst set_phase].
    change (x_context (set_phase (set_race x (x_aborted x) Armed true true None)
                         Racing))
      with (x_context x).
    fold ran. destruct ran as [o u]. cbn [race fst snd] in *.
    rewrite Hs3. reflexivity. }
  rewrite Hrun, Hres. cbn [fst snd user sandbox_ with_user with_sandbox].
  split; [reflexivity |]. split; [reflexivity |]. split; [reflexivity |].
  split; [eexists; repeat split |].
  split; [exact Hcount |].
  intros id. unfold getActiveExecutionIds. rewrite Hact.
  change (x_id (on_settle x2 (fst ran))) with (x_id x).
  subst s3 s2 s1. cbn [activeExecutions put emit with_state].
  rewrite map_delete_keys, prop_set_keys. tauto.
Qed.

End SandboxAlone.

Section SandboxAloneSamples.
Import Js Tools ToolSandbox Spec.

Lemma disabled_sandbox_runs_tool_directly_witness :
  isEnabled (sandbox_ Sample.world_off) = false
  /\ fst (execute Sample.clock quiet Sample.ok_tool (Sample.n_is 7) empty_context
            no_options Sample.world_off)
     = Resolved (VNumber 7).
Proof.
  assert (H : isEnabled (sandbox_ Sample.world_off) = false) by reflexivity.
  split; [exact H |].
  exact (proj1 (disabled_sandbox_runs_tool_directly Sample.clock quiet Sample.ok_tool
                  (Sample.n_is 7) empty_context no_options Sample.world_off H)).
Defined.

Lemma quiet_call_is_transparent_witness :
  isEnabled (sandbox_ Sample.world) = true
  /\ Z.of_nat (getActiveCount (sandbox_ Sample.world))
     < Security.maxConcurrentCalls (config (sandbox_ Sample.world))
  /\ fst (execute Sample.clock quiet Sample.ok_tool (Sample.n_is 7) empty_context
            no_options Sample.world)
     = Resolved (VNumber 7).
Proof.
  assert (H1 : isEnabled (sandbox_ Sample.world) = true) by reflexivity.
  assert (H2 : Z.of_nat (getActiveCount (sandbox_ Sample.world))
               < Security.maxConcurrentCalls (config (sandbox_ Sample.world)))
    by (vm_compute; reflexivity).
  split; [exact H1 |]. split; [exact H2 |].
  exact (proj1 (quiet_call_is_transparent Sample.clock Sample.ok_tool (Sample.n_is 7)
                  empty_context no_options Sample.world H1 H2)).
Defined.

End SandboxAloneSamples.

(* ================================================================== *)
(** * The context manager *)
(* ================================================================== *)

Section ContextFacts.
Import Js ContextManager Spec.

Variable hashContent : string -> string.


Lemma set_has_add (s : list string) (x y : string) :
  set_has (set_add s x) y = set_has s y || (x =? y)%string.
Proof.
  unfold set_add. destruct (set_has s x) eqn:Hx.
  - destruct (String.eqb_spec x y) as [<- | Hne];
      [now rewrite Hx | now rewrite orb_false_r].
  - unfold set_has. rewrite existsb_app. cbn. now rewrite orb_false_r.
Qed.

Lemma set_has_delete (s : list string) (x y : string) :
  set_has (set_delete s x) y = set_has s y && negb (x =? y)%string.
Proof.
  apply eq_iff_eq_true.
  rewrite andb_true_iff, negb_true_iff, !set_has_In, String.eqb_neq.
  unfold set_delete. rewrite filter_In, negb_true_iff, String.eqb_neq.
  intuition congruence.
Qed.

(** The item that [track] stores. *)
Lemma track_given (m : ContextManager.t) (it : DynamicContentItem) (position : Z)
    (r : Readings) (key : string) :
  given_id it = Some key ->
  exists x,
    ContextManager.track hashContent m it position r
    = {| items := prop_set key x (items m);
         hashes := set_add (hashes m) (hashContent (content it)) |}
    /\ item x = it /\ t_id x = key /\ hash x = hashContent (content it)
    /\ ContextManager.position x = position.
Proof.
  intros Hid. unfold ContextManager.track. rewrite Hid.
  eexists. split; [reflexivity |]. repeat split.
Qed.

(** What [track] does when it does not skip the item. *)
Lemma track_stored (m : ContextManager.t) (it : DynamicContentItem) (position : Z)
    (r : Readings) :
  given_id it <> None
  \/ ContextManager.hasContentHash hashContent m (content it) = false ->
  exists x,
    ContextManager.track hashContent m it position r
    = {| items := prop_set
                    match given_id it with
                    | Some key => key
                    | None => generateId r
                    end x (items m);
         hashes := set_add (hashes m) (hashContent (content it)) |}
    /\ item x = it /\ ContextManager.position x = position
    /\ hash x = hashContent (content it)
    /\ t_priority x = match priority it with Some q => q | None => medium end.
Proof.
  intros Hstore. unfold ContextManager.track.
  destruct (given_id it) as [key |] eqn:Hid.
  - eexists. split; [reflexivity |]. repeat split.
  - destruct Hstore as [Hstore | Hnew]; [congruence |].
    unfold ContextManager.hasContentHash in Hnew. rewrite Hnew.
    eexists. split; [reflexivity |]. repeat split.
Qed.

(** X26. [track] skips an item only when it has no id (or an empty one)
    and its content hashes to a hash seen before; then nothing changes.
    An item without id whose hash is new is stored under a generated id
    with the position given and the priority [medium] unless it brings its
    own; an item with an id is always stored under that id, replacing what
    was there, whatever its content.  Either way the hash of the content
    is known afterwards and the other ids keep their items. *)
Theorem track_deduplicates_by_hash (m : ContextManager.t) (it : DynamicContentItem)
    (position : Z) (r : Readings) :
  let m' := ContextManager.track hashContent m it position r in
  let key := match given_id it with Some key => key | None => generateId r end in
  (given_id it = None ->
   ContextManager.hasContentHash hashContent m (content it) = true -> m' = m)
  /\ (given_id it <> None
      \/ ContextManager.hasContentHash hashContent m (content it) = false ->
      (exists x,
          ContextManager.get m' key = Some x
          /\ item x = it
          /\ ContextManager.position x = position
          /\ hash x = hashContent (content it)
          /\ t_priority x = match priority it with Some q => q | None => medium end)
      /\ ContextManager.hasContentHash hashContent m' (content it) = true
      /\ (forall other, other <> key ->
            ContextManager.get m' other = ContextManager.get m other)
      /\ (forall c, ContextManager.hasContentHash hashContent m c = true ->
                    ContextManager.hasContentHash hashContent m' c = true)).
Proof.
  intros m' key. subst m' key. unfold ContextManager.hasContentHash, ContextManager.get.
  split.
  - intros Hid Hseen. unfold ContextManager.track. now rewrite Hid, Hseen.
  - intros Hstore.
    pose proof (track_stored m it position r Hstore) as Hm.
    destruct Hm as (x & -> & Hx). cbn [items hashes].
    split; [exists x; split; [apply prop_get_set_same | exact Hx] |].
    split; [rewrite set_has_add, String.eqb_refl; apply orb_true_r |].
    split; [intros other Hne; apply prop_get_set_other; congruence |].
    intros c Hc. rewrite set_has_add, Hc. reflexivity.
Qed.

(** X27. [remove] forgets the hash of the item it removes even when
    another item has the same content.  After two items with different
    ids and one content have been tracked and the first is removed, the
    second is still there, but [hasContentHash] no longer knows its
    content, and an item without id that brings the same content again is
    not skipped. *)
Theorem remove_forgets_shared_content (m : ContextManager.t) (a b : string)
    (first second again : DynamicContentItem) (pa pb pc : Z) (ra rb rc : Readings)
    (Ha : given_id first = Some a) (Hb : given_id second = Some b) (Hab : a <> b)
    (Hsame : content first = content second)
    (Hagain : given_id again = None) (Hcontent : content again = content second) :
  let m1 := ContextManager.track hashContent m first pa ra in
  let m2 := ContextManager.track hashContent m1 second pb rb in
  let m3 := snd (ContextManager.remove m2 a) in
  let m4 := ContextManager.track hashContent m3 again pc rc in
  fst (ContextManager.remove m2 a) = true
  /\ hasContext m3 a = false
  /\ (exists x, ContextManager.get m3 b = Some x /\ item x = second)
  /\ ContextManager.hasContentHash hashContent m3 (content second) = false
  /\ ContextManager.hasContentHash hashContent m4 (content second) = true
  /\ hasContext m4 (generateId rc) = true.
Proof.
  intros m1 m2 m3 m4. subst m1 m4.
  destruct (track_given m first pa ra a Ha) as (x1 & Hm1 & _ & _ & Hh1 & _).
  destruct (track_given (ContextManager.track hashContent m first pa ra) second pb rb
              b Hb) as (x2 & Hm2 & Hi2 & _ & Hh2 & _).
  fold m2 in Hm2. rewrite Hm1 in Hm2. cbn [items hashes] in Hm2.
  assert (Hget : prop_get a (items m2) = Some x1).
  { rewrite Hm2. cbn [items]. rewrite prop_get_set_other by congruence.
    apply prop_get_set_same. }
  assert (Hm3 : m3 = {| items := map_delete a (items m2);
                        hashes := set_delete (hashes m2) (hash x1) |})
    by (subst m3; unfold ContextManager.remove; now rewrite Hget).
  assert (Hgone : ContextManager.hasContentHash hashContent m3 (content second)
                  = false).
  { rewrite Hm3. unfold ContextManager.hasContentHash. cbn [hashes].
    rewrite set_has_delete, Hh1, Hsame, String.eqb_refl. apply andb_false_r. }
  split; [unfold ContextManager.remove; now rewrite Hget |].
  split.
  { rewrite Hm3. unfold hasContext. cbn [items].
    now rewrite prop_get_map_delete_same. }
  split.
  { exists x2. split; [| exact Hi2]. rewrite Hm3. unfold ContextManager.get.
    cbn [items]. rewrite prop_get_map_delete_other by congruence.
    rewrite Hm2. cbn [items]. apply prop_get_set_same. }
  split; [exact Hgone |].
  destruct (track_stored m3 again pc rc) as (x & Hm4 & _).
  { right. now rewrite Hcontent. }
  rewrite Hagain in Hm4. rewrite Hm4.
  unfold ContextManager.hasContentHash, hasContext. cbn [items hashes].
  rewrite set_has_add, Hcontent, String.eqb_refl, prop_get_set_same.
  split; [apply orb_true_r | reflexivity].
Qed.


(** X28. Tracking a second item under an id that is taken replaces the
    item but not what is known of its content: the hash of the replaced
    content stays in the set although no item holds that content, so an
    item without id that brings it later is skipped as a duplicate. *)
Theorem replaced_content_stays_known (m : ContextManager.t) (a : string)
    (first second later : DynamicContentItem) (p1 p2 p3 : Z) (r1 r2 r3 : Readings)
    (H1 : given_id first = Some a) (H2 : given_id second = Some a)
    (Hlater : given_id later = None) (Hcontent : content later = content first) :
  let m1 := ContextManager.track hashContent m first p1 r1 in
  let m2 := ContextManager.track hashContent m1 second p2 r2 in
  (exists x, ContextManager.get m2 a = Some x /\ item x = second)
  /\ List.length (getAll m2) = List.length (getAll m1)
  /\ (forall key x, ContextManager.get m2 key = Some x ->
        key = a /\ item x = second \/ (key <> a /\ ContextManager.get m key = Some x))
  /\ ContextManager.hasContentHash hashContent m2 (content first) = true
  /\ ContextManager.track hashContent m2 later p3 r3 = m2.
Proof.
  intros m1 m2.
  destruct (track_given m first p1 r1 a H1) as (x1 & Hm1 & _).
  destruct (track_given m1 second p2 r2 a H2) as (x2 & Hm2 & Hi2 & _).
  fold m1 in Hm1. fold m2 in Hm2.
  assert (Hknown : ContextManager.hasContentHash hashContent m2 (content first)
                   = true).
  { rewrite Hm2, Hm1. unfold ContextManager.hasContentHash. cbn [hashes].
    rewrite !set_has_add, String.eqb_refl. now rewrite orb_true_r. }
  split.
  { exists x2. split; [| exact Hi2]. rewrite Hm2. unfold ContextManager.get.
    cbn [items]. apply prop_get_set_same. }
  split.
  { rewrite Hm2. unfold getAll. cbn [items]. rewrite !length_map, prop_set_length.
    rewrite Hm1. cbn [items]. now rewrite prop_get_set_same. }
  split.
  { intros key x. rewrite Hm2, Hm1. unfold ContextManager.get. cbn [items].
    destruct (string_dec a key) as [<- | Hne].
    - rewrite prop_get_set_same. intros H. injection H as <-. left. now split.
    - rewrite !prop_get_set_other by exact Hne. intros H. right. split; congruence. }
  split; [exact Hknown |].
  unfold ContextManager.track at 1. rewrite Hlater.
  unfold ContextManager.hasContentHash in Hknown. now rewrite Hcontent, Hknown.
Qed.

(** ** getStats *)

Section Counting.

Context {X : Type}.
Variable key : X -> option string.

Lemma count_up_same (counts : list (string * Z)) (k : string) :
  prop_get k (count_up counts k)
  = Some (match prop_get k counts with Some n => n | None => 0 end + 1).
Proof.
  unfold count_up. rewrite prop_get_set_same.
  destruct (prop_get k counts) as [n |]; [| reflexivity].
  now destruct (Z.eqb_spec n 0) as [-> | Hn].
Qed.

Lemma counts_fold (k : string) (l : list X) :
  forall counts : list (string * Z),
  (forall n, prop_get k counts = Some n -> 0 < n) ->
  prop_get k (fold_left (counted key) l counts)
  = match prop_get k counts, List.length (filter (matching key k) l) with
    | None, O => None
    | Some n, c => Some (n + Z.of_nat c)
    | None, c => Some (Z.of_nat c)
    end.
Proof.
  induction l as [| x rest IH]; intros counts Hpos; cbn [fold_left filter].
  - cbn. destruct (prop_get k counts) as [n |]; [| reflexivity]. f_equal. lia.
  - assert (Hstep : prop_get k (counted key counts x)
                    = if matching key k x
                      then Some (match prop_get k counts with Some n => n | None => 0 end
                                 + 1)
                      else prop_get k counts).
    { unfold counted, matching. destruct (key x) as [k' |]; [| reflexivity].
      destruct (String.eqb_spec k' k) as [-> | Hne]; [apply count_up_same |].
      unfold count_up. now apply prop_get_set_other. }
    rewrite IH.
    + rewrite Hstep. destruct (matching key k x); cbn [List.length].
      * destruct (prop_get k counts) as [n |];
          destruct (List.length (filter (matching key k) rest)); f_equal; lia.
      * reflexivity.
    + intros n. rewrite Hstep. destruct (matching key k x).
      * intros H. injection H as <-.
        destruct (prop_get k counts) as [n0 |] eqn:Hn0; [specialize (Hpos n0 eq_refl) |];
          lia.
      * apply Hpos.
Qed.

End Counting.

Lemma oldest_fold (l : list TrackedContextItem) :
  forall start : option Z,
  let oldest :=
    fold_left (fun oldest x =>
                 match oldest with
                 | Some d => if t_timestamp x <? d then Some (t_timestamp x) else Some d
                 | None => Some (t_timestamp x)
                 end) l start in
  (forall d, start = Some d -> exists lo, oldest = Some lo /\ lo <= d)
  /\ (forall x, In x l -> exists lo, oldest = Some lo /\ lo <= t_timestamp x).
Proof.
  induction l as [| y rest IH]; intros start; cbn [fold_left].
  - split; [intros d ->; exists d; split; [reflexivity | lia] | intros x []].
  - set (next := match start with
                 | Some d => if t_timestamp y <? d then Some (t_timestamp y) else Some d
                 | None => Some (t_timestamp y)
                 end).
    destruct (IH next) as (Hstart & Hin). cbv zeta in *.
    assert (Hnext : exists d', next = Some d' /\ d' <= t_timestamp y
                               /\ forall d, start = Some d -> d' <= d).
    { subst next. destruct start as [d |].
      - destruct (Z.ltb_spec (t_timestamp y) d); eexists; split; try reflexivity;
          split; try lia; intros d0 H0; injection H0 as <-; lia.
      - eexists. split; [reflexivity |]. split; [lia | discriminate]. }
    destruct Hnext as (d' & Hd' & Hy & Hle).
    destruct (Hstart d' Hd') as (lo & Hlo & Hlod).
    split.
    + intros d Hd. exists lo. split; [exact Hlo |]. specialize (Hle d Hd). lia.
    + intros x [<- | Hx]; [exists lo; split; [exact Hlo | lia] | now apply Hin].
Qed.

Lemma newest_fold (l : list TrackedContextItem) :
  forall start : option Z,
  let newest :=
    fold_left (fun newest x =>
                 match newest with
                 | Some d => if t_timestamp x >? d then Some (t_timestamp x) else Some d
                 | None => Some (t_timestamp x)
                 end) l start in
  (forall d, start = Some d -> exists hi, newest = Some hi /\ d <= hi)
  /\ (forall x, In x l -> exists hi, newest = Some hi /\ t_timestamp x <= hi).
Proof.
  induction l as [| y rest IH]; intros start; cbn [fold_left].
  - split; [intros d ->; exists d; split; [reflexivity | lia] | intros x []].
  - set (next := match start with
                 | Some d => if t_timestamp y >? d then Some (t_timestamp y) else Some d
                 | None => Some (t_timestamp y)
                 end).
    destruct (IH next) as (Hstart & Hin). cbv zeta in *.
    assert (Hnext : exists d', next = Some d' /\ t_timestamp y <= d'
                               /\ forall d, start = Some d -> d <= d').
    { subst next. destruct start as [d |].
      - destruct (Z.gtb_spec (t_timestamp y) d); eexists; split; try reflexivity;
          split; try lia; intros d0 H0; injection H0 as <-; lia.
      - eexists. split; [reflexivity |]. split; [lia | discriminate]. }
    destruct Hnext as (d' & Hd' & Hy & Hle).
    destruct (Hstart d' Hd') as (hi & Hhi & Hhid).
    split.
    + intros d Hd. exists hi. split; [exact Hhi |]. specialize (Hle d Hd). lia.
    + intros x [<- | Hx]; [exists hi; split; [exact Hhi | lia] | now apply Hin].
Qed.

(** X29. The report of [getStats] agrees with the queries: [totalItems]
    is the number of items that [getAll] returns; [byCategory] gives each
    non-empty category the number of items that [getByCategory] finds and
    has no entry for a category without items; [byPriority] does the same
    against [getByPriority]; and every item's timestamp lies between
    [oldestTimestamp] and [newestTimestamp]. *)
Theorem getStats_agrees_with_queries (m : ContextManager.t) :
  totalItems (getStats m) = List.length (getAll m)
  /\ (forall c, c <> EmptyString ->
        prop_get c (byCategory (getStats m))
        = match List.length (getByCategory m c) with
          | O => None
          | n => Some (Z.of_nat n)
          end)
  /\ (forall q,
        prop_get (priority_name q) (byPriority (getStats m))
        = match List.length (getByPriority m q) with
          | O => None
          | n => Some (Z.of_nat n)
          end)
  /\ (forall x, In x (getAll m) ->
        exists lo hi,
          oldestTimestamp (getStats m) = Some lo
          /\ newestTimestamp (getStats m) = Some hi
          /\ lo <= t_timestamp x <= hi).
Proof.
  split; [unfold getStats, getAll; cbn; now rewrite length_map |].
  split; [| split].
  - intros c Hc. unfold getStats, getByCategory. cbn [byCategory].
    pose proof (counts_fold
                  (fun x => match category (item x) with
                            | Some c' => if (c' =? EmptyString)%string then None
                                         else Some c'
                            | None => None
                            end) c (getAll m) []) as H.
    cbn [prop_get] in H.
    assert (Hfold : forall l acc,
               fold_left
                 (fun counts x =>
                    match category (item x) with
                    | Some c0 => if (c0 =? EmptyString)%string then counts
                                 else count_up counts c0
                    | None => counts
                    end) l acc
               = fold_left
                   (counted (fun x => match category (item x) with
                                      | Some c' => if (c' =? EmptyString)%string
                                                   then None else Some c'
                                      | None => None
                                      end)) l acc).
    { induction l as [| y rest IH]; intros acc; cbn [fold_left]; [reflexivity |].
      rewrite IH. f_equal. unfold counted.
      destruct (category (item y)) as [c0 |]; [| reflexivity].
      now destruct (c0 =? EmptyString)%string. }
    rewrite Hfold, H by discriminate.
    assert (Hfilter : forall l,
               filter (matching (fun x => match category (item x) with
                                          | Some c' => if (c' =? EmptyString)%string
                                                       then None else Some c'
                                          | None => None
                                          end) c) l
               = filter (fun x => match category (item x) with
                                  | Some c' => (c' =? c)%string
                                  | None => false
                                  end) l).
    { intros l. apply filter_ext. intros y. unfold matching.
      destruct (category (item y)) as [c0 |]; [| reflexivity].
      destruct (String.eqb_spec c0 EmptyString) as [-> | Hne]; [| reflexivity].
      destruct (String.eqb_spec EmptyString c); [congruence | reflexivity]. }
    rewrite Hfilter.
    now destruct (List.length _).
  - intros q. unfold getStats, getByPriority. cbn [byPriority].
    pose proof (counts_fold (fun x => Some (priority_name (t_priority x)))
                  (priority_name q) (getAll m) []) as H.
    cbn [prop_get] in H.
    change (fun (counts : list (string * Z)) (x : TrackedContextItem) =>
              count_up counts (priority_name (t_priority x)))
      with (counted (fun x => Some (priority_name (t_priority x)))).
    rewrite H by discriminate.
    change (matching (fun x => Some (priority_name (t_priority x))) (priority_name q))
      with (fun x : TrackedContextItem =>
              (priority_name (t_priority x) =? priority_name q)%string).
    now destruct (List.length _).
  - intros x Hx. unfold getStats. cbn [oldestTimestamp newestTimestamp].
    destruct (oldest_fold (getAll m) None) as (_ & Hlo).
    destruct (newest_fold (getAll m) None) as (_ & Hhi).
    destruct (Hlo x Hx) as (lo & -> & H1). destruct (Hhi x Hx) as (hi & -> & H2).
    exists lo, hi. repeat split; assumption.
Qed.

End ContextFacts.

Section ContextSamples.
Import Js ContextManager.

Lemma remove_forgets_shared_content_witness :
  given_id (Sample.note (Some "item1") "Same content") = Some "item1"
  /\ ContextManager.hasContentHash Sample.by_length
       (snd (ContextManager.remove
               (ContextManager.track Sample.by_length
                  (ContextManager.track Sample.by_length ContextManager.new
                     (Sample.note (Some "item1") "Same content") 0 Sample.readings)
                  (Sample.note (Some "item2") "Same content") 1 Sample.readings)
               "item1"))
       "Same content"
     = false.
Proof.
  assert (Ha : given_id (Sample.note (Some "item1") "Same content") = Some "item1")
    by reflexivity.
  assert (Hb : given_id (Sample.note (Some "item2") "Same content") = Some "item2")
    by reflexivity.
  assert (Hab : "item1" <> "item2") by discriminate.
  split; [exact Ha |].
  exact (proj1 (proj2 (proj2 (proj2
           (remove_forgets_shared_content Sample.by_length ContextManager.new
              "item1" "item2"
              (Sample.note (Some "item1") "Same content")
              (Sample.note (Some "item2") "Same content")
              (Sample.note None "Same content") 0 1 2
              Sample.readings Sample.readings Sample.readings
              Ha Hb Hab eq_refl eq_refl eq_refl))))).
Defined.

Lemma replaced_content_stays_known_witness :
  given_id (Sample.note (Some "item1") "Old content") = Some "item1"
  /\ ContextManager.track Sample.by_length
       (ContextManager.track Sample.by_length
          (ContextManager.track Sample.by_length ContextManager.new
             (Sample.note (Some "item1") "Old content") 0 Sample.readings)
          (Sample.note (Some "item1") "New") 1 Sample.readings)
       (Sample.note None "Old content") 2 Sample.readings
     = ContextManager.track Sample.by_length
         (ContextManager.track Sample.by_length ContextManager.new
            (Sample.note (Some "item1") "Old content") 0 Sample.readings)
         (Sample.note (Some "item1") "New") 1 Sample.readings.
Proof.
  assert (H1 : given_id (Sample.note (Some "item1") "Old content") = Some "item1")
    by reflexivity.
  assert (H2 : given_id (Sample.note (Some "item1") "New") = Some "item1")
    by reflexivity.
  split; [exact H1 |].
  exact (proj2 (proj2 (proj2 (proj2
           (replaced_content_stays_known Sample.by_length ContextManager.new "item1"
              (Sample.note (Some "item1") "Old content")
              (Sample.note (Some "item1") "New")
              (Sample.note None "Old content") 0 1 2
              Sample.readings Sample.readings Sample.readings
              H1 H2 eq_refl eq_refl))))).
Defined.

End ContextSamples.

(* ================================================================== *)
(** * The logger wrapper *)
(* ================================================================== *)

Section LoggerFacts.
Import Js Logger.

Context {W : Type}.

Lemma missingMethods_spec (l : Logger W) (m : level) :
  In m (missingMethods l) <-> method l m = None.
Proof.
  unfold missingMethods. rewrite filter_In. split.
  - intros (_ & H). now destruct (method l m).
  - intros H. rewrite H. split; [| reflexivity].
    destruct m; cbn; tauto.
Qed.

Lemma wrapLogger_complete (l : Logger W) (name : option string) :
  (forall m, method l m <> None) ->
  wrapLogger l name = Resolved {| toWrap := l; given_name := name |}.
Proof.
  intros Hall. unfold wrapLogger.
  destruct (missingMethods l) as [| m rest] eqn:Hmissing; [reflexivity |].
  exfalso. apply (Hall m). apply missingMethods_spec. rewrite Hmissing. now left.
Qed.

Lemma append_assoc (a b c : string) : ((a ++ b) ++ c = a ++ (b ++ c))%string.
Proof. induction a as [| ch a IH]; cbn; [reflexivity | now rewrite IH]. Qed.

Lemma join_head (n c : string) (rest : list string) :
  join ":" ((n ++ ":" ++ c) :: rest) = join ":" (n :: c :: rest).
Proof.
  destruct rest as [| r rest']; cbn [join]; [reflexivity |].
  now rewrite !append_assoc.
Qed.

Lemma truthy_append (n tail : string) :
  truthy (Some n) = true -> truthy (Some (n ++ tail)%string) = true.
Proof. destruct n; cbn; [discriminate | reflexivity]. Qed.

Lemma descend_named (l : Logger W) (path : list (list string)) :
  (forall m, method l m <> None) ->
  forall n : string,
  truthy (Some n) = true ->
  descend {| toWrap := l; given_name := Some n |} path
  = Resolved {| toWrap := l;
                given_name := Some (join ":" (n :: map (join ":") path)) |}.
Proof.
  intros Hall. induction path as [| c rest IH]; intros n Hn; cbn [descend map].
  - reflexivity.
  - unfold get. cbn [toWrap given_name]. rewrite Hn. cbn [text_of].
    rewrite (wrapLogger_complete l _ Hall).
    rewrite IH by (now apply truthy_append).
    now rewrite join_head.
Qed.

Lemma descend_target (l : Logger W) (path : list (list string)) :
  (forall m, method l m <> None) ->
  forall name, exists child,
    descend {| toWrap := l; given_name := name |} path = Resolved child
    /\ toWrap child = l.
Proof.
  intros Hall. induction path as [| c rest IH]; intros name; cbn [descend].
  - eexists. split; reflexivity.
  - unfold get. cbn [toWrap given_name]. rewrite (wrapLogger_complete l _ Hall).
    apply IH.
Qed.

(** X30. [wrapLogger] either refuses the logger or returns a wrapper that
    never fails.  It refuses exactly when one of [debug], [info], [warn],
    [error], [verbose], [silly] is not a function, and names the missing
    ones in that order.  Otherwise every call of a method of the wrapper,
    and of any child made by [get], at any depth, reaches the method of
    the same name of the logger that was wrapped, once, with the message
    behind the prefix [[agentic] [name]: ]; the name of a child is the name
    of the wrapper followed by the components, joined by colons. *)
Theorem wrapLogger_checks_then_forwards (l : Logger W) (name : option string) :
  match wrapLogger l name with
  | Rejected e =>
      (exists m, method l m = None)
      /\ e = Error ("Logger is missing required methods: "
                    ++ join ", " (map level_name (missingMethods l)))
      /\ (forall m, In m (missingMethods l) <-> method l m = None)
  | Resolved lg =>
      toWrap lg = l /\ given_name lg = name
      /\ (forall m, method l m <> None)
      /\ forall path, exists child,
           descend lg path = Resolved child
           /\ toWrap child = l
           /\ (truthy name = true ->
               given_name child
               = Some (join ":" (text_of name :: map (join ":") path)))
           /\ forall m message args w, exists f,
                method l m = Some f
                /\ log child m message args w
                   = (Resolved tt, f (prefixed (given_name child) message) args w)
  end.
Proof.
  unfold wrapLogger.
  destruct (missingMethods l) as [| m0 rest] eqn:Hmissing.
  - assert (Hall : forall m, method l m <> None).
    { intros m Hm. apply missingMethods_spec in Hm. now rewrite Hmissing in Hm. }
    split; [reflexivity |]. split; [reflexivity |]. split; [exact Hall |].
    intros path.
    destruct (descend_target l path Hall name) as (child & Hchild & Htarget).
    exists child. split; [exact Hchild |]. split; [exact Htarget |]. split.
    + intros Hname. destruct name as [n |]; [| discriminate].
      rewrite (descend_named l path Hall n Hname) in Hchild.
      injection Hchild as <-. reflexivity.
    + intros m message args w. unfold log. rewrite Htarget.
      destruct (method l m) as [f |] eqn:Hf; [| now elim (Hall m)].
      exists f. split; reflexivity.
  - split; [exists m0; apply missingMethods_spec; rewrite Hmissing; now left |].
    split; [reflexivity |]. intros m. rewrite <- Hmissing. apply missingMethods_spec.
Qed.

End LoggerFacts.
